(** * lvl-common-base: [clone] and [dataFormat]

    A shallow embedding of the two modules of the package, [src/clone.js]
    and [src/dataFormat.js], and the properties of them that the
    specification states.

    The JavaScript platform the code runs on is modelled first:
    strings ([JSString]), IEEE-754 binary64 numbers with the ECMAScript
    conversions between numbers and strings ([JSNumber]) and the civil
    calendar behind [Date] ([JSDate]).  The embeddings of the source files
    follow in [DataFormat] and [Clone]. *)

From Stdlib Require Import ZArith String Ascii List Lia Bool.
From stdpp Require Import base tactics option list.
Import ListNotations.

Local Open Scope string_scope.
Local Open Scope Z_scope.

(** ** Strings: the [String.prototype] methods the code calls *)

Module JSString.

(** Code-unit count, [s.length]. *)
Definition len (s : string) : Z := Z.of_nat (String.length s).

Fixpoint take (n : nat) (s : string) : string :=
  match n, s with
  | S n', String c s' => String c (take n' s')
  | _, _ => EmptyString
  end.

Fixpoint drop (n : nat) (s : string) : string :=
  match n, s with
  | S n', String _ s' => drop n' s'
  | _, _ => s
  end.

(** [n] copies of the character ['0']: [new Array(n + 1).join('0')]. *)
Fixpoint zeros (n : nat) : string :=
  match n with
  | O => EmptyString
  | S n' => String "0" (zeros n')
  end.

(** A relative index ([start] of [substr], both arguments of [slice]):
    counted from the end when negative, clamped to the string. *)
Definition rel_index (size i : Z) : Z :=
  if i <? 0 then Z.max (size + i) 0 else Z.min i size.

(** [s.substr(start, length)]. *)
Definition substr (s : string) (start length : Z) : string :=
  let from := rel_index (len s) start in
  let n := Z.min (Z.max length 0) (len s - from) in
  take (Z.to_nat n) (drop (Z.to_nat from) s).

(** [s.substr(start)]. *)
Definition substr_from (s : string) (start : Z) : string :=
  drop (Z.to_nat (rel_index (len s) start)) s.

(** [s.slice(start, end)]. *)
Definition slice (s : string) (start stop : Z) : string :=
  let from := rel_index (len s) start in
  let to := rel_index (len s) stop in
  take (Z.to_nat (to - from)) (drop (Z.to_nat from) s).

(** [s.slice(start)]. *)
Definition slice_from (s : string) (start : Z) : string :=
  drop (Z.to_nat (rel_index (len s) start)) s.

(** [s.split('.')]: the pieces between the points, always at least one. *)
Fixpoint split_dot (s : string) : list string :=
  match s with
  | EmptyString => [EmptyString]
  | String c s' =>
      if Ascii.eqb c "."%char then EmptyString :: split_dot s'
      else match split_dot s' with
           | piece :: pieces => String c piece :: pieces
           | [] => [String c EmptyString]
           end
  end.

(** [s.replace(key, by)] for a string [key] and a replacement without
    ['$']: the first occurrence of [key], if any, is replaced. *)
Fixpoint replace (key by_ s : string) : string :=
  if String.prefix key s then by_ ++ drop (String.length key) s
  else match s with
       | EmptyString => EmptyString
       | String c s' => String c (replace key by_ s')
       end.

(** Where [key] first occurs in [s], if it does. *)
Fixpoint first_index (key s : string) : option nat :=
  if String.prefix key s then Some 0%nat
  else match s with
       | EmptyString => None
       | String _ s' => S <$> first_index key s'
       end.

(** Texts without a point. *)
Fixpoint no_dot (s : string) : bool :=
  match s with
  | EmptyString => true
  | String c s' => negb (Ascii.eqb c ".") && no_dot s'
  end.

End JSString.

(** ** Numbers: IEEE-754 binary64 with exact arithmetic

    A finite number is [(-1)^neg * m * 2^e] with [0 <= m < 2^53] and
    [-1074 <= e <= 971], normalised ([2^52 <= m] unless [e = -1074]).
    Every operation computes the exact rational result and rounds it once,
    to nearest, ties to even, as IEEE-754 and ECMAScript prescribe. *)

Module JSNumber.

Inductive number : Type :=
| NaN : number
| Infinity (neg : bool) : number
| Finite (neg : bool) (m e : Z) : number.

Definition canonical (x : number) : bool :=
  match x with
  | Finite _ m e =>
      (0 <=? m) && (m <? 2 ^ 53) && (-1074 <=? e) && (e <=? 971)
      && ((2 ^ 52 <=? m) || (e =? -1074))
  | _ => true
  end.

Definition zero (neg : bool) : number := Finite neg 0 (-1074).

(** The number nearest to the rational [p / q] ([0 <= p], [0 < q]), with
    sign [neg]; ties go to the even significand, overflow to infinity. *)
Definition round_ratio (neg : bool) (p q : Z) : number :=
  if p <=? 0 then zero neg else
  let l := Z.log2 p - Z.log2 q in
  let fl := if p * 2 ^ Z.max 0 (- l) <? q * 2 ^ Z.max 0 l then l - 1 else l in
  let e := Z.max (-1074) (fl - 52) in
  let num := p * 2 ^ Z.max 0 (- e) in
  let den := q * 2 ^ Z.max 0 e in
  let quo := num / den in
  let rem := num mod den in
  let up := (den <? 2 * rem) || ((den =? 2 * rem) && Z.odd quo) in
  let m := if up then quo + 1 else quo in
  let e' := if m =? 2 ^ 53 then e + 1 else e in
  let m' := if m =? 2 ^ 53 then 2 ^ 52 else m in
  if 971 <? e' then Infinity neg else Finite neg m' e'.

Definition of_Z (z : Z) : number := round_ratio (z <? 0) (Z.abs z) 1.

(** The number a decimal literal [c * 10^k] denotes. *)
Definition dec (c k : Z) : number :=
  round_ratio (c <? 0) (Z.abs c * 10 ^ Z.max 0 k) (10 ^ Z.max 0 (- k)).

Definition is_nan (x : number) : bool :=
  match x with NaN => true | _ => false end.

Definition is_finite (x : number) : bool :=
  match x with Finite _ _ _ => true | _ => false end.

(** [Math.abs]. *)
Definition abs (x : number) : number :=
  match x with
  | NaN => NaN
  | Infinity _ => Infinity false
  | Finite _ m e => Finite false m e
  end.

Definition opp (x : number) : number :=
  match x with
  | NaN => NaN
  | Infinity neg => Infinity (negb neg)
  | Finite neg m e => Finite (negb neg) m e
  end.

(** A finite number as an integer multiple of [2^-1074]. *)
Definition scaled (neg : bool) (m e : Z) : Z :=
  (if neg then - m else m) * 2 ^ (e + 1074).

(** [x < y]; false when either is NaN. *)
Definition ltb (x y : number) : bool :=
  match x, y with
  | NaN, _ | _, NaN => false
  | Infinity nx, Infinity ny => nx && negb ny
  | Infinity nx, Finite _ _ _ => nx
  | Finite _ _ _, Infinity ny => negb ny
  | Finite nx mx ex, Finite ny my ey => scaled nx mx ex <? scaled ny my ey
  end.

(** [x >= y]; false when either is NaN. *)
Definition geb (x y : number) : bool :=
  match x, y with
  | NaN, _ | _, NaN => false
  | Infinity nx, Infinity ny => negb nx || ny
  | Infinity nx, Finite _ _ _ => negb nx
  | Finite _ _ _, Infinity ny => ny
  | Finite nx mx ex, Finite ny my ey => scaled ny my ey <=? scaled nx mx ex
  end.

(** [x === y] on numbers: NaN differs from itself, the two zeros agree. *)
Definition eqb (x y : number) : bool :=
  match x, y with
  | Infinity nx, Infinity ny => Bool.eqb nx ny
  | Finite nx mx ex, Finite ny my ey => scaled nx mx ex =? scaled ny my ey
  | _, _ => false
  end.

(** [x / y]. *)
Definition div (x y : number) : number :=
  match x, y with
  | NaN, _ | _, NaN => NaN
  | Infinity _, Infinity _ => NaN
  | Infinity nx, Finite ny _ _ => Infinity (xorb nx ny)
  | Finite nx _ _, Infinity ny => zero (xorb nx ny)
  | Finite nx mx ex, Finite ny my ey =>
      if my =? 0 then (if mx =? 0 then NaN else Infinity (xorb nx ny))
      else round_ratio (xorb nx ny)
             (mx * 2 ^ Z.max 0 (ex - ey)) (my * 2 ^ Z.max 0 (ey - ex))
  end.

(** [x * y]. *)
Definition mul (x y : number) : number :=
  match x, y with
  | NaN, _ | _, NaN => NaN
  | Infinity nx, Infinity ny => Infinity (xorb nx ny)
  | Infinity nx, Finite ny my _ =>
      if my =? 0 then NaN else Infinity (xorb nx ny)
  | Finite nx mx _, Infinity ny =>
      if mx =? 0 then NaN else Infinity (xorb nx ny)
  | Finite nx mx ex, Finite ny my ey =>
      round_ratio (xorb nx ny)
        (mx * my * 2 ^ Z.max 0 (ex + ey)) (2 ^ Z.max 0 (- (ex + ey)))
  end.

(** [x + y]. *)
Definition add (x y : number) : number :=
  match x, y with
  | NaN, _ | _, NaN => NaN
  | Infinity nx, Infinity ny => if Bool.eqb nx ny then x else NaN
  | Infinity _, Finite _ _ _ => x
  | Finite _ _ _, Infinity _ => y
  | Finite nx mx ex, Finite ny my ey =>
      let sum := scaled nx mx ex + scaled ny my ey in
      if sum =? 0 then zero (nx && ny)
      else round_ratio (sum <? 0) (Z.abs sum) (2 ^ 1074)
  end.

(** [Math.round]: the nearest integer, a tie going to the one nearer
    to +Infinity; zeros, infinities and NaN are returned as they are, and
    a result of zero keeps the sign of the argument. *)
Definition round (x : number) : number :=
  match x with
  | Finite neg m e =>
      if 0 <=? e then x
      else
        let n := ((if neg then - (2 * m) else 2 * m) + 2 ^ (- e)) / 2 ^ (1 - e) in
        if n =? 0 then zero neg else of_Z n
  | _ => x
  end.

(** *** Number to string ([Number.prototype.toString], radix 10) *)

Definition digit_char (d : Z) : ascii := ascii_of_N (Z.to_N (48 + d)).

Fixpoint digits_from (fuel : nat) (z : Z) (acc : string) : string :=
  match fuel with
  | O => acc
  | S fuel' =>
      let acc' := String (digit_char (z mod 10)) acc in
      if z <? 10 then acc' else digits_from fuel' (z / 10) acc'
  end.

(** The decimal digits of [z >= 0], without leading zeros. *)
Definition digits_of (z : Z) : string :=
  digits_from (S (Z.to_nat (Z.log2 z))) z EmptyString.

Definition ndigits (z : Z) : Z := JSString.len (digits_of z).

(** The [n] with [10^(n-1) <= num/den < 10^n], for [0 < num], [0 < den]. *)
Definition decimal_exponent (num den : Z) : Z :=
  if den <=? num then ndigits (num / den)
  else
    let j := ndigits den - ndigits num in
    if den <=? num * 10 ^ j then 1 - j else - j.

(** Does the decimal [s * 10^sc] convert to the number [m * 2^e]? *)
Definition converts_to (m e s sc : Z) : bool :=
  match round_ratio false (s * 10 ^ Z.max 0 sc) (10 ^ Z.max 0 (- sc)) with
  | Finite _ m' e' => (m' =? m) && (e' =? e)
  | _ => false
  end.

(** The [k]-digit integers [s] next to [x / 10^(n0 - k)] for which
    [s * 10^(n0 - k)] converts to [x = num/den = m * 2^e]; of two, the
    one nearer to [x]. *)
Definition digits_at (num den m e n0 k : Z) : option Z :=
  let sc := n0 - k in
  let a := num * 10 ^ Z.max 0 (- sc) in
  let b := den * 10 ^ Z.max 0 sc in
  let lo := a / b in
  let hi := lo + 1 in
  let r := a mod b in
  match converts_to m e lo sc, converts_to m e hi sc with
  | true, true =>
      Some (if 2 * r <? b then lo
            else if b <? 2 * r then hi
            else if Z.even lo then lo else hi)
  | true, false => Some lo
  | false, true => Some hi
  | false, false => None
  end.

(** The least [k] (from [k] on, at most [fuel] tried) with such an [s]. *)
Fixpoint shortest_from (fuel : nat) (num den m e n0 k : Z) : Z * Z :=
  match fuel with
  | O => ((num * 10 ^ Z.max 0 (k - n0)) / (den * 10 ^ Z.max 0 (n0 - k)), k)
  | S fuel' =>
      match digits_at num den m e n0 k with
      | Some s => (s, k)
      | None => shortest_from fuel' num den m e n0 (k + 1)
      end
  end.

(** The digits [s] and the exponent [n] of step 5 of [Number::toString]:
    [s * 10^(n - k)] converts to [m * 2^e], with [k], the number of digits
    of [s], as small as possible. Seventeen digits always suffice. *)
Definition shortest (m e : Z) : Z * Z :=
  let num := m * 2 ^ Z.max 0 e in
  let den := 2 ^ Z.max 0 (- e) in
  let n0 := decimal_exponent num den in
  let '(s, k) := shortest_from 17 num den m e n0 1 in
  if s =? 10 ^ k then (1, n0 + 1) else (s, n0).

(** Steps 6 to 10: the digits [ds] laid out around the point. *)
Definition render (ds : string) (n : Z) : string :=
  let k := JSString.len ds in
  if (k <=? n) && (n <=? 21) then ds ++ JSString.zeros (Z.to_nat (n - k))
  else if (0 <? n) && (n <=? 21) then
    JSString.take (Z.to_nat n) ds ++ "." ++ JSString.drop (Z.to_nat n) ds
  else if (-6 <? n) && (n <=? 0) then
    "0." ++ JSString.zeros (Z.to_nat (- n)) ++ ds
  else
    let sign := if n - 1 <? 0 then "-" else "+" in
    let mantissa :=
      if k =? 1 then ds
      else JSString.take 1 ds ++ "." ++ JSString.drop 1 ds in
    mantissa ++ "e" ++ sign ++ digits_of (Z.abs (n - 1)).

Definition to_string (x : number) : string :=
  match x with
  | NaN => "NaN"
  | Infinity neg => if neg then "-Infinity" else "Infinity"
  | Finite neg m e =>
      if m =? 0 then "0"
      else
        let '(s, n) := shortest m e in
        (if neg then "-" else "") ++ render (digits_of s) n
  end.

(** *** String to number ([StringToNumber], behind [Number(s)])

    The [StringNumericLiteral] grammar: optional white space around a
    signed decimal literal, [Infinity], or an unsigned binary, octal or
    hexadecimal integer; the empty string is [+0], anything else NaN.
    Of the white space and line terminator characters, the ASCII ones are
    recognised. The mathematical value of the literal is rounded once. *)

Definition code (c : ascii) : Z := Z.of_N (N_of_ascii c).

Definition is_digit (c : ascii) : bool := (48 <=? code c) && (code c <=? 57).

Definition is_space (c : ascii) : bool :=
  ((9 <=? code c) && (code c <=? 13)) || (code c =? 32).

Fixpoint span_digits (s : string) : string * string :=
  match s with
  | String c s' =>
      if is_digit c then
        let '(ds, rest) := span_digits s' in (String c ds, rest)
      else (EmptyString, s)
  | EmptyString => (EmptyString, EmptyString)
  end.

Fixpoint digits_value (acc : Z) (ds : string) : Z :=
  match ds with
  | String c ds' => digits_value (10 * acc + (code c - 48)) ds'
  | EmptyString => acc
  end.

Definition split_sign (s : string) : bool * string :=
  match s with
  | String "-" s' => (true, s')
  | String "+" s' => (false, s')
  | _ => (false, s)
  end.

(** An optional [ExponentPart]: its value and what follows it, or [None]
    when an [e] is not followed by digits. *)
Definition exponent_part (s : string) : option (Z * string) :=
  match s with
  | String c s' =>
      if Ascii.eqb c "e" || Ascii.eqb c "E" then
        let '(neg, s'') := split_sign s' in
        let '(ds, rest) := span_digits s'' in
        match ds with
        | EmptyString => None
        | _ => Some (if neg then - digits_value 0 ds else digits_value 0 ds, rest)
        end
      else Some (0, s)
  | EmptyString => Some (0, EmptyString)
  end.

(** [StrUnsignedDecimalLiteral], with the sign already read. *)
Definition unsigned_decimal (neg : bool) (s : string) : number :=
  if String.eqb s "Infinity" then Infinity neg
  else
    let '(int_ds, rest) := span_digits s in
    let '(frac_ds, rest') :=
      match rest with
      | String "." r => span_digits r
      | _ => (EmptyString, rest)
      end in
    match int_ds ++ frac_ds with
    | EmptyString => NaN
    | ds =>
        match exponent_part rest' with
        | Some (ex, EmptyString) =>
            let k := ex - JSString.len frac_ds in
            round_ratio neg (digits_value 0 ds * 10 ^ Z.max 0 k) (10 ^ Z.max 0 (- k))
        | _ => NaN
        end
    end.

(** The value of a digit of a literal in [radix], if it is one. *)
Definition radix_digit (radix : Z) (c : ascii) : option Z :=
  let v :=
    if is_digit c then code c - 48
    else if (97 <=? code c) && (code c <=? 102) then code c - 87
    else if (65 <=? code c) && (code c <=? 70) then code c - 55
    else radix in
  if v <? radix then Some v else None.

Fixpoint radix_value (radix acc : Z) (s : string) : option Z :=
  match s with
  | String c s' =>
      match radix_digit radix c with
      | Some v => radix_value radix (radix * acc + v) s'
      | None => None
      end
  | EmptyString => Some acc
  end.

(** [NonDecimalIntegerLiteral]: [0b], [0o] or [0x] and at least one digit. *)
Definition non_decimal (s : string) : option number :=
  match s with
  | String "0" (String p (String c s')) =>
      let radix :=
        if Ascii.eqb p "x" || Ascii.eqb p "X" then 16
        else if Ascii.eqb p "o" || Ascii.eqb p "O" then 8
        else if Ascii.eqb p "b" || Ascii.eqb p "B" then 2
        else 0 in
      if radix =? 0 then None
      else match radix_value radix 0 (String c s') with
           | Some v => Some (of_Z v)
           | None => Some NaN
           end
  | _ => None
  end.

Fixpoint trim_left (s : string) : string :=
  match s with
  | String c s' => if is_space c then trim_left s' else s
  | EmptyString => EmptyString
  end.

Fixpoint trim_right (s : string) : string :=
  match s with
  | String c s' =>
      match trim_right s' with
      | EmptyString => if is_space c then EmptyString else String c EmptyString
      | t => String c t
      end
  | EmptyString => EmptyString
  end.

(** [Number(s)] for a string [s]. *)
Definition of_string (s : string) : number :=
  match trim_right (trim_left s) with
  | EmptyString => zero false
  | t =>
      match non_decimal t with
      | Some x => x
      | None => let '(neg, r) := split_sign t in unsigned_decimal neg r
      end
  end.

(** The value of the numeric literal [s] of a program: the nearest
    number, as for a string. *)
Definition literal (s : string) : number := of_string s.

(** [ToIntegerOrInfinity] of a finite number: truncation toward zero. *)
Definition to_integer (neg : bool) (m e : Z) : Z :=
  let n := m * 2 ^ Z.max 0 e / 2 ^ Z.max 0 (- e) in
  if neg then - n else n.

(** *** Notions the properties are stated with *)

Fixpoint all_digits (s : string) : bool :=
  match s with
  | EmptyString => true
  | String c s' => is_digit c && all_digits s'
  end.

(** A text made of digits, at least one, after an optional minus sign:
    no point, no exponent. *)
Definition integer_text (s : string) : bool :=
  match s with
  | String "-" (String c s') => all_digits (String c s')
  | String c s' => all_digits (String c s')
  | EmptyString => false
  end.

(** [n - 1/2 <= x < n + 1/2]: the integer [n] is nearest to [x], the
    upper one when two are equally near. Both sides are counted in units
    of [2^-1074], in which every finite number is an integer. *)
Definition nearest_ties_up (x : number) (n : Z) : Prop :=
  match x with
  | Finite neg m e =>
      (2 * n - 1) * 2 ^ 1073 <= scaled neg m e < (2 * n + 1) * 2 ^ 1073
  | _ => False
  end.

(** Is the text of [x] in exponent notation, as [1e+21] and [1.5e-7]? *)
Definition exponent_notation (x : number) : bool :=
  match x with
  | Finite _ m e =>
      if m =? 0 then false
      else let '(_, n) := shortest m e in negb ((-6 <? n) && (n <=? 21))
  | _ => false
  end.


(** The integer nearest to [x], the one away from zero when two are
    equally near. *)
Definition round_half_away (x : number) : Z :=
  match x with
  | Finite neg m e =>
      let n := (2 * m * 2 ^ Z.max 0 e + 2 ^ Z.max 0 (- e))
               / (2 * 2 ^ Z.max 0 (- e)) in
      if neg then - n else n
  | _ => 0
  end.

(** The characters of the texts the formatter builds from a number:
    digits, signs, the point, the [e] of an exponent and the letters of
    [NaN]. *)
Definition plain_char (c : ascii) : bool :=
  is_digit c || Ascii.eqb c "-" || Ascii.eqb c "+" || Ascii.eqb c "e"
  || Ascii.eqb c "." || Ascii.eqb c "N" || Ascii.eqb c "a".

Fixpoint plain (s : string) : bool :=
  match s with
  | EmptyString => true
  | String c s' => plain_char c && plain s'
  end.


(** The decimal numeral of an integer. *)
Definition numeral (n : Z) : string :=
  (if n <? 0 then "-" else "") ++ digits_of (Z.abs n).

End JSNumber.

(** ** Dates: the time value of [new Date(value)] and its local fields

    The time value is a number of milliseconds since the epoch, or absent
    for an invalid date; the calendar functions are those of ECMAScript's
    "Time Values and Time Range". The offset of local time is the host's. *)

Module JSDate.

Import JSNumber.

Definition msPerDay : Z := 86400000.

(** [TimeClip]: no time value beyond 8.64e15 ms or for a non-finite
    number; otherwise the number truncated to an integer. *)
Definition time_clip (x : number) : option Z :=
  match x with
  | Finite neg m e =>
      if 8640000000000000 * 2 ^ Z.max 0 (- e) <? m * 2 ^ Z.max 0 e then None
      else Some (to_integer neg m e)
  | _ => None
  end.

Definition Day (t : Z) : Z := t / msPerDay.

Definition DayFromYear (y : Z) : Z :=
  365 * (y - 1970) + (y - 1969) / 4 - (y - 1901) / 100 + (y - 1601) / 400.

Definition DaysInYear (y : Z) : Z :=
  if (y mod 4 =? 0) && (negb (y mod 100 =? 0) || (y mod 400 =? 0))
  then 366 else 365.

Fixpoint year_from (fuel : nat) (y day : Z) : Z :=
  match fuel with
  | O => y
  | S fuel' =>
      if DayFromYear (y + 1) <=? day then year_from fuel' (y + 1) day else y
  end.

(** The year [y] with [DayFromYear y <= Day t < DayFromYear (y + 1)],
    looked for from two years below the estimate by the mean year. *)
Definition YearFromTime (t : Z) : Z :=
  year_from 4 (1970 + Day t * 400 / 146097 - 2) (Day t).

Definition DayWithinYear (t : Z) : Z := Day t - DayFromYear (YearFromTime t).

Definition InLeapYear (t : Z) : Z :=
  if DaysInYear (YearFromTime t) =? 366 then 1 else 0.

(** The day of the year on which each month starts. *)
Definition month_starts (leap : Z) : list Z :=
  [0; 31; 59 + leap; 90 + leap; 120 + leap; 151 + leap; 181 + leap;
   212 + leap; 243 + leap; 273 + leap; 304 + leap; 334 + leap].

(** The last month starting on or before day [d], and its first day. *)
Fixpoint month_of (d : Z) (month : Z) (start : Z) (starts : list Z) : Z * Z :=
  match starts with
  | [] => (month, start)
  | s :: starts' =>
      if s <=? d then month_of d (month + 1) s starts' else (month, start)
  end.

Definition MonthFromTime (t : Z) : Z :=
  fst (month_of (DayWithinYear t) (-1) 0 (month_starts (InLeapYear t))).

Definition DateFromTime (t : Z) : Z :=
  DayWithinYear t
  - snd (month_of (DayWithinYear t) (-1) 0 (month_starts (InLeapYear t))) + 1.

Definition HourFromTime (t : Z) : Z := (t / 3600000) mod 24.
Definition MinFromTime (t : Z) : Z := (t / 60000) mod 60.
Definition SecFromTime (t : Z) : Z := (t / 1000) mod 60.

Section Host.

(** The host's offset of local time from UTC at a time value, in ms. *)
Variable localTZA : Z -> Z.

Definition LocalTime (t : Z) : Z := t + localTZA t.

(** A getter of [Date.prototype]: NaN on an invalid date. *)
Definition getter (field : Z -> Z) (date : option Z) : number :=
  match date with
  | Some t => of_Z (field (LocalTime t))
  | None => NaN
  end.

Definition getFullYear := getter YearFromTime.
Definition getMonth := getter MonthFromTime.
Definition getDate := getter DateFromTime.
Definition getHours := getter HourFromTime.
Definition getMinutes := getter MinFromTime.
Definition getSeconds := getter SecFromTime.

End Host.

End JSDate.

(** ** [src/dataFormat.js]: the formatter

    Objects live in a store. The only objects the formatter reads or writes
    through a reference are option records, so the store holds those; a
    method is a computation over the store that returns a value or throws.
    A [decimal] is an integer when given ([None] stands for both
    [undefined] and NaN, which the code treats alike); the flags are
    booleans when given. *)

Module DataFormat.

Import JSNumber.

Inductive error : Type := TypeError | RangeError.

Inductive result (A : Type) : Type :=
| Ok (a : A)
| Throw (e : error).

Arguments Ok {A} a.
Arguments Throw {A} e.

Definition loc := nat.

(** An option object: the properties the formatter looks at. *)
Record options : Type := {
  decimal : option Z;
  isRemoveExtraZero : option bool;
  isFillZeroInFront : option bool;
  isSplitValueAndUnit : option bool;
  isAttachThousandSymbol : option bool
}.

(** The object literal [{}]. *)
Definition empty_options : options :=
  {| decimal := None; isRemoveExtraZero := None; isFillZeroInFront := None;
     isSplitValueAndUnit := None; isAttachThousandSymbol := None |}.

Definition set_decimal (d : option Z) (o : options) : options :=
  {| decimal := d;
     isRemoveExtraZero := isRemoveExtraZero o;
     isFillZeroInFront := isFillZeroInFront o;
     isSplitValueAndUnit := isSplitValueAndUnit o;
     isAttachThousandSymbol := isAttachThousandSymbol o |}.

(** Truthiness of a flag: [undefined] is falsy. *)
Definition truthy (flag : option bool) : bool := default false flag.

(** JavaScript values: the primitives, a reference to an option record,
    and the object [{ value, unit }] that [largeNumberFormat] builds. *)
Inductive value : Type :=
| VUndefined
| VNull
| VBoolean (b : bool)
| VNumber (x : number)
| VString (s : string)
| VSymbol (description : string)
| VBigInt (z : Z)
| VObject (l : loc)
| VValueUnit (v : value) (unit : string).

Inductive type_name : Type :=
| TUndefined | TObject | TBoolean | TNumber | TString | TSymbol | TBigInt.

Definition typeof (v : value) : type_name :=
  match v with
  | VUndefined => TUndefined
  | VNull | VObject _ | VValueUnit _ _ => TObject
  | VBoolean _ => TBoolean
  | VNumber _ => TNumber
  | VString _ => TString
  | VSymbol _ => TSymbol
  | VBigInt _ => TBigInt
  end.

Definition is_number (v : value) : bool :=
  match v with VNumber _ => true | _ => false end.

(** *** The store and its computations *)

Abbreviation heap := (list options).

Definition M (A : Type) : Type := heap -> result A * heap.

Definition ret {A : Type} (a : A) : M A := fun h => (Ok a, h).

Definition throw {A : Type} (e : error) : M A := fun h => (Throw e, h).

Definition bind {A B : Type} (c : M A) (k : A -> M B) : M B :=
  fun h =>
    match c h with
    | (Ok a, h') => k a h'
    | (Throw e, h') => (Throw e, h')
    end.

Notation "'let*' x ':=' c 'in' k" := (bind c (fun x => k))
  (at level 10, x name, c at level 100, k at level 200).

(** A fresh object. *)
Definition alloc (o : options) : M loc :=
  fun h => (Ok (length h), (h ++ [o])%list).

(** The properties of the object at [l]; an object the store does not
    hold has none of them. *)
Definition load (l : loc) : M options :=
  fun h => (Ok (default empty_options (h !! l)), h).

(** [object.decimal = d]. *)
Definition store_decimal (l : loc) (d : option Z) : M unit :=
  fun h => (Ok tt, alter (set_decimal d) l h).

Fixpoint foldM {A B : Type} (f : B -> A -> M B) (l : list A) (b : B) : M B :=
  match l with
  | [] => ret b
  | a :: l' => let* b' := f b a in foldM f l' b'
  end.

(** *** Conversions *)

(** [ToNumber]: a symbol or a BigInt does not convert; the objects of
    this model are plain ones, which convert to NaN. *)
Definition to_number (v : value) : M number :=
  match v with
  | VUndefined => ret NaN
  | VNull => ret (zero false)
  | VBoolean b => ret (of_Z (if b then 1 else 0))
  | VNumber x => ret x
  | VString s => ret (of_string s)
  | VSymbol _ | VBigInt _ => throw TypeError
  | VObject _ | VValueUnit _ _ => ret NaN
  end.

(** [ToString]: a symbol does not convert. *)
Definition to_string_value (v : value) : M string :=
  match v with
  | VUndefined => ret "undefined"
  | VNull => ret "null"
  | VBoolean b => ret (if b then "true" else "false")
  | VNumber x => ret (to_string x)
  | VString s => ret s
  | VSymbol _ => throw TypeError
  | VBigInt z => ret ((if z <? 0 then "-" else "") ++ digits_of (Z.abs z))
  | VObject _ | VValueUnit _ _ => ret "[object Object]"
  end.

(** [Math.abs(v)]. *)
Definition Math_abs (v : value) : M number :=
  let* x := to_number v in ret (abs x).

(** The longest string the engine builds. The standard leaves the limit
    to the engine; this is the one of V8 on 64 bits, [2^29 - 24]. *)
Definition max_string_length : Z := 536870888.

(** A string that [+] or [join] has put together: one longer than the
    engine's limit is a RangeError. The test is made in [retainDecimal],
    where the length grows with [decimal]. Its callers add a few
    characters to its result (a sign, a ['0'], a unit, ['%']) and are
    not tested: a result within those few characters of the limit is
    outside the model. *)
Definition built (s : string) : M string :=
  if max_string_length <? JSString.len s then throw RangeError else ret s.

(** [new Array(n).join('0')]: [n - 1] zeros. A length that is no
    unsigned 32-bit integer is a RangeError of [new Array], and so are
    more zeros than a string holds of [join]. *)
Definition new_Array_join0 (n : Z) : M string :=
  if (n <? 0) || (4294967295 <? n) then throw RangeError
  else if max_string_length <? n - 1 then throw RangeError
  else ret (JSString.zeros (Z.to_nat (n - 1))).

(** *** The methods of [DataFormat] *)

(** Lines 144-179. *)
Definition retainDecimal
    (v : value) (decimal : option Z) (isRemoveExtraZero : option bool) : M value :=
  let decimal := default 2 decimal in
  let isRemoveExtraZero := default true isRemoveExtraZero in
  match v with
  | VNumber x =>
      let decimal := if decimal <? 0 then 2 else decimal in
      if decimal =? 0 then ret (VString (to_string (round x)))
      else
        let values := JSString.split_dot (to_string x) in
        let integerPart := nth 0 values "" in
        let decimalPart := nth 1 values "" in
        let* decimalPart :=
          if JSString.len decimalPart <? decimal then
            let* pad := new_Array_join0 (decimal - JSString.len decimalPart + 1) in
            built (decimalPart ++ pad)
          else ret decimalPart in
        let* shifted :=
          built (integerPart ++ JSString.substr decimalPart 0 decimal
                 ++ "." ++ JSString.substr_from decimalPart decimal) in
        let newValue := of_string shifted in
        let newValue := round newValue in
        let text := to_string newValue in
        let* text :=
          if decimal <? JSString.len text then
            ret (JSString.slice text 0 (- decimal) ++ "."
                 ++ JSString.slice_from text (- decimal))
          else
            let* pad := new_Array_join0 (decimal - JSString.len text + 1) in
            built ("0." ++ pad ++ text) in
        let text := if isRemoveExtraZero then to_string (of_string text) else text in
        ret (VString text)
  | _ => ret v
  end.

(** Lines 63-80. *)
Definition smallNumberFormat (v : value) (opt : option loc) : M value :=
  let* o :=
    match opt with
    | Some l => ret l
    | None =>
        alloc {| decimal := Some 8; isRemoveExtraZero := Some true;
                 isFillZeroInFront := Some false;
                 isSplitValueAndUnit := None; isAttachThousandSymbol := None |}
    end in
  match v with
  | VNumber x =>
      let* r := load o in
      let* _ :=
        match decimal r with
        | Some d => if d <? 0 then store_decimal o (Some 8) else ret tt
        | None => store_decimal o (Some 8)
        end in
      let* r := load o in
      let* formatValue := retainDecimal v (decimal r) (isRemoveExtraZero r) in
      if truthy (isFillZeroInFront r) && ltb (abs x) (of_Z 10) then
        let* s := to_string_value formatValue in ret (VString ("0" ++ s))
      else ret formatValue
  | _ => ret v
  end.

(** The text of a field of a date in two digits. *)
Definition two_digit_text (t : number) : string :=
  (if ltb (abs t) (of_Z 10) then "0" else "") ++ to_string (round t).

(** The object literal [{ decimal: 0, isFillZeroInFront: true }]. *)
Definition two_digit_options : options :=
  {| decimal := Some 0; isRemoveExtraZero := None;
     isFillZeroInFront := Some true;
     isSplitValueAndUnit := None; isAttachThousandSymbol := None |}.

Section Host.

(** [Number.prototype.toLocaleString] of the host's default locale. *)
Variable toLocaleString : number -> string.

(** The host's offset of local time from UTC at a time value, in ms. *)
Variable localTZA : Z -> Z.

(** Lines 105-117: the unit and the divisor for a magnitude. *)
Definition unit_and_divisor (absValue : number) : string * number :=
  let unit := "亿" in
  let divisor := of_Z 100000000 in
  let '(unit, divisor) :=
    if ltb absValue divisor then ("万", div divisor (of_Z 10000))
    else (unit, divisor) in
  if ltb absValue divisor then ("", of_Z 1) else (unit, divisor).

(** Lines 121-127: the thousands separators. *)
Definition attachThousandSymbol (v : value) : M value :=
  match v with
  | VString text =>
      let values := JSString.split_dot text in
      let integerPart := nth 0 values "" in
      let decimalPart :=
        match nth 1 values "" with
        | EmptyString => ""
        | part => "." ++ part
        end in
      let integerPart := toLocaleString (of_string integerPart) in
      ret (VString (integerPart ++ decimalPart))
  | _ => throw TypeError
  end.

(** Lines 92-135. *)
Definition largeNumberFormat (v : value) (opt : option loc) : M value :=
  let* o :=
    match opt with
    | Some l => ret l
    | None =>
        alloc {| decimal := Some 2; isRemoveExtraZero := Some true;
                 isFillZeroInFront := None;
                 isSplitValueAndUnit := Some false;
                 isAttachThousandSymbol := Some false |}
    end in
  match v with
  | VNumber x =>
      let '(unit, divisor) := unit_and_divisor (abs x) in
      let v := VNumber (div x divisor) in
      let* r := load o in
      let* v := retainDecimal v (decimal r) (isRemoveExtraZero r) in
      let* v :=
        if truthy (isAttachThousandSymbol r) then attachThousandSymbol v
        else ret v in
      if truthy (isSplitValueAndUnit r) then ret (VValueUnit v unit)
      else let* s := to_string_value v in ret (VString (s ++ unit))
  | _ => ret v
  end.

(** The second argument of [numberFormat]: a number, an object with the
    optional properties [small] and [large], [null], or anything else. *)
Inductive format_option : Type :=
| FONumber (d : option Z)
| FOObject (small large : option loc)
| FONull
| FOOther.

(** Lines 26-54. The option object of the number case is built first;
    [null] passes the [switch] and fails at the property access. *)
Definition numberFormat (v : value) (formatOption : format_option) : M value :=
  let* formatOption :=
    match formatOption with
    | FONumber d =>
        let* small :=
          alloc {| decimal := d; isRemoveExtraZero := Some true;
                   isFillZeroInFront := Some false;
                   isSplitValueAndUnit := None; isAttachThousandSymbol := None |} in
        let* large :=
          alloc {| decimal := d; isRemoveExtraZero := Some true;
                   isFillZeroInFront := None;
                   isSplitValueAndUnit := None; isAttachThousandSymbol := None |} in
        ret (FOObject (Some small) (Some large))
    | FOObject _ _ | FONull => ret formatOption
    | _ => ret (FOObject None None)
    end in
  let* absValue := Math_abs v in
  match formatOption with
  | FOObject small large =>
      if ltb absValue (of_Z 10) then
        let* o := match small with Some l => ret l | None => alloc empty_options end in
        smallNumberFormat v (Some o)
      else
        let* o := match large with Some l => ret l | None => alloc empty_options end in
        largeNumberFormat v (Some o)
  | _ => throw TypeError
  end.

(** Lines 187-205. *)
Definition percentFormat (v : value) (isAttachSymbol : option bool) : M value :=
  let isAttachSymbol := default true isAttachSymbol in
  match v with
  | VNumber x =>
      let symbol :=
        if isAttachSymbol && negb (eqb x (of_Z 0)) then
          if ltb (of_Z 0) x then "+" else "-"
        else "" in
      let v := VNumber (mul (abs x) (of_Z 100)) in
      let* v := retainDecimal v (Some 2) None in
      let* s := to_string_value v in
      ret (VString (symbol ++ s ++ "%"))
  | _ => ret v
  end.

(** The local object [datetime]: its properties in the order written. *)
Definition table := list (string * value).

Definition get (key : string) (t : table) : value :=
  match find (fun kv => String.eqb (fst kv) key) t with
  | Some kv => snd kv
  | None => VUndefined
  end.

(** Lines 229-232: the two-digit form of a field. *)
Definition two_digits (datetime : table) (key : string) : M table :=
  let time := get (JSString.slice_from key 1) datetime in
  let* o := alloc two_digit_options in
  let* text := smallNumberFormat time (Some o) in
  ret (datetime ++ [(key, text)])%list.

(** Line 237: one token replaced, at its first occurrence. *)
Definition substitute (datetime : table) (formatValue key : string) : M string :=
  let* text := to_string_value (get key datetime) in
  ret (JSString.replace key text formatValue).

Definition tokens : list string :=
  ["yyyy"; "MM"; "dd"; "hh"; "mm"; "ss"; "yy"; "M"; "d"; "h"; "m"; "s"].

(** Lines 218-227: the fields of the date, and [yy]. *)
Definition fields (x : number) : table :=
  let date := JSDate.time_clip x in
  let yyyy := JSDate.getFullYear localTZA date in
  [ ("yyyy", VNumber yyyy);
    ("M", VNumber (add (JSDate.getMonth localTZA date) (of_Z 1)));
    ("d", VNumber (JSDate.getDate localTZA date));
    ("h", VNumber (JSDate.getHours localTZA date));
    ("m", VNumber (JSDate.getMinutes localTZA date));
    ("s", VNumber (JSDate.getSeconds localTZA date));
    ("yy", VString (JSString.substr_from (to_string yyyy) 2)) ].

(** Lines 213-240. *)
Definition datetimeFormat (v : value) (express : option string) : M value :=
  let express := default "yyyyMMdd hh:mm:ss" express in
  match v with
  | VNumber x =>
      let* datetime := foldM two_digits ["MM"; "dd"; "hh"; "mm"; "ss"] (fields x) in
      let* formatValue := foldM (substitute datetime) tokens express in
      ret (VString formatValue)
  | _ => ret v
  end.


(** *** Notions the properties are stated with *)

(** The twelve tokens in the order of substitution, each with the text
    that replaces it for the timestamp [x]. *)
Definition token_texts (x : number) : list (string * string) :=
  let date := JSDate.time_clip x in
  let yyyy := JSDate.getFullYear localTZA date in
  let M := add (JSDate.getMonth localTZA date) (of_Z 1) in
  let d := JSDate.getDate localTZA date in
  let h := JSDate.getHours localTZA date in
  let m := JSDate.getMinutes localTZA date in
  let s := JSDate.getSeconds localTZA date in
  [ ("yyyy", to_string yyyy);
    ("MM", two_digit_text M); ("dd", two_digit_text d);
    ("hh", two_digit_text h); ("mm", two_digit_text m);
    ("ss", two_digit_text s);
    ("yy", JSString.substr_from (to_string yyyy) 2);
    ("M", to_string M); ("d", to_string d); ("h", to_string h);
    ("m", to_string m); ("s", to_string s) ].

(** The formatted text with the separators of the locale in its integer
    part, when the record asks for them. *)
Definition with_thousands (r : options) (text : string) : string :=
  if truthy (isAttachThousandSymbol r) then
    toLocaleString (of_string (nth 0 (JSString.split_dot text) ""))
    ++ match nth 1 (JSString.split_dot text) "" with
       | EmptyString => ""
       | part => "." ++ part
       end
  else text.

End Host.

(** Line 165: the text handed to [Number], with the point moved
    [decimal] places to the right in [text]. *)
Definition shifted_text (text : string) (decimal : Z) : string :=
  let values := JSString.split_dot text in
  let integerPart := nth 0 values "" in
  let decimalPart := nth 1 values "" in
  let decimalPart :=
    if JSString.len decimalPart <? decimal then
      decimalPart
      ++ JSString.zeros (Z.to_nat (decimal - JSString.len decimalPart + 1 - 1))
    else decimalPart in
  integerPart ++ JSString.substr decimalPart 0 decimal
  ++ "." ++ JSString.substr_from decimalPart decimal.


(** The result for a text and a unit: the pair or the concatenation. *)
Definition value_and_unit (r : options) (text unit : string) : value :=
  if truthy (isSplitValueAndUnit r) then VValueUnit (VString text) unit
  else VString (text ++ unit).

(** One replacement after the other, each on the result of the last. *)
Definition substitute_all (texts : list (string * string)) (pattern : string)
    : string :=
  fold_left (fun text kt => JSString.replace kt.1 kt.2 text) texts pattern.

(** [h'] holds every object of [h], unchanged, and maybe new ones. *)
Definition extends (h h' : heap) : Prop := exists k, h' = (h ++ k)%list.

(** Two outcomes agree for a caller whose store was [h]: the same value
    or error, and the objects of [h] in the same state. *)
Definition agree (h : heap) (a b : result value * heap) : Prop :=
  a.1 = b.1 /\ take (length h) a.2 = take (length h) b.2.

(** Does [smallNumberFormat] replace the [decimal] of the record [r]? *)
Definition writes_decimal (v : value) (r : options) : bool :=
  is_number v && match decimal r with Some d => d <? 0 | None => true end.

(** The objects of [h] after [smallNumberFormat v opt]. *)
Definition after_small (v : value) (opt : option loc) (h : heap) : heap :=
  match opt with
  | Some l =>
      if writes_decimal v (default empty_options (h !! l))
      then alter (set_decimal (Some 8)) l h else h
  | None => h
  end.

(** The objects of [h] after [numberFormat v formatOption]. *)
Definition after_numberFormat (v : value) (fo : format_option) (h : heap) : heap :=
  match fo, v with
  | FOObject small _, VNumber x =>
      if ltb (abs x) (of_Z 10) then after_small v small h else h
  | _, _ => h
  end.

(** The host whose local time is UTC. *)
Definition utc (t : Z) : Z := 0.

(** The [decimal] that [smallNumberFormat] hands on for the record [r]:
    8 stands in for one that is absent, NaN or negative (lines 70-72). *)
Definition small_decimal (r : options) : Z :=
  match decimal r with
  | Some d => if d <? 0 then 8 else d
  | None => 8
  end.

(** Lines 168-172: the point put [decimal] places from the end of
    the text of the rounded number, after zeros if the text is short. *)
Definition with_point (text : string) (decimal : Z) : string :=
  if decimal <? JSString.len text then
    JSString.slice text 0 (- decimal) ++ "." ++ JSString.slice_from text (- decimal)
  else "0." ++ JSString.zeros (Z.to_nat (decimal - JSString.len text)) ++ text.

(** The letters the tokens of [datetimeFormat] are made of. *)
Definition token_letter (c : ascii) : bool :=
  existsb (Ascii.eqb c) ["y"; "M"; "d"; "h"; "m"; "s"]%char.

(** A text in which no token can be found. *)
Fixpoint letter_free (s : string) : bool :=
  match s with
  | EmptyString => true
  | String c s' => negb (token_letter c) && letter_free s'
  end.

(** The numeral of an integer, with a ['0'] in front of a single digit. *)
Definition pad2 (n : Z) : string :=
  (if Z.abs n <? 10 then "0" else "") ++ numeral n.

End DataFormat.

(** ** [src/clone.js]: the deep clone

    A structure is a tree of values; an object or an array carries its
    address, so that two of them are the same object exactly when their
    addresses agree, and a function or a symbol is known by its identity
    only. An object is a plain object with its own enumerable data
    properties under string names, an array has its elements and no
    hole; of [Object.prototype] the model has what [clone] can reach,
    the method [hasOwnProperty] (line 11) and the accessor [__proto__]
    (line 16). The result of a call is an [option]: [None] is a call
    that throws, or one that leaves the model, by calling a function of
    the source or by reaching the prototype. The
    structures are acyclic, as [JSON.stringify] demands. The target is
    built from fresh addresses and nothing else refers to it while
    [processPropertyIsFunction] runs, so its assignments are modelled by
    rebuilding the target. *)

Module Clone.

Import JSNumber.

Definition loc := nat.

#[local] Set Warnings "-register-all".

Inductive value : Type :=
| VUndefined
| VNull
| VBoolean (b : bool)
| VNumber (x : number)
| VString (s : string)
| VFunction (f : nat)
| VObject (l : loc) (props : list (string * value))
| VArray (l : loc) (elems : list value)
| VSymbol (id : nat)
| VBigInt (n : Z).

(** The text [JSON.stringify] writes, as its syntax tree. *)
Inductive json : Type :=
| JNull
| JBoolean (b : bool)
| JNumber (x : number)
| JString (s : string)
| JObject (props : list (string * json))
| JArray (elems : list json).

Definition is_function (v : value) : bool :=
  match v with VFunction _ => true | _ => false end.

(** Does an object have a property of its own by that name? *)
Definition has_key (name : string) (props : list (string * value)) : bool :=
  existsb (fun kv => String.eqb (fst kv) name) props.

Fixpoint assoc_get (name : string) (props : list (string * value)) : value :=
  match props with
  | [] => VUndefined
  | (k, v) :: props' => if String.eqb k name then v else assoc_get name props'
  end.

(** The structures [JSON.stringify] goes through by itself. It throws
    a TypeError when it comes upon a BigInt; and it calls the function
    that an object has under [toJSON], a function of the caller's, which
    the model does not follow. *)
Fixpoint serializable (v : value) : bool :=
  match v with
  | VBigInt _ => false
  | VObject _ props =>
      negb (is_function (assoc_get "toJSON" props))
      && forallb (fun kv => serializable (snd kv)) props
  | VArray _ elems => forallb serializable elems
  | _ => true
  end.

(** The text of such a structure: [None] is [undefined], the result
    for a function, a symbol or [undefined]. Such a property of an
    object is left out, such an element of an array is written as
    [null]; a non-finite number is written as [null]. *)
Fixpoint serialize (v : value) : option json :=
  match v with
  | VUndefined | VFunction _ | VSymbol _ | VBigInt _ => None
  | VNull => Some JNull
  | VBoolean b => Some (JBoolean b)
  | VNumber x => Some (if is_finite x then JNumber x else JNull)
  | VString s => Some (JString s)
  | VObject _ props =>
      Some (JObject
        (fold_right
           (fun kv acc =>
              match serialize (snd kv) with
              | Some j => (fst kv, j) :: acc
              | None => acc
              end) [] props))
  | VArray _ elems =>
      Some (JArray (map (fun e => default JNull (serialize e)) elems))
  end.

(** [JSON.stringify(v)]. [None]: there is no text, since the result is
    [undefined]; or the call throws a TypeError (a BigInt); or it calls
    a [toJSON] of the source, which the model does not follow. *)
Definition stringify (v : value) : option json :=
  if serializable v then serialize v else None.

(** [JSON.parse]: every object and array gets the next free address; a
    number is read back from its digits. *)
Fixpoint parse (j : json) (next : loc) : value * loc :=
  match j with
  | JNull => (VNull, next)
  | JBoolean b => (VBoolean b, next)
  | JNumber x => (VNumber (of_string (to_string x)), next)
  | JString s => (VString s, next)
  | JObject props =>
      let '(props', next') :=
        fold_left
          (fun acc kj =>
             let '(v, n) := parse (snd kj) (snd acc) in
             (fst acc ++ [(fst kj, v)], n)%list)
          props ([], S next) in
      (VObject next props', next')
  | JArray elems =>
      let '(elems', next') :=
        fold_left
          (fun acc e =>
             let '(v, n) := parse e (snd acc) in ((fst acc ++ [v])%list, n))
          elems ([], S next) in
      (VArray next elems', next')
  end.

(** A property key: a name of an object's property or an array index. *)
Inductive key : Type :=
| KName (name : string)
| KIndex (i : nat).

Definition is_container (v : value) : bool :=
  match v with VObject _ _ | VArray _ _ => true | _ => false end.

Fixpoint assoc_set (name : string) (v : value) (props : list (string * value))
    : list (string * value) :=
  match props with
  | [] => [(name, v)]
  | (k, w) :: props' =>
      if String.eqb k name then (k, v) :: props'
      else (k, w) :: assoc_set name v props'
  end.

(** The name [__proto__] on an object that has no property of its own
    by that name: it reaches the accessor of [Object.prototype], which
    reads and sets the prototype of the object. *)
Definition reaches_prototype (name : string) (props : list (string * value))
    : bool :=
  String.eqb name "__proto__" && negb (has_key name props).

(** [target[k]]. [None]: a TypeError ([target] is [undefined] or
    [null]); or a key of the other kind than the target's, which needs a
    target that does not mirror the source; or the prototype, an object
    that is no part of the structure. *)
Definition get (target : value) (k : key) : option value :=
  match target, k with
  | VObject _ props, KName name =>
      if reaches_prototype name props then None
      else Some (assoc_get name props)
  | VArray _ elems, KIndex i => Some (default VUndefined (elems !! i))
  | (VUndefined | VNull | VObject _ _ | VArray _ _), _ => None
  | _, _ => Some VUndefined
  end.

(** [target[k] = v]: an array is extended by [undefined] up to an index
    past its end. [None]: a TypeError (strict code writing to a
    primitive); or a target outside the model, as for [get]; or the
    prototype of the target is set, and no property. *)
Definition set (target : value) (k : key) (v : value) : option value :=
  match target, k with
  | VObject l props, KName name =>
      if reaches_prototype name props then None
      else Some (VObject l (assoc_set name v props))
  | VArray l elems, KIndex i =>
      Some (VArray l
        (if (i <? length elems)%nat then <[i:=v]> elems
         else (elems ++ replicate (i - length elems) VUndefined ++ [v])%list))
  | _, _ => None
  end.

(** The object at [target[k]] after [f] has worked on it; a primitive
    there is passed by value, so [target] keeps it. *)
Definition at_key (target : value) (k : key) (f : value -> option value)
    : option value :=
  match get target k with
  | Some t =>
      match f t with
      | Some t' => if is_container t then set target k t' else Some target
      | None => None
      end
  | None => None
  end.

(** [items.forEach(callback)], the callback working on the state [st]. *)
Definition forEach {T : Type} (callback : value -> nat -> T -> option T)
    : list value -> nat -> T -> option T :=
  fix each (items : list value) (index : nat) (st : T) : option T :=
    match items with
    | [] => Some st
    | item :: items' =>
        match callback item index st with
        | Some st' => each items' (S index) st'
        | None => None
        end
    end.

(** [source.hasOwnProperty(key)] for a key of the [for-in] loop over
    an object with the properties [props] (line 11). The method is
    looked for on the source: a property of its own by that name hides
    the method of [Object.prototype], which says yes to every key of the
    loop. [None]: that property is called; a TypeError if it is no
    function, and otherwise a call of a function of the caller's, which
    the model does not follow. *)
Definition hasOwnProperty (props : list (string * value)) (name : string)
    : option bool :=
  if has_key "hasOwnProperty" props then None else Some true.

(** Lines 6-27. The loop body ([visit]) for the key [k] with
    [source[k] = v], and the loops over the properties of an object
    and over the indices of an array (which has no property by the name
    [hasOwnProperty]: line 11 says yes). [None]: a TypeError, or a step
    that the model does not follow (see [hasOwnProperty], [get] and
    [set]). *)
Fixpoint processPropertyIsFunction (source target : value) : option value :=
  let visit (k : key) (v : value) (target : value) : option value :=
    match v with
    | VFunction _ => set target k v
    | VArray _ items =>
        at_key target k
          (forEach
             (fun item index arr =>
                at_key arr (KIndex index) (processPropertyIsFunction item))
             items 0%nat)
    | VObject _ _ | VNull =>
        at_key target k (processPropertyIsFunction v)
    | _ => Some target
    end in
  match source with
  | VObject _ props =>
      (fix loop (rest : list (string * value)) (target : value) :=
         match rest with
         | [] => Some target
         | (name, v) :: rest' =>
             match hasOwnProperty props name with
             | Some true =>
                 match visit (KName name) v target with
                 | Some target' => loop rest' target'
                 | None => None
                 end
             | Some false => loop rest' target
             | None => None
             end
         end) props target
  | VArray _ elems =>
      (fix loop (elems : list value) (index : nat) (target : value) :=
         match elems with
         | [] => Some target
         | v :: elems' =>
             match visit (KIndex index) v target with
             | Some target' => loop elems' (S index) target'
             | None => None
             end
         end) elems 0%nat target
  | _ => Some target
  end.

(** Lines 34-40. [next] is the next free address. [None]: the call
    throws ([JSON.stringify] on a BigInt, [JSON.parse(undefined)], line
    11 on a [hasOwnProperty] that is no function), or takes a step that
    the model does not follow: a call of a function of the source
    ([toJSON], [hasOwnProperty]), or an assignment to the prototype
    (line 16 on [__proto__]). *)
Definition clone (source : value) (next : loc) : option value :=
  match stringify source with
  | Some content =>
      let '(target, _) := parse content next in
      processPropertyIsFunction source target
  | None => None
  end.

(** The addresses of the objects and arrays of a structure. *)
Fixpoint addresses (v : value) : list loc :=
  match v with
  | VObject l props => l :: flat_map (fun kv => addresses (snd kv)) props
  | VArray l elems => l :: flat_map addresses elems
  | _ => []
  end.

(** *** Notions the properties of [clone] are stated with *)

(** The loop body of lines 10-26 and the two [for-in] loops, by name. *)
Definition visit (k : key) (v target : value) : option value :=
  match v with
  | VFunction _ => set target k v
  | VArray _ items =>
      at_key target k
        (forEach
           (fun item index arr =>
              at_key arr (KIndex index) (processPropertyIsFunction item))
           items 0%nat)
  | VObject _ _ | VNull =>
      at_key target k (processPropertyIsFunction v)
  | _ => Some target
  end.

(** What the loop body does at [target[key]] for [source[key] = x]:
    [forEach] for an array (lines 19-21), the recursive call otherwise
    (line 23). *)
Definition descend (x t : value) : option value :=
  match x with
  | VArray _ items =>
      forEach
        (fun item index arr =>
           at_key arr (KIndex index) (processPropertyIsFunction item))
        items 0%nat t
  | _ => processPropertyIsFunction x t
  end.

Definition for_in_object (props : list (string * value))
    : list (string * value) -> value -> option value :=
  fix loop (rest : list (string * value)) (target : value) : option value :=
    match rest with
    | [] => Some target
    | (name, v) :: rest' =>
        match hasOwnProperty props name with
        | Some true =>
            match visit (KName name) v target with
            | Some target' => loop rest' target'
            | None => None
            end
        | Some false => loop rest' target
        | None => None
        end
    end.

Fixpoint for_in_array (elems : list value) (index : nat) (target : value)
    : option value :=
  match elems with
  | [] => Some target
  | v :: elems' =>
      match visit (KIndex index) v target with
      | Some target' => for_in_array elems' (S index) target'
      | None => None
      end
  end.

Fixpoint distinct (keys : list string) : bool :=
  match keys with
  | [] => true
  | k :: keys' => negb (existsb (String.eqb k) keys') && distinct keys'
  end.

(** No object has a property name twice, as in JavaScript. *)
Fixpoint unique_keys (v : value) : bool :=
  match v with
  | VObject _ props =>
      distinct (map fst props) && forallb (fun kv => unique_keys (snd kv)) props
  | VArray _ elems => forallb unique_keys elems
  | _ => true
  end.

(** The names that the code or [JSON.stringify] looks for on an object
    of the source. *)
Definition special (name : string) : bool :=
  existsb (String.eqb name) ["hasOwnProperty"; "toJSON"; "__proto__"].

(** No object of the structure has a property by one of these names. *)
Fixpoint ordinary (v : value) : bool :=
  match v with
  | VObject _ props =>
      forallb (fun kv => negb (special (fst kv)) && ordinary (snd kv)) props
  | VArray _ elems => forallb ordinary elems
  | _ => true
  end.

(** No BigInt anywhere in the structure. *)
Fixpoint bigint_free (v : value) : bool :=
  match v with
  | VBigInt _ => false
  | VObject _ props => forallb (fun kv => bigint_free (snd kv)) props
  | VArray _ elems => forallb bigint_free elems
  | _ => true
  end.

(** No function anywhere in the structure. *)
Fixpoint function_free (v : value) : bool :=
  match v with
  | VFunction _ => false
  | VObject _ props => forallb (fun kv => function_free (snd kv)) props
  | VArray _ elems => forallb function_free elems
  | _ => true
  end.

(** A target that has what the second pass looks for: under every key
    of the source that holds an object or an array, one of the same kind
    that mirrors it in turn; an array of the same length; and nothing
    with an address where the source has a function or [null]. *)
Fixpoint mirrors (v t : value) {struct v} : Prop :=
  match v with
  | VObject _ props =>
      match t with
      | VObject _ tprops =>
          (fix all (props : list (string * value)) : Prop :=
             match props with
             | [] => True
             | (k, x) :: props' => mirrors x (assoc_get k tprops) /\ all props'
             end) props
      | _ => False
      end
  | VArray _ elems =>
      match t with
      | VArray _ telems =>
          length telems = length elems
          /\ (fix all (elems : list value) (i : nat) : Prop :=
                match elems with
                | [] => True
                | x :: elems' =>
                    mirrors x (default VUndefined (telems !! i))
                    /\ all elems' (S i)
                end) elems 0%nat
      | _ => False
      end
  | VFunction _ | VNull | VUndefined => is_container t = false
  | _ => True
  end.

(** The structure with every address forgotten. *)
Fixpoint erase (v : value) : value :=
  match v with
  | VObject _ props =>
      VObject 0%nat (map (fun kv => (fst kv, erase (snd kv))) props)
  | VArray _ elems => VArray 0%nat (map erase elems)
  | _ => v
  end.

(** An integer below [2^53] in magnitude, other than [-0]. *)
Definition safe_integer (x : number) : bool :=
  match x with
  | Finite neg m e =>
      let n := to_integer neg m e in
      (Z.abs n <? 2 ^ 53)
      && match of_Z n with
         | Finite neg' m' e' => Bool.eqb neg neg' && (m =? m') && (e =? e')
         | _ => false
         end
  | _ => false
  end.

(** Data that JSON carries without loss: objects and arrays of
    strings, booleans, [null] and such integers. *)
Fixpoint json_safe (v : value) : bool :=
  match v with
  | VUndefined | VFunction _ | VSymbol _ | VBigInt _ => false
  | VNumber x => safe_integer x
  | VObject _ props => forallb (fun kv => json_safe (snd kv)) props
  | VArray _ elems => forallb json_safe elems
  | _ => true
  end.

(** The addresses in the values of a list of properties. *)
Definition props_addresses (props : list (string * value)) : list loc :=
  flat_map (fun kv => addresses (snd kv)) props.

(** [f x] on a target that mirrors [x] returns, for an [x] with
    ordinary names; what it returns has the objects and arrays of the
    target, and is the target itself if [x] holds no function. *)
Definition restores (f : value -> value -> option value) (x : value) : Prop :=
  forall t,
    unique_keys x = true -> ordinary x = true -> mirrors x t ->
    exists t',
      f x t = Some t' /\ addresses t' = addresses t
      /\ (function_free x = true -> t' = t).

(** What [f x] returns on a target that mirrors [x], if it returns, has
    the objects and arrays of the target. *)
Definition keeps (f : value -> value -> option value) (x : value) : Prop :=
  forall t t',
    unique_keys x = true -> mirrors x t -> f x t = Some t' ->
    addresses t' = addresses t.

(** The two loops of [parse], by name. *)
Fixpoint parse_props (props : list (string * json)) (next : loc)
    : list (string * value) * loc :=
  match props with
  | [] => ([], next)
  | (k, j) :: props' =>
      let '(v, n) := parse j next in
      let '(vs, n') := parse_props props' n in
      ((k, v) :: vs, n')
  end.

Fixpoint parse_elems (elems : list json) (next : loc) : list value * loc :=
  match elems with
  | [] => ([], next)
  | j :: elems' =>
      let '(v, n) := parse j next in
      let '(vs, n') := parse_elems elems' n in
      (v :: vs, n')
  end.

(** The properties [JSON.stringify] writes for an object. *)
Definition stringify_props (props : list (string * value))
    : list (string * json) :=
  fold_right
    (fun kv acc =>
       match serialize (snd kv) with
       | Some j => (fst kv, j) :: acc
       | None => acc
       end) [] props.

(** The function found by reading the properties [path] one after the
    other, each from an object. *)
Fixpoint function_at (path : list string) (v : value) : option nat :=
  match path with
  | [] => match v with VFunction f => Some f | _ => None end
  | k :: path' =>
      match v with
      | VObject _ props => function_at path' (assoc_get k props)
      | _ => None
      end
  end.

(** What a key of the target holds after its turn in the [for-in] loop,
    [x] being what the source has there. *)
Definition passed (x before after : value) : Prop :=
  match x with
  | VFunction _ => after = x
  | VObject _ _ | VArray _ _ => descend x before = Some after
  | _ => after = before
  end.

(** [v[k1][k2]...]: the keys of [path] read one after the other. *)
Fixpoint read (path : list key) (v : value) : option value :=
  match path with
  | [] => Some v
  | k :: path' =>
      match get v k with
      | Some x => read path' x
      | None => None
      end
  end.

(** Whether the second pass gets to the function at the end of [path]
    with the assignment of line 16. [each]: [v] is an array that
    [forEach] walks (lines 19-21), so that its elements are the sources
    of the calls of line 20; otherwise [v] is the source of a call, and
    the [for-in] loop of line 10 walks it. *)
Fixpoint assigned (each : bool) (path : list key) (v : value) : bool :=
  match path with
  | [] => false
  | k :: path' =>
      match get v k with
      | Some (VFunction _) => negb each
      | Some (VArray _ _ as x) => assigned (negb each) path' x
      | Some (VObject _ _ as x) => assigned false path' x
      | _ => false
      end
  end.

End Clone.

(** ** Properties of the strings *)

Module JSStringFacts.

Import JSString.

Lemma app_assoc (a b c : string) : (a ++ b) ++ c = a ++ b ++ c.
Proof. induction a as [|x a IH]; simpl; [done|]. by rewrite IH. Qed.

Lemma app_nil_r (a : string) : a ++ "" = a.
Proof. induction a as [|x a IH]; simpl; [done|]. by rewrite IH. Qed.

Lemma length_app (a b : string) :
  String.length (a ++ b) = (String.length a + String.length b)%nat.
Proof. induction a as [|x a IH]; simpl; [done|]. by rewrite IH. Qed.

Lemma len_app (a b : string) : len (a ++ b) = len a + len b.
Proof. unfold len. rewrite length_app. lia. Qed.

Lemma len_nonneg (a : string) : 0 <= len a.
Proof. unfold len. lia. Qed.

Lemma length_zeros n : String.length (zeros n) = n.
Proof. induction n; simpl; [done|]. by rewrite IHn. Qed.

Lemma take_all (a : string) n : (String.length a <= n)%nat -> take n a = a.
Proof.
  revert n. induction a as [|x a IH]; intros [|n] H; simpl in *; try done; [lia|].
  rewrite IH; [done|lia].
Qed.

Lemma drop_all (a : string) n : (String.length a <= n)%nat -> drop n a = "".
Proof.
  revert n. induction a as [|x a IH]; intros [|n] H; simpl in *; try done; [lia|].
  apply IH. lia.
Qed.



Lemma take_drop (a : string) n : take n a ++ drop n a = a.
Proof.
  revert n. induction a as [|x a IH]; intros [|n]; simpl; try done.
  by rewrite IH.
Qed.

(** From the start, [substr] and [slice] are [take]; to the end, [drop]. *)
Lemma substr_0 (s : string) d : 0 <= d -> substr s 0 d = take (Z.to_nat d) s.
Proof.
  intros Hd. unfold substr, rel_index. pose proof (len_nonneg s).
  replace (0 <? 0) with false by done.
  replace (Z.min 0 (len s)) with 0 by lia. simpl drop.
  destruct (Z.le_gt_cases d (len s)).
  - by replace (Z.min (Z.max d 0) (len s - 0)) with d by lia.
  - replace (Z.min (Z.max d 0) (len s - 0)) with (len s) by lia.
    unfold len in *. rewrite !take_all; [done|lia|lia].
Qed.

Lemma substr_from_nonneg (s : string) d :
  0 <= d -> substr_from s d = drop (Z.to_nat d) s.
Proof.
  intros Hd. unfold substr_from, rel_index. pose proof (len_nonneg s).
  replace (d <? 0) with false by (symmetry; apply Z.ltb_ge; lia).
  destruct (Z.le_gt_cases d (len s)).
  - by replace (Z.min d (len s)) with d by lia.
  - replace (Z.min d (len s)) with (len s) by lia.
    unfold len in *. rewrite !drop_all; [done|lia|lia].
Qed.

(** [split('.')] on texts without a point. *)
Lemma no_dot_app (a b : string) : no_dot (a ++ b) = no_dot a && no_dot b.
Proof. induction a as [|x a IH]; simpl; [done|]. by rewrite IH, andb_assoc. Qed.

Lemma split_dot_no_dot (s : string) : no_dot s = true -> split_dot s = [s].
Proof.
  induction s as [|c s IH]; simpl; [done|].
  intros [Hc Hs]%andb_true_iff. apply negb_true_iff in Hc. rewrite Hc.
  by rewrite IH.
Qed.

Lemma split_dot_app (a b : string) :
  no_dot a = true -> split_dot (a ++ String "." b) = a :: split_dot b.
Proof.
  induction a as [|c a IH]; simpl; [done|].
  intros [Hc Ha]%andb_true_iff. apply negb_true_iff in Hc. rewrite Hc.
  by rewrite IH.
Qed.

(** The first two pieces of [split('.')] are parts of the text. *)
Lemma split_dot_lengths (s : string) :
  len (nth 0 (split_dot s) "") <= len s
  /\ len (nth 0 (split_dot s) "") + len (nth 1 (split_dot s) "") <= len s.
Proof.
  unfold len. induction s as [|c s [IH1 IH2]]; [by vm_compute|].
  cbn [split_dot]. destruct (Ascii.eqb c ".").
  - cbn [nth String.length]. lia.
  - destruct (split_dot s) as [|piece pieces]; cbn [nth String.length] in *; lia.
Qed.

(** [substr(0, d)] and [substr(d)] share the text between them. *)
Lemma len_substr_parts (s : string) d :
  0 <= d -> len (substr s 0 d) + len (substr_from s d) = len s.
Proof.
  intros Hd. rewrite substr_0, substr_from_nonneg by done.
  rewrite <- len_app. by rewrite take_drop.
Qed.

Lemma len_zeros n : len (zeros n) = Z.of_nat n.
Proof. unfold len. by rewrite length_zeros. Qed.

End JSStringFacts.

(** ** Properties of the numbers *)

Module JSNumberFacts.

Import JSNumber.

(** An integer below [2^53] converts exactly. *)
Lemma round_ratio_integer neg p :
  0 < p < 2 ^ 53 ->
  round_ratio neg p 1
  = Finite neg (p * 2 ^ (52 - Z.log2 p)) (Z.log2 p - 52).
Proof.
  intros Hp. unfold round_ratio. cbv zeta.
  destruct (Z.leb_spec p 0) as [?|_]; [lia|].
  pose proof (Z.log2_spec p ltac:(lia)) as [Hlo Hhi].
  pose proof (Z.log2_nonneg p) as Hl0.
  assert (Z.log2 p < 53) as Hl53 by (apply Z.log2_lt_pow2; lia).
  change (Z.log2 1) with 0. rewrite Z.sub_0_r.
  set (l := Z.log2 p) in *.
  replace (Z.max 0 (- l)) with 0 by lia.
  replace (Z.max 0 l) with l by lia.
  replace (p * 2 ^ 0 <? 1 * 2 ^ l) with false by (symmetry; apply Z.ltb_ge; lia).
  replace (Z.max (-1074) (l - 52)) with (l - 52) by lia.
  replace (Z.max 0 (- (l - 52))) with (52 - l) by lia.
  replace (Z.max 0 (l - 52)) with 0 by lia.
  rewrite Z.pow_0_r, Z.mul_1_l, Z.div_1_r, Z.mod_1_r.
  change (1 <? 2 * 0) with false. change (1 =? 2 * 0) with false.
  cbn [orb andb].
  assert (2 ^ 52 <= p * 2 ^ (52 - l) < 2 ^ 53) as Hm.
  { replace (2 ^ 52) with (2 ^ l * 2 ^ (52 - l))
      by (rewrite <- Z.pow_add_r by lia; f_equal; lia).
    replace (2 ^ 53) with (2 ^ Z.succ l * 2 ^ (52 - l))
      by (rewrite <- Z.pow_add_r by lia; f_equal; lia).
    assert (0 < 2 ^ (52 - l)) by (apply Z.pow_pos_nonneg; lia).
    nia. }
  replace (p * 2 ^ (52 - l) =? 2 ^ 53) with false by (symmetry; apply Z.eqb_neq; lia).
  replace (971 <? l - 52) with false by (symmetry; apply Z.ltb_ge; lia).
  reflexivity.
Qed.


(** *** Digits *)

Lemma code_digit_char d : 0 <= d < 10 -> code (digit_char d) = 48 + d.
Proof.
  intros Hd. unfold code, digit_char.
  rewrite N_ascii_embedding by lia. lia.
Qed.

Lemma is_digit_digit_char d : 0 <= d < 10 -> is_digit (digit_char d) = true.
Proof.
  intros Hd. unfold is_digit. rewrite code_digit_char by done.
  apply andb_true_iff. split; apply Z.leb_le; lia.
Qed.

Lemma all_digits_app s t :
  all_digits (s ++ t) = all_digits s && all_digits t.
Proof. induction s as [|c s IH]; simpl; [done|]. by rewrite IH, andb_assoc. Qed.

Lemma all_digits_zeros n : all_digits (JSString.zeros n) = true.
Proof. induction n; simpl; done. Qed.

Lemma all_digits_digits_from fuel z acc :
  0 <= z -> all_digits acc = true -> all_digits (digits_from fuel z acc) = true.
Proof.
  revert z acc. induction fuel as [|fuel IH]; intros z acc Hz Hacc; simpl; [done|].
  assert (all_digits (String (digit_char (z mod 10)) acc) = true) as Hacc'.
  { simpl. rewrite is_digit_digit_char, Hacc; [done|].
    apply Z.mod_pos_bound. lia. }
  destruct (z <? 10); [done|]. apply IH; [|done]. apply Z.div_pos; lia.
Qed.

Lemma all_digits_digits_of z : 0 <= z -> all_digits (digits_of z) = true.
Proof. intros Hz. by apply all_digits_digits_from. Qed.

(** At most [k] digits below [10^k]. *)
Lemma length_digits_from_le fuel z acc k :
  (1 <= k)%nat -> 0 <= z < 10 ^ Z.of_nat k ->
  (String.length (digits_from fuel z acc) <= k + String.length acc)%nat.
Proof.
  revert z acc k. induction fuel as [|fuel IH]; intros z acc k Hk Hz; simpl; [lia|].
  destruct (Z.ltb_spec z 10) as [Hlt|Hge]; [simpl; lia|].
  destruct k as [|[|k]]; [lia|simpl in Hz; lia|].
  etrans; [apply (IH _ _ (S k)); [lia|]|simpl; lia].
  split; [apply Z.div_pos; lia|].
  apply Z.div_lt_upper_bound; [lia|].
  replace (Z.of_nat (S (S k))) with (Z.succ (Z.of_nat (S k))) in Hz by lia.
  rewrite Z.pow_succ_r in Hz by lia. lia.
Qed.

(** With enough fuel, [z] is below ten to the number of its digits. *)
Lemma digits_from_bound fuel z acc :
  0 <= z < 10 ^ Z.of_nat fuel ->
  z < 10 ^ Z.of_nat (String.length (digits_from fuel z acc) - String.length acc).
Proof.
  revert z acc. induction fuel as [|fuel IH]; intros z acc Hz; simpl.
  - rewrite Nat.sub_diag. simpl in *. lia.
  - destruct (Z.ltb_spec z 10) as [Hlt|Hge].
    + simpl. replace (S (String.length acc) - String.length acc)%nat with 1%nat by lia.
      simpl. lia.
    + assert (0 <= z / 10 < 10 ^ Z.of_nat fuel) as Hz'.
      { split; [apply Z.div_pos; lia|]. apply Z.div_lt_upper_bound; [lia|].
        replace (Z.of_nat (S fuel)) with (Z.succ (Z.of_nat fuel)) in Hz by lia.
        rewrite Z.pow_succ_r in Hz by lia. lia. }
      specialize (IH (z / 10) (String (digit_char (z mod 10)) acc) Hz').
      simpl in IH.
      pose proof (length_digits_from_le fuel (z / 10)
                    (String (digit_char (z mod 10)) acc) fuel) as Hle.
      set (n := String.length (digits_from fuel (z / 10)
                    (String (digit_char (z mod 10)) acc))) in *.
      assert (S (String.length acc) <= n)%nat as Hn.
      { destruct (Nat.le_gt_cases (S (String.length acc)) n) as [?|Hgt]; [done|].
        replace (n - S (String.length acc))%nat with 0%nat in IH by lia.
        simpl in IH. assert (z / 10 = 0) by lia.
        pose proof (Z.div_le_lower_bound z 10 1). lia. }
      replace (n - String.length acc)%nat
        with (S (n - S (String.length acc)))%nat by lia.
      rewrite Nat2Z.inj_succ, Z.pow_succ_r by lia.
      pose proof (Z.mod_pos_bound z 10 ltac:(lia)).
      pose proof (Z.div_mod z 10 ltac:(lia)). lia.
Qed.

Lemma digits_of_bound z : 0 <= z -> z < 10 ^ ndigits z.
Proof.
  intros Hz. unfold ndigits, JSString.len, digits_of.
  pose proof (digits_from_bound (S (Z.to_nat (Z.log2 z))) z EmptyString) as H.
  simpl String.length in H. rewrite Nat.sub_0_r in H. apply H.
  split; [done|].
  destruct (Z.eq_dec z 0) as [->|Hz0]; [simpl; lia|].
  pose proof (Z.log2_spec z ltac:(lia)) as [_ Hhi].
  pose proof (Z.log2_nonneg z).
  rewrite Nat2Z.inj_succ, Z2Nat.id by lia.
  eapply Z.lt_le_trans; [exact Hhi|].
  apply Z.pow_le_mono_l. lia.
Qed.

Lemma ndigits_le z k : 1 <= k -> 0 <= z < 10 ^ k -> ndigits z <= k.
Proof.
  intros Hk Hz. unfold ndigits, JSString.len, digits_of.
  pose proof (length_digits_from_le (S (Z.to_nat (Z.log2 z))) z EmptyString
                (Z.to_nat k) ltac:(lia)) as H.
  rewrite Z2Nat.id in H by lia. specialize (H Hz).
  change (String.length EmptyString) with 0%nat in H. lia.
Qed.

Lemma length_digits_from_ge fuel z acc :
  (String.length acc <= String.length (digits_from fuel z acc))%nat.
Proof.
  revert z acc. induction fuel as [|fuel IH]; intros z acc; simpl; [lia|].
  destruct (z <? 10); simpl; [lia|]. etrans; [|apply IH]. simpl. lia.
Qed.

Lemma ndigits_pos z : 1 <= ndigits z.
Proof.
  unfold ndigits, JSString.len, digits_of.
  cbn [digits_from]. destruct (z <? 10); [simpl; lia|].
  pose proof (length_digits_from_ge (Z.to_nat (Z.log2 z)) (z / 10)
                (String (digit_char (z mod 10)) EmptyString)) as H.
  simpl in H. lia.
Qed.


Lemma integer_text_digits t :
  all_digits t = true -> t <> EmptyString ->
  integer_text t = true /\ integer_text ("-" ++ t) = true.
Proof.
  destruct t as [|c t]; [done|]. intros H _. split; [|exact H].
  unfold integer_text.
  destruct c as [[] [] [] [] [] [] [] []]; try exact H; discriminate H.
Qed.

(** *** The shortest digits of an integer *)

Lemma shortest_from_found fuel num den m e n0 k k0 s0 :
  k <= k0 < k + Z.of_nat fuel ->
  digits_at num den m e n0 k0 = Some s0 ->
  exists s k',
    shortest_from fuel num den m e n0 k = (s, k')
    /\ k <= k' <= k0 /\ digits_at num den m e n0 k' = Some s.
Proof.
  revert k. induction fuel as [|fuel IH]; intros k Hk H0; [lia|]. simpl.
  destruct (digits_at num den m e n0 k) as [s|] eqn:E.
  - exists s, k. repeat split; [lia|lia|done].
  - destruct (Z.eq_dec k k0) as [->|Hne]; [congruence|].
    destruct (IH (k + 1)) as (s & k' & H1 & H2 & H3); [lia|done|].
    exists s, k'. repeat split; [done|lia|lia|done].
Qed.

Lemma digits_at_range num den m e n0 k s :
  digits_at num den m e n0 k = Some s ->
  let lo := num * 10 ^ Z.max 0 (- (n0 - k)) / (den * 10 ^ Z.max 0 (n0 - k)) in
  s = lo \/ s = lo + 1.
Proof.
  unfold digits_at. cbv zeta.
  repeat match goal with
         | |- context [if ?b then _ else _] => destruct b
         end; intros [= <-]; auto.
Qed.

Lemma digits_at_converts num den m e n0 k s :
  digits_at num den m e n0 k = Some s -> converts_to m e s (n0 - k) = true.
Proof.
  unfold digits_at. cbv zeta.
  destruct (converts_to m e _ (n0 - k)) eqn:E1;
    destruct (converts_to m e (_ + 1) (n0 - k)) eqn:E2; try done.
  - repeat match goal with
           | |- context [if ?b then _ else _] => destruct b
           end; by intros [= <-].
  - by intros [= <-].
  - by intros [= <-].
Qed.

(** What the search for the shortest digits returns: digits that
    convert, or the first eighteen digits when none were found. *)
Lemma shortest_from_cases fuel num den m e n0 k :
  exists s k',
    shortest_from fuel num den m e n0 k = (s, k')
    /\ k <= k' <= k + Z.of_nat fuel
    /\ (digits_at num den m e n0 k' = Some s
        \/ s = num * 10 ^ Z.max 0 (k' - n0) / (den * 10 ^ Z.max 0 (n0 - k'))).
Proof.
  revert k. induction fuel as [|fuel IH]; intros k.
  - eexists _, k. split; [reflexivity|]. split; [lia|]. by right.
  - cbn [shortest_from]. destruct (digits_at num den m e n0 k) as [s|] eqn:E.
    + exists s, k. split; [done|]. split; [lia|]. by left.
    + destruct (IH (k + 1)) as (s & k' & H1 & H2 & H3).
      exists s, k'. split; [done|]. split; [lia|done].
Qed.

(** A significand with an exponent from 0 on is an integer, and
    converts exactly. *)
Lemma round_ratio_power neg m e :
  2 ^ 52 <= m < 2 ^ 53 -> 0 <= e <= 971 ->
  round_ratio neg (m * 2 ^ e) 1 = Finite neg m e.
Proof.
  intros Hm He. unfold round_ratio. cbv zeta.
  assert (0 < 2 ^ e) as Hpe by (apply Z.pow_pos_nonneg; lia).
  replace (m * 2 ^ e <=? 0) with false by (symmetry; apply Z.leb_gt; nia).
  assert (Z.log2 (m * 2 ^ e) = 52 + e) as ->.
  { rewrite Z.log2_mul_pow2 by lia.
    assert (Z.log2 m = 52) as ->.
    { apply Z.log2_unique; [lia|]. split; [apply Hm|exact (proj2 Hm)]. }
    lia. }
  change (Z.log2 1) with 0. rewrite Z.sub_0_r.
  replace (Z.max 0 (- (52 + e))) with 0 by lia.
  replace (Z.max 0 (52 + e)) with (52 + e) by lia.
  rewrite Z.pow_0_r, Z.mul_1_r, !Z.mul_1_l.
  replace (m * 2 ^ e <? 2 ^ (52 + e)) with false.
  2: { symmetry. apply Z.ltb_ge. rewrite Z.pow_add_r by lia. nia. }
  replace (Z.max (-1074) (52 + e - 52)) with e by lia.
  replace (Z.max 0 (- e)) with 0 by lia.
  replace (Z.max 0 e) with e by lia.
  rewrite Z.pow_0_r, Z.mul_1_r.
  rewrite Z.div_mul, Z.mod_mul by lia.
  replace (2 ^ e <? 2 * 0) with false by (symmetry; apply Z.ltb_ge; lia).
  replace (2 ^ e =? 2 * 0) with false by (symmetry; apply Z.eqb_neq; lia).
  cbn [orb andb].
  replace (m =? 2 ^ 53) with false by (symmetry; apply Z.eqb_neq; lia).
  by replace (971 <? e) with false by (symmetry; apply Z.ltb_ge; lia).
Qed.

(** The text of an integer below [10^21] in magnitude that is a number
    with an exponent from 0 on is made of digits: the digits found and
    zeros after them. *)
Lemma to_string_large_integer neg m e :
  2 ^ 52 <= m < 2 ^ 53 -> 0 <= e <= 971 -> m * 2 ^ e < 10 ^ 21 ->
  integer_text (to_string (Finite neg m e)) = true.
Proof.
  intros Hm He Hbig.
  assert (0 < 2 ^ e) as Hpe by (apply Z.pow_pos_nonneg; lia).
  unfold to_string. replace (m =? 0) with false by (symmetry; apply Z.eqb_neq; lia).
  unfold shortest.
  replace (Z.max 0 e) with e by lia. replace (Z.max 0 (- e)) with 0 by lia.
  rewrite Z.pow_0_r.
  set (num := m * 2 ^ e) in *.
  assert (2 ^ 52 <= num) as Hnum by (unfold num; nia).
  assert (decimal_exponent num 1 = ndigits num) as ->.
  { unfold decimal_exponent.
    replace (1 <=? num) with true by (symmetry; apply Z.leb_le; lia).
    by rewrite Z.div_1_r. }
  set (n0 := ndigits num).
  assert (n0 <= 21) as Hn021 by (apply ndigits_le; lia).
  pose proof (digits_of_bound num ltac:(lia)) as Hbound. fold n0 in Hbound.
  pose proof (ndigits_pos num) as Hn0pos. fold n0 in Hn0pos.
  assert (16 <= n0) as Hn016.
  { destruct (Z.le_gt_cases 16 n0) as [|Hlt]; [done|]. exfalso.
    assert (10 ^ n0 <= 10 ^ 15) by (apply Z.pow_le_mono_r; lia).
    assert (10 ^ 15 < 2 ^ 52) by done. lia. }
  (* the digits found are at most as many as the integer has *)
  assert (exists s k,
            shortest_from 17 num 1 m e n0 1 = (s, k) /\ 1 <= k <= n0
            /\ (s = num / 10 ^ (n0 - k)
                \/ (s = num / 10 ^ (n0 - k) + 1
                    /\ converts_to m e s (n0 - k) = true)))
    as (s & k & -> & Hk & Hs).
  { assert (forall s k, 1 <= k <= n0 ->
              digits_at num 1 m e n0 k = Some s ->
              s = num / 10 ^ (n0 - k)
              \/ (s = num / 10 ^ (n0 - k) + 1
                  /\ converts_to m e s (n0 - k) = true)) as Hat.
    { intros s k Hk Hs. pose proof (digits_at_converts _ _ _ _ _ _ _ Hs) as Hc.
      apply digits_at_range in Hs. cbv zeta in Hs.
      replace (Z.max 0 (- (n0 - k))) with 0 in Hs by lia.
      replace (Z.max 0 (n0 - k)) with (n0 - k) in Hs by lia.
      rewrite Z.pow_0_r, Z.mul_1_r, Z.mul_1_l in Hs.
      destruct Hs as [->| ->]; [by left|by right]. }
    destruct (Z.le_gt_cases n0 17) as [Hsmall|Hlarge].
    - assert (exists s0, digits_at num 1 m e n0 n0 = Some s0) as [s0 Hs0].
      { unfold digits_at. cbv zeta. rewrite Z.sub_diag. simpl Z.max.
        rewrite Z.pow_0_r, !Z.mul_1_r, Z.div_1_r.
        assert (converts_to m e num 0 = true) as ->.
        { unfold converts_to. simpl Z.max. rewrite Z.pow_0_r, Z.mul_1_r.
          unfold num. rewrite round_ratio_power by done.
          by rewrite !Z.eqb_refl. }
        destruct (converts_to m e (num + 1) 0); eauto. }
      destruct (shortest_from_found 17 num 1 m e n0 1 n0 s0 ltac:(lia) Hs0)
        as (s & k & Heq & Hk & Hs).
      exists s, k. split; [done|]. split; [lia|]. apply Hat; [lia|done].
    - destruct (shortest_from_cases 17 num 1 m e n0 1)
        as (s & k & Heq & Hk & Hs).
      exists s, k. split; [done|]. split; [lia|].
      destruct Hs as [Hs| ->]; [apply Hat; [lia|done]|]. left.
      replace (Z.max 0 (k - n0)) with 0 by lia.
      replace (Z.max 0 (n0 - k)) with (n0 - k) by lia.
      by rewrite Z.pow_0_r, Z.mul_1_r, Z.mul_1_l. }
  assert (0 < 10 ^ (n0 - k)) as Hpk by (apply Z.pow_pos_nonneg; lia).
  assert (0 <= num / 10 ^ (n0 - k) < 10 ^ k) as Hlo.
  { split; [apply Z.div_pos; lia|].
    apply Z.div_lt_upper_bound; [done|].
    rewrite <- Z.pow_add_r by lia. by replace (n0 - k + k) with n0 by lia. }
  assert (forall t : string, all_digits t = true -> t <> EmptyString ->
            integer_text ((if neg then "-" else "") ++ t) = true) as Hsign.
  { intros t Ht Hne. destruct (integer_text_digits t Ht Hne). by destruct neg. }
  destruct (Z.eqb_spec s (10 ^ k)) as [Hten|Hten].
  - (* the digits round up to a power of ten: below [10^21], which is
       itself a number *)
    assert (n0 <= 20) as Hn020.
    { destruct (Z.le_gt_cases n0 20) as [|Hlt]; [done|]. exfalso.
      assert (n0 = 21) as Hn0 by lia.
      destruct Hs as [Hs|[_ Hc]]; [lia|].
      unfold converts_to in Hc.
      replace (Z.max 0 (n0 - k)) with (n0 - k) in Hc by lia.
      replace (Z.max 0 (- (n0 - k))) with 0 in Hc by lia.
      rewrite Hten, <- Z.pow_add_r, Hn0 in Hc by lia.
      replace (k + (21 - k)) with 21 in Hc by lia.
      remember (round_ratio false (10 ^ 21) (10 ^ 0)) as r eqn:Hr.
      vm_compute in Hr. subst r.
      apply andb_true_iff in Hc as [Hc1 Hc2].
      apply Z.eqb_eq in Hc1, Hc2. subst m e.
      revert Hbig. unfold num. by vm_compute. }
    unfold render. change (digits_of 1) with "1". change (JSString.len "1") with 1.
    replace ((1 <=? n0 + 1) && (n0 + 1 <=? 21)) with true
      by (symmetry; apply andb_true_iff; split; apply Z.leb_le; lia).
    apply Hsign; [|done]. simpl. apply all_digits_zeros.
  - assert (0 <= s < 10 ^ k) as Hs' by (destruct Hs as [->|[-> _]]; lia).
    pose proof (ndigits_le s k ltac:(lia) Hs') as Hlen.
    pose proof (ndigits_pos s) as Hpos. unfold ndigits in Hlen, Hpos.
    unfold render.
    replace ((JSString.len (digits_of s) <=? n0) && (n0 <=? 21)) with true
      by (symmetry; apply andb_true_iff; split; apply Z.leb_le; lia).
    apply Hsign.
    + rewrite all_digits_app, all_digits_zeros, andb_true_r.
      apply all_digits_digits_of. lia.
    + destruct (digits_of s);
        [simpl in Hpos; unfold JSString.len in Hpos; simpl in Hpos; lia|done].
Qed.

(** The text of a positive integer below [2^53], with either sign, is
    made of digits: it has no point and no exponent. *)
Lemma to_string_integer neg n :
  0 < n < 2 ^ 53 -> integer_text (to_string (round_ratio neg n 1)) = true.
Proof.
  intros Hn. rewrite round_ratio_integer by done.
  pose proof (Z.log2_spec n ltac:(lia)) as [Hlo Hhi].
  pose proof (Z.log2_nonneg n) as Hl0.
  assert (Z.log2 n < 53) as Hl53 by (apply Z.log2_lt_pow2; lia).
  set (l := Z.log2 n) in *.
  set (m := n * 2 ^ (52 - l)). set (e := l - 52).
  assert (0 < 2 ^ (52 - l)) as Hden by (apply Z.pow_pos_nonneg; lia).
  assert (0 < m) as Hm by (unfold m; nia).
  unfold to_string. replace (m =? 0) with false by (symmetry; apply Z.eqb_neq; lia).
  unfold shortest.
  replace (Z.max 0 e) with 0 by (unfold e; lia).
  replace (Z.max 0 (- e)) with (52 - l) by (unfold e; lia).
  rewrite Z.pow_0_r, Z.mul_1_r.
  set (den := 2 ^ (52 - l)) in *.
  assert (m / den = n) as Hq by (unfold m; apply Z.div_mul; lia).
  assert (decimal_exponent m den = ndigits n) as Hn0.
  { unfold decimal_exponent.
    replace (den <=? m) with true by (symmetry; apply Z.leb_le; unfold m; nia).
    by rewrite Hq. }
  rewrite Hn0. set (n0 := ndigits n).
  pose proof (ndigits_pos n) as Hn0pos.
  assert (n0 <= 16) as Hn016.
  { apply ndigits_le; [lia|]. split; [lia|].
    eapply Z.lt_le_trans; [apply Hn|]. by vm_compute. }
  pose proof (digits_of_bound n ltac:(lia)) as Hbound. fold n0 in Hbound.
  (* the integer itself converts, with all its digits *)
  assert (exists s0, digits_at m den m e n0 n0 = Some s0) as [s0 Hs0].
  { unfold digits_at. cbv zeta. rewrite Z.sub_diag. simpl Z.max.
    rewrite Z.pow_0_r, !Z.mul_1_r, Hq.
    assert (converts_to m e n 0 = true) as ->.
    { unfold converts_to. simpl Z.max. rewrite Z.pow_0_r, Z.mul_1_r.
      rewrite round_ratio_integer by done. fold l. fold m. fold e.
      by rewrite !Z.eqb_refl. }
    destruct (converts_to m e (n + 1) 0); eauto. }
  destruct (shortest_from_found 17 m den m e n0 1 n0 s0 ltac:(lia) Hs0)
    as (s & k & -> & Hk & Hs).
  apply digits_at_range in Hs. cbv zeta in Hs.
  replace (Z.max 0 (- (n0 - k))) with 0 in Hs by lia.
  replace (Z.max 0 (n0 - k)) with (n0 - k) in Hs by lia.
  rewrite Z.pow_0_r, Z.mul_1_r, <- Z.div_div, Hq in Hs
    by (try apply Z.pow_pos_nonneg; lia).
  assert (0 <= n / 10 ^ (n0 - k) < 10 ^ k) as Hlo'.
  { split; [apply Z.div_pos; [lia|apply Z.pow_pos_nonneg; lia]|].
    apply Z.div_lt_upper_bound; [apply Z.pow_pos_nonneg; lia|].
    rewrite <- Z.pow_add_r by lia. by replace (n0 - k + k) with n0 by lia. }
  assert (forall t : string, all_digits t = true -> t <> EmptyString ->
            integer_text ((if neg then "-" else "") ++ t) = true) as Hsign.
  { intros t Ht Hne. destruct (integer_text_digits t Ht Hne). by destruct neg. }
  destruct (Z.eqb_spec s (10 ^ k)) as [Hten|Hten].
  - (* a power of ten *)
    unfold render. change (digits_of 1) with "1". change (JSString.len "1") with 1.
    replace ((1 <=? n0 + 1) && (n0 + 1 <=? 21)) with true
      by (symmetry; apply andb_true_iff; split; apply Z.leb_le; lia).
    apply Hsign; [|done]. simpl. apply all_digits_zeros.
  - assert (0 <= s < 10 ^ k) as Hs' by lia.
    pose proof (ndigits_le s k ltac:(lia) Hs') as Hlen.
    pose proof (ndigits_pos s) as Hpos. unfold ndigits in Hlen, Hpos.
    unfold render.
    replace ((JSString.len (digits_of s) <=? n0) && (n0 <=? 21)) with true
      by (symmetry; apply andb_true_iff; split; apply Z.leb_le; lia).
    apply Hsign.
    + rewrite all_digits_app, all_digits_zeros, andb_true_r.
      apply all_digits_digits_of. lia.
    + destruct (digits_of s); [simpl in Hpos; unfold JSString.len in Hpos; simpl in Hpos; lia|done].
Qed.


(** *** [Math.round] *)

Lemma to_string_of_Z_integer n :
  Z.abs n < 2 ^ 53 -> integer_text (to_string (of_Z n)) = true.
Proof.
  intros Hn. destruct (Z.eq_dec n 0) as [->|Hn0]; [reflexivity|].
  unfold of_Z. apply to_string_integer. lia.
Qed.

(** [Math.round] of a finite number is the nearest integer, ties going
    up, and its text is the text of that integer: digits only, below
    [10^21]. *)
Lemma round_nearest x :
  canonical x = true -> is_finite x = true ->
  exists n,
    nearest_ties_up x n
    /\ to_string (round x) = to_string (of_Z n)
    /\ (Z.abs n < 10 ^ 21 -> integer_text (to_string (of_Z n)) = true).
Proof.
  destruct x as [| |neg m e]; try done. intros Hc _.
  unfold canonical in Hc.
  apply andb_true_iff in Hc as [Hc Hnorm]. apply andb_true_iff in Hc as [Hc He2].
  apply andb_true_iff in Hc as [Hc He1]. apply andb_true_iff in Hc as [Hm1 Hm2].
  apply Z.leb_le in Hm1, He1, He2. apply Z.ltb_lt in Hm2.
  unfold round, nearest_ties_up, scaled.
  destruct (Z.leb_spec 0 e) as [He|He].
  - (* already an integer *)
    assert (2 ^ 52 <= m) as Hm.
    { apply orb_true_iff in Hnorm as [H|H]; [by apply Z.leb_le|].
      apply Z.eqb_eq in H. lia. }
    assert (0 < 2 ^ e) as Hpe by (apply Z.pow_pos_nonneg; lia).
    assert (of_Z ((if neg then - m else m) * 2 ^ e) = Finite neg m e) as Hof.
    { unfold of_Z.
      replace (Z.abs ((if neg then - m else m) * 2 ^ e)) with (m * 2 ^ e)
        by (destruct neg; nia).
      replace ((if neg then - m else m) * 2 ^ e <? 0) with neg
        by (destruct neg; symmetry; [apply Z.ltb_lt|apply Z.ltb_ge]; nia).
      by apply round_ratio_power. }
    exists ((if neg then - m else m) * 2 ^ e). split; [|split].
    + replace (2 ^ (e + 1074)) with (2 ^ e * (2 * 2 ^ 1073))
        by (rewrite Z.pow_add_r by lia; f_equal).
      assert (0 < 2 ^ 1073) by (apply Z.pow_pos_nonneg; lia). nia.
    + by rewrite Hof.
    + intros Hn. rewrite Hof. apply to_string_large_integer; [lia|lia|].
      destruct neg; nia.
  - set (n := ((if neg then - (2 * m) else 2 * m) + 2 ^ (- e)) / 2 ^ (1 - e)).
    assert (0 < 2 ^ (- e)) as Hp by (apply Z.pow_pos_nonneg; lia).
    assert (2 ^ (1 - e) = 2 * 2 ^ (- e)) as Hp2.
    { replace (1 - e) with (Z.succ (- e)) by lia. apply Z.pow_succ_r. lia. }
    pose proof (Z.mul_div_le ((if neg then - (2 * m) else 2 * m) + 2 ^ (- e))
                  (2 ^ (1 - e)) ltac:(lia)) as Hlo.
    pose proof (Z.mul_succ_div_gt ((if neg then - (2 * m) else 2 * m) + 2 ^ (- e))
                  (2 ^ (1 - e)) ltac:(lia)) as Hhi.
    fold n in Hlo, Hhi. rewrite Hp2 in Hlo, Hhi.
    exists n. split; [|split].
    + assert (0 < 2 ^ (e + 1074)) as Hq by (apply Z.pow_pos_nonneg; lia).
      assert (2 ^ (- e) * 2 ^ (e + 1074) = 2 * 2 ^ 1073) as Hpq.
      { rewrite <- Z.pow_add_r by lia. replace (- e + (e + 1074)) with 1074 by lia.
        done. }
      destruct neg; nia.
    + destruct (Z.eqb_spec n 0) as [->|Hn0]; reflexivity.
    + intros _. apply to_string_of_Z_integer.
      assert (2 <= 2 ^ (- e)).
      { replace 2 with (2 ^ 1) at 1 by done. apply Z.pow_le_mono_r; lia. }
      assert (2 ^ 53 = 2 * 2 ^ 52) by done.
      destruct neg; nia.
Qed.


(** *** Texts that [Number] does not read *)

Lemma plain_app s t : plain (s ++ t) = plain s && plain t.
Proof. induction s as [|c s IH]; simpl; [done|]. by rewrite IH, andb_assoc. Qed.

Lemma plain_digits s : all_digits s = true -> plain s = true.
Proof.
  induction s as [|c s IH]; simpl; [done|].
  intros [Hc Hs]%andb_true_iff. unfold plain_char. rewrite Hc. simpl. by apply IH.
Qed.

Lemma plain_take n s : plain s = true -> plain (JSString.take n s) = true.
Proof.
  revert n. induction s as [|c s IH]; intros [|n]; simpl; try done.
  intros [Hc Hs]%andb_true_iff. rewrite Hc. by apply IH.
Qed.



Lemma plain_char_no_space c : plain_char c = true -> is_space c = false.
Proof. destruct c as [[] [] [] [] [] [] [] []]; done. Qed.

Lemma trim_left_plain s : plain s = true -> trim_left s = s.
Proof.
  destruct s as [|c s]; simpl; [done|].
  intros [Hc _]%andb_true_iff. by rewrite (plain_char_no_space c Hc).
Qed.

Lemma trim_right_plain s : plain s = true -> trim_right s = s.
Proof.
  induction s as [|c s IH]; simpl; [done|].
  intros [Hc Hs]%andb_true_iff. rewrite (IH Hs), (plain_char_no_space c Hc).
  by destruct s.
Qed.

Lemma non_decimal_plain s : plain s = true -> non_decimal s = None.
Proof.
  destruct s as [|c0 [|p [|c s]]]; simpl.
  - done.
  - intros _. by destruct c0 as [[] [] [] [] [] [] [] []].
  - intros _. by destruct c0 as [[] [] [] [] [] [] [] []].
  - intros H. apply andb_true_iff in H as [_ H].
    apply andb_true_iff in H as [Hp _].
    destruct c0 as [[] [] [] [] [] [] [] []]; try done.
    destruct p as [[] [] [] [] [] [] [] []]; done.
Qed.

(** On a plain text [Number] goes straight to the decimal literal. *)
Lemma of_string_plain s :
  plain s = true -> s <> EmptyString ->
  of_string s = let '(neg, r) := split_sign s in unsigned_decimal neg r.
Proof.
  intros Hs Hne. destruct s as [|c s]; [done|]. unfold of_string.
  rewrite trim_left_plain, trim_right_plain by done. cbv iota.
  by rewrite non_decimal_plain.
Qed.

Lemma span_digits_app ds rest :
  all_digits ds = true ->
  span_digits (ds ++ rest)
  = (ds ++ (span_digits rest).1, (span_digits rest).2).
Proof.
  induction ds as [|c ds IH]; simpl.
  - by destruct (span_digits rest).
  - intros [Hc Hs]%andb_true_iff. rewrite Hc, (IH Hs). done.
Qed.

Lemma span_digits_stop ds c rest :
  all_digits ds = true -> is_digit c = false ->
  span_digits (ds ++ String c rest) = (ds, String c rest).
Proof.
  intros Hds Hc. rewrite span_digits_app by done. simpl. rewrite Hc. simpl.
  by rewrite JSStringFacts.app_nil_r.
Qed.



Lemma split_sign_digit c s :
  is_digit c = true -> split_sign (String c s) = (false, String c s).
Proof. destruct c as [[] [] [] [] [] [] [] []]; done. Qed.



(** *** The shortest digits are digits *)





(** *** The length of the text of a number *)

(** What an operation returns is within the range of the format. *)
Lemma round_ratio_range neg p q :
  0 < q ->
  match round_ratio neg p q with
  | Finite _ m e => 0 <= m < 2 ^ 53 /\ -1074 <= e <= 971
  | _ => True
  end.
Proof.
  intros Hq. unfold round_ratio.
  destruct (Z.leb_spec p 0) as [|Hp]; [by cbn|].
  pose proof (Z.log2_spec p Hp) as [Hp1 Hp2].
  pose proof (Z.log2_spec q Hq) as [Hq1 Hq2].
  pose proof (Z.log2_nonneg p) as Hlp. pose proof (Z.log2_nonneg q) as Hlq.
  rewrite Z.pow_succ_r in Hp2, Hq2 by done.
  set (lp := Z.log2 p) in *. set (lq := Z.log2 q) in *.
  cbv zeta. set (l := lp - lq).
  set (fl := if p * 2 ^ Z.max 0 (- l) <? q * 2 ^ Z.max 0 l then l - 1 else l).
  assert (p * 2 ^ Z.max 0 (- (fl + 1)) < q * 2 ^ Z.max 0 (fl + 1)) as Hstar.
  { unfold fl.
    destruct (Z.ltb_spec (p * 2 ^ Z.max 0 (- l)) (q * 2 ^ Z.max 0 l)) as [Hlt|_].
    - by replace (l - 1 + 1) with l by lia.
    - set (C := Z.max 0 (- (l + 1))). set (D := Z.max 0 (l + 1)).
      assert (0 < 2 ^ C) by (apply Z.pow_pos_nonneg; lia).
      assert (0 < 2 ^ D) by (apply Z.pow_pos_nonneg; lia).
      assert (2 * 2 ^ lp * 2 ^ C = 2 ^ lq * 2 ^ D) as Heq.
      { rewrite <- (Z.pow_succ_r 2 lp), <- !Z.pow_add_r by lia.
        f_equal. unfold C, D, l. lia. }
      nia. }
  set (e := Z.max (-1074) (fl - 52)).
  set (A := Z.max 0 (- e)). set (B := Z.max 0 e).
  set (num := p * 2 ^ A). set (den := q * 2 ^ B).
  assert (0 < 2 ^ A) as HA by (apply Z.pow_pos_nonneg; lia).
  assert (0 < 2 ^ B) as HB by (apply Z.pow_pos_nonneg; lia).
  assert (0 < den) as Hden by (unfold den; nia).
  assert (0 <= num) as Hnum by (unfold num; nia).
  assert (num < den * 2 ^ 53) as Hlt.
  { set (C := Z.max 0 (- (fl + 1))) in *. set (D := Z.max 0 (fl + 1)) in *.
    assert (0 < 2 ^ C) as HC by (apply Z.pow_pos_nonneg; lia).
    assert (0 < 2 ^ D) as HD by (apply Z.pow_pos_nonneg; lia).
    assert (2 ^ D * 2 ^ A <= 2 ^ B * 2 ^ 53 * 2 ^ C) as Hle.
    { rewrite <- !Z.pow_add_r by lia. apply Z.pow_le_mono_r; [lia|].
      unfold A, B, C, D, e. lia. }
    unfold num, den. apply (Z.mul_lt_mono_pos_r (2 ^ C)); [done|].
    assert (p * 2 ^ C * 2 ^ A < q * 2 ^ D * 2 ^ A) by nia.
    assert (q * (2 ^ D * 2 ^ A) <= q * (2 ^ B * 2 ^ 53 * 2 ^ C)) by nia.
    lia. }
  assert (0 <= num / den < 2 ^ 53) as Hquo.
  { split; [by apply Z.div_pos|]. by apply Z.div_lt_upper_bound. }
  set (quo := num / den) in *.
  set (up := (den <? 2 * (num mod den))
             || ((den =? 2 * (num mod den)) && Z.odd quo)).
  assert (2 ^ 52 < 2 ^ 53) by done.
  destruct up;
    repeat match goal with
           | |- context [if ?b then _ else _] =>
               let E := fresh "E" in destruct b eqn:E
           end; try done;
    repeat match goal with
           | H : (_ =? _) = true |- _ => apply Z.eqb_eq in H
           | H : (_ =? _) = false |- _ => apply Z.eqb_neq in H
           | H : (_ <? _) = false |- _ => apply Z.ltb_ge in H
           end; unfold e in *; lia.
Qed.

(** The text of a number has less than a thousand characters. *)
Lemma to_string_length x :
  match x with
  | Finite _ m e => 0 <= m < 2 ^ 53 /\ -1074 <= e <= 971
  | _ => True
  end ->
  JSString.len (to_string x) <= 1000.
Proof.
  destruct x as [| [|] |neg m e]; [by vm_compute..|].
  intros [Hm He]. unfold to_string.
  destruct (Z.eqb_spec m 0) as [|Hm0]; [by vm_compute|].
  unfold shortest.
  set (num := m * 2 ^ Z.max 0 e). set (den := 2 ^ Z.max 0 (- e)).
  assert (1 <= num < 10 ^ 309) as Hnum.
  { assert (0 < 2 ^ Z.max 0 e) by (apply Z.pow_pos_nonneg; lia).
    assert (2 ^ Z.max 0 e <= 2 ^ 971) by (apply Z.pow_le_mono_r; lia).
    assert (2 ^ 53 * 2 ^ 971 < 10 ^ 309) by (by vm_compute).
    unfold num. split; [nia|].
    apply Z.le_lt_trans with (2 ^ 53 * 2 ^ 971); [|done].
    apply Z.mul_le_mono_nonneg; lia. }
  assert (1 <= den < 10 ^ 324) as Hden.
  { assert (0 < 2 ^ Z.max 0 (- e)) by (apply Z.pow_pos_nonneg; lia).
    assert (2 ^ Z.max 0 (- e) <= 2 ^ 1074) by (apply Z.pow_le_mono_r; lia).
    assert (2 ^ 1074 < 10 ^ 324) by (by vm_compute).
    unfold den. lia. }
  assert (-323 <= decimal_exponent num den <= 309) as Hn0.
  { unfold decimal_exponent.
    pose proof (ndigits_pos num). pose proof (ndigits_pos den).
    pose proof (ndigits_pos (num / den)).
    pose proof (ndigits_le num 309 ltac:(lia) ltac:(lia)).
    pose proof (ndigits_le den 324 ltac:(lia) ltac:(lia)).
    assert (ndigits (num / den) <= 309).
    { apply ndigits_le; [lia|]. split; [apply Z.div_pos; lia|].
      apply Z.div_lt_upper_bound; [lia|]. nia. }
    repeat match goal with
           | |- context [if ?b then _ else _] => destruct b
           end; lia. }
  set (n0 := decimal_exponent num den) in *.
  destruct (shortest_from_cases 17 num den m e n0 1)
    as (s & k & -> & Hk & Hs).
  assert (0 <= s <= 10 ^ 650) as Hsb.
  { set (a := num * 10 ^ Z.max 0 (k - n0)).
    set (b := den * 10 ^ Z.max 0 (n0 - k)).
    assert (0 < 10 ^ Z.max 0 (n0 - k)) by (apply Z.pow_pos_nonneg; lia).
    assert (0 < 10 ^ Z.max 0 (k - n0)) by (apply Z.pow_pos_nonneg; lia).
    assert (10 ^ Z.max 0 (k - n0) <= 10 ^ 341) by (apply Z.pow_le_mono_r; lia).
    assert (10 ^ 309 * 10 ^ 341 = 10 ^ 650) as Hpow by (by vm_compute).
    assert (0 <= a < 10 ^ 650).
    { unfold a. split; [nia|]. rewrite <- Hpow.
      apply Z.le_lt_trans with (num * 10 ^ 341).
      - apply Z.mul_le_mono_nonneg_l; lia.
      - apply Z.mul_lt_mono_pos_r; [by vm_compute|lia]. }
    assert (1 <= b) by (unfold b; nia).
    assert (0 <= a / b <= a).
    { split; [apply Z.div_pos; lia|].
      apply Z.div_le_upper_bound; [lia|]. nia. }
    assert (s = a / b \/ s = a / b + 1) as [->| ->]; [|lia|lia].
    destruct Hs as [Hs| ->]; [|by left].
    apply digits_at_range in Hs. cbv zeta in Hs.
    replace (Z.max 0 (- (n0 - k))) with (Z.max 0 (k - n0)) in Hs by lia.
    exact Hs. }
  set (sn := if s =? 10 ^ k then (1, n0 + 1) else (s, n0)).
  assert (0 <= sn.1 <= 10 ^ 650 /\ -323 <= sn.2 <= 310) as [Hs1 Hs2].
  { unfold sn. destruct (s =? 10 ^ k); cbn [fst snd]; [|lia].
    split; [|lia]. split; [lia|]. by vm_compute. }
  destruct sn as [s' n]. cbn [fst snd] in Hs1, Hs2.
  assert (JSString.len (digits_of s') <= 651) as HK.
  { apply (ndigits_le s' 651); [lia|]. split; [lia|].
    assert (10 ^ 650 < 10 ^ 651) by (by vm_compute). lia. }
  pose proof (ndigits_pos s') as HK1. unfold ndigits in HK1.
  set (ds := digits_of s') in *.
  assert (JSString.len (render ds n) <= 700) as Hr.
  { unfold render. cbv zeta.
    repeat match goal with
           | |- context [if ?b then _ else _] =>
               let E := fresh "E" in destruct b eqn:E
           end;
      rewrite ?JSStringFacts.len_app, ?JSStringFacts.len_zeros;
      repeat match goal with
             | H : (_ && _) = true |- _ => apply andb_true_iff in H as [? ?]
             | H : (_ <=? _) = true |- _ => apply Z.leb_le in H
             | H : (_ <? _) = true |- _ => apply Z.ltb_lt in H
             end.
    - lia.
    - pose proof (JSStringFacts.take_drop ds (Z.to_nat n)) as Htd.
      apply (f_equal JSString.len) in Htd.
      rewrite JSStringFacts.len_app in Htd.
      change (JSString.len ".") with 1. lia.
    - change (JSString.len "0.") with 2. lia.
    - change (JSString.len "e") with 1. change (JSString.len "-") with 1.
      pose proof (ndigits_le (Z.abs (n - 1)) 3 ltac:(lia) ltac:(lia)) as Hd.
      unfold ndigits in Hd. lia.
    - change (JSString.len "e") with 1. change (JSString.len "+") with 1.
      pose proof (ndigits_le (Z.abs (n - 1)) 3 ltac:(lia) ltac:(lia)) as Hd.
      unfold ndigits in Hd. lia.
    - pose proof (JSStringFacts.take_drop ds 1) as Htd.
      apply (f_equal JSString.len) in Htd.
      rewrite JSStringFacts.len_app in Htd.
      change (JSString.len "e") with 1. change (JSString.len "-") with 1.
      change (JSString.len ".") with 1.
      pose proof (ndigits_le (Z.abs (n - 1)) 3 ltac:(lia) ltac:(lia)) as Hd.
      unfold ndigits in Hd. lia.
    - pose proof (JSStringFacts.take_drop ds 1) as Htd.
      apply (f_equal JSString.len) in Htd.
      rewrite JSStringFacts.len_app in Htd.
      change (JSString.len "e") with 1. change (JSString.len "+") with 1.
      change (JSString.len ".") with 1.
      pose proof (ndigits_le (Z.abs (n - 1)) 3 ltac:(lia) ltac:(lia)) as Hd.
      unfold ndigits in Hd. lia. }
  rewrite JSStringFacts.len_app.
  assert (JSString.len (if neg then "-" else "") <= 1) by (by destruct neg).
  lia.
Qed.

End JSNumberFacts.

(** ** Properties of [dataFormat] *)

Module DataFormatFacts.

Import JSNumber DataFormat.

#[local] Arguments of_Z : simpl never.
#[local] Arguments of_string : simpl never.
#[local] Arguments to_string : simpl never.
#[local] Arguments round : simpl never.
#[local] Arguments div : simpl never.
#[local] Arguments mul : simpl never.
#[local] Arguments add : simpl never.
#[local] Arguments retainDecimal : simpl never.

(** *** Order of numbers *)

Lemma geb_not_ltb (x y : number) : geb x y = true -> ltb x y = false.
Proof.
  destruct x as [|nx|nx mx ex], y as [|ny|ny my ey]; simpl; try done.
  all: try (rewrite Z.leb_le, Z.ltb_ge; lia).
  all: repeat match goal with b : bool |- _ => destruct b end; done.
Qed.

Lemma ltb_trans (x y z : number) :
  ltb x y = true -> ltb y z = true -> ltb x z = true.
Proof.
  destruct x as [|nx|nx mx ex], y as [|ny|ny my ey], z as [|nz|nz mz ez];
    simpl; try done.
  all: try (rewrite !Z.ltb_lt; lia).
  all: repeat match goal with b : bool |- _ => destruct b end; done.
Qed.

(** *** The store *)

(** The computations of the formatter, unfolded. *)
Ltac run :=
  unfold Math_abs, to_string_value, to_number, new_Array_join0, built,
    alloc, load, store_decimal, bind, ret, throw in *.

(** Case analysis on every test of the goal. *)
Ltac branches :=
  repeat (cbv beta iota zeta;
          try match goal with
              | |- context [if ?b then _ else _] => destruct b
              end).

Lemma extends_refl h : extends h h.
Proof. exists []. by rewrite app_nil_r. Qed.

Lemma extends_trans h1 h2 h3 : extends h1 h2 -> extends h2 h3 -> extends h1 h3.
Proof. intros [k1 ->] [k2 ->]. exists (k1 ++ k2)%list. by rewrite app_assoc. Qed.

Lemma extends_alloc h o : extends h (h ++ [o])%list.
Proof. by exists [o]. Qed.

(** A write to an object made after [h] leaves the objects of [h] alone. *)
Lemma extends_alter h h' (f : options -> options) l :
  extends h h' -> (length h <= l)%nat -> extends h (alter f l h').
Proof.
  intros [k ->] Hl. exists (alter f (l - length h)%nat k).
  by rewrite alter_app_r_alt.
Qed.

Lemma retainDecimal_heap v d f h : snd (retainDecimal v d f h) = h.
Proof.
  unfold retainDecimal. destruct v; try done. run. branches; done.
Qed.


(** On a number [retainDecimal] returns a string, or throws a RangeError
    for a [decimal] beyond the length of an array. *)
Lemma retainDecimal_number x d f h :
  (exists s, retainDecimal (VNumber x) d f h = (Ok (VString s), h))
  \/ retainDecimal (VNumber x) d f h = (Throw RangeError, h).
Proof.
  unfold retainDecimal. run. branches; eauto.
Qed.


(** [retainDecimal] neither reads nor writes the store. *)
Lemma retainDecimal_pure v d f h :
  retainDecimal v d f h = ((retainDecimal v d f []).1, h).
Proof.
  unfold retainDecimal. destruct v; try done. run. branches; done.
Qed.

Lemma lookup_fresh (h : heap) o : (h ++ [o])%list !! length h = Some o.
Proof. by rewrite (list_lookup_middle h [] o). Qed.

Lemma alter_fresh (h : heap) o f :
  alter f (length h) (h ++ [o])%list = (h ++ [f o])%list.
Proof.
  replace (length h) with (length h + 0)%nat by lia. by rewrite alter_app_r.
Qed.

Lemma take_fresh (h k : heap) : take (length h) (h ++ k)%list = h.
Proof. by rewrite take_app_length. Qed.

(** *** Values that are not numbers *)

Section Passthrough.

Variable toLocaleString : number -> string.
Variable localTZA : Z -> Z.



End Passthrough.


(** *** Dispatch *)

Lemma agree_refl h a : agree h a a.
Proof. done. Qed.

Section Dispatch.

Variable toLocaleString : number -> string.

(** C4. On a number [x] and options in structured form, [numberFormat]
    agrees with [smallNumberFormat] on [opt.small] when [abs x < 10] and
    with [largeNumberFormat] on [opt.large] when [abs x >= 10], also
    when the sub-option is absent. *)
Theorem numberFormat_dispatch x small large h :
  (ltb (abs x) (of_Z 10) = true ->
   agree h (numberFormat toLocaleString (VNumber x) (FOObject small large) h)
           (smallNumberFormat (VNumber x) small h))
  /\ (geb (abs x) (of_Z 10) = true ->
      agree h (numberFormat toLocaleString (VNumber x) (FOObject small large) h)
              (largeNumberFormat toLocaleString (VNumber x) large h)).
Proof.
  split; intros Hx; [|apply geb_not_ltb in Hx];
    unfold numberFormat; run; cbv beta iota zeta; rewrite Hx.
  - destruct small as [l|]; [apply agree_refl|].
    unfold smallNumberFormat. run. cbv beta iota zeta.
    rewrite !lookup_fresh. simpl. rewrite !alter_fresh, !lookup_fresh. simpl.
    do 2 rewrite (retainDecimal_pure _ _ _ (h ++ [_])%list).
    change (retainDecimal (VNumber x) (Some 8) None)
      with (retainDecimal (VNumber x) (Some 8) (Some true)).
    unfold agree.
    destruct (retainDecimal (VNumber x) (Some 8) (Some true) []).1; simpl;
      by rewrite !take_fresh.
  - destruct large as [l|]; [apply agree_refl|].
    unfold largeNumberFormat. run. cbv beta iota zeta.
    destruct (unit_and_divisor (abs x)) as [unit divisor].
    rewrite !lookup_fresh. simpl.
    do 2 rewrite (retainDecimal_pure _ _ _ (h ++ [_])%list).
    change (retainDecimal (VNumber (div x divisor)) None None)
      with (retainDecimal (VNumber (div x divisor)) (Some 2) (Some true)).
    unfold agree.
    destruct (retainDecimal (VNumber (div x divisor)) (Some 2) (Some true) []).1
      as [v|]; simpl; [destruct v|]; simpl; by rewrite !take_fresh.
Qed.

End Dispatch.


(** *** What a call does to the store *)

Lemma foldM_extends {A B : Type} (f : B -> A -> M B) (l : list A) :
  (forall b a h, extends h (f b a h).2) ->
  forall b h, extends h (foldM f l b h).2.
Proof.
  intros Hf. induction l as [|a l IH]; intros b h; simpl.
  - apply extends_refl.
  - unfold bind. specialize (Hf b a h). destruct (f b a h) as [[b'|e] h1]; simpl in *.
    + eapply extends_trans; [exact Hf|apply IH].
    + done.
Qed.

Lemma smallNumberFormat_frame v opt h :
  extends (after_small v opt h) (smallNumberFormat v opt h).2.
Proof.
  unfold smallNumberFormat, after_small, writes_decimal.
  destruct opt as [l|], v; run; cbv beta iota zeta; simpl;
    try apply extends_refl; try apply extends_alloc.
  - destruct (decimal (default empty_options (h !! l))) as [d|];
      [destruct (d <? 0)|]; simpl; rewrite retainDecimal_pure;
      destruct (retainDecimal _ _ _ []).1 as [w|]; simpl;
      try apply extends_refl;
      branches; try apply extends_refl; destruct w; apply extends_refl.
  - rewrite !lookup_fresh. simpl. rewrite lookup_fresh. simpl.
    rewrite retainDecimal_pure.
    destruct (retainDecimal _ _ _ []).1 as [w|]; simpl; apply extends_alloc.
Qed.

(** With a record made after [h], [smallNumberFormat] leaves [h] alone. *)
Lemma smallNumberFormat_fresh v l h h' :
  extends h h' -> (length h <= l)%nat ->
  extends h (smallNumberFormat v (Some l) h').2.
Proof.
  intros Hh Hl. eapply extends_trans; [|apply smallNumberFormat_frame].
  unfold after_small. destruct (writes_decimal _ _); [|done].
  by apply extends_alter.
Qed.

Section Frame.

Variable toLocaleString : number -> string.
Variable localTZA : Z -> Z.

Lemma largeNumberFormat_frame v opt h :
  extends h (largeNumberFormat toLocaleString v opt h).2.
Proof.
  unfold largeNumberFormat.
  assert (Hbody : forall l h', extends h h' ->
    extends h
      (match v with
       | VNumber x =>
           let '(unit, divisor) := unit_and_divisor (abs x) in
           let v0 := VNumber (div x divisor) in
           let* r := load l in
           let* v1 := retainDecimal v0 (decimal r) (isRemoveExtraZero r) in
           let* v2 := (if truthy (isAttachThousandSymbol r)
                       then attachThousandSymbol toLocaleString v1 else ret v1) in
           if truthy (isSplitValueAndUnit r) then ret (VValueUnit v2 unit)
           else let* s := to_string_value v2 in ret (VString (s ++ unit))
       | _ => ret v
       end h').2).
  { intros l h' Hh. destruct v; try done.
    destruct (unit_and_divisor (abs x)) as [unit divisor].
    unfold attachThousandSymbol. run. cbv beta iota zeta.
    rewrite retainDecimal_pure.
    destruct (retainDecimal _ _ _ []).1 as [w|]; simpl; [|done].
    branches; try done; destruct w; simpl; try done; branches; done. }
  destruct opt as [l|]; unfold bind at 1; simpl.
  - apply Hbody, extends_refl.
  - apply Hbody, extends_alloc.
Qed.


Lemma numberFormat_frame v fo h :
  extends (after_numberFormat v fo h) (numberFormat toLocaleString v fo h).2.
Proof.
  assert (Hnew : forall o1 o2 : options, extends h (h ++ [o1] ++ [o2])%list)
    by (intros; by eexists).
  unfold numberFormat, after_numberFormat.
  destruct (is_number v) eqn:Hv.
  - destruct v as [| | |x| | | | |]; try done.
    destruct fo as [d|small large| |]; run; cbv beta iota zeta;
      try apply extends_refl.
    + rewrite <- app_assoc. destruct (ltb (abs x) (of_Z 10)).
      * apply smallNumberFormat_fresh; [apply Hnew|done].
      * eapply extends_trans; [apply Hnew|apply largeNumberFormat_frame].
    + destruct (ltb (abs x) (of_Z 10)).
      * destruct small as [l|]; [apply smallNumberFormat_frame|].
        apply smallNumberFormat_fresh; [apply extends_alloc|done].
      * destruct large as [l|]; [apply largeNumberFormat_frame|].
        eapply extends_trans; [apply extends_alloc|apply largeNumberFormat_frame].
    + destruct (ltb (abs x) (of_Z 10)).
      * apply smallNumberFormat_fresh; [apply extends_alloc|done].
      * eapply extends_trans; [apply extends_alloc|apply largeNumberFormat_frame].
  - destruct fo as [d|small large| |]; destruct v; try done; run;
      cbv beta iota zeta; simpl; rewrite <- ?app_assoc;
      repeat match goal with
             | |- context [if ?b then _ else _] => destruct b
             | |- context [match ?o with Some _ => _ | None => _ end] =>
                 destruct o
             end; simpl;
      first [apply extends_refl | apply extends_alloc | apply Hnew
            | eexists; by rewrite <- !app_assoc ].
Qed.

Lemma percentFormat_heap v sym h : (percentFormat v sym h).2 = h.
Proof.
  unfold percentFormat. destruct v; try done. run. cbv beta iota zeta.
  rewrite retainDecimal_pure.
  destruct (retainDecimal _ _ _ []).1 as [w|]; simpl; [|done].
  destruct w; done.
Qed.

Lemma datetimeFormat_frame v express h :
  extends h (datetimeFormat localTZA v express h).2.
Proof.
  unfold datetimeFormat. destruct v; try apply extends_refl.
  unfold bind at 1.
  pose proof (foldM_extends two_digits ["MM"; "dd"; "hh"; "mm"; "ss"]) as H1.
  destruct (foldM two_digits _ (fields localTZA x) h) as [[datetime|e] h1] eqn:E1.
  - assert (extends h h1) as Hh1.
    { change h1 with (Ok datetime, h1).2. rewrite <- E1. apply H1.
      intros b a h0. unfold two_digits. run. cbv beta iota zeta.
      pose proof (smallNumberFormat_fresh
        (get (JSString.slice_from a 1) b) (length h0) h0
        (h0 ++ [two_digit_options])%list
        (extends_alloc _ _) (le_n _)) as Hs.
      destruct (smallNumberFormat _ _ _) as [[w|e] h2]; exact Hs. }
    unfold bind.
    pose proof (foldM_extends (substitute datetime) tokens) as H2.
    destruct (foldM (substitute datetime) tokens _ h1) as [[text|e] h2] eqn:E2.
    + eapply extends_trans; [exact Hh1|].
      change h2 with (Ok text, h2).2. rewrite <- E2. apply H2.
      intros b a h0. unfold substitute. run.
      destruct (get a datetime); apply extends_refl.
    + eapply extends_trans; [exact Hh1|].
      change h2 with (@Throw string e, h2).2. rewrite <- E2. apply H2.
      intros b a h0. unfold substitute. run.
      destruct (get a datetime); apply extends_refl.
  - change h1 with (@Throw table e, h1).2. rewrite <- E1. apply H1.
    intros b a h0. unfold two_digits. run. cbv beta iota zeta.
    pose proof (smallNumberFormat_fresh
      (get (JSString.slice_from a 1) b) (length h0) h0
      (h0 ++ [two_digit_options])%list
      (extends_alloc _ _) (le_n _)) as Hs.
    destruct (smallNumberFormat _ _ _) as [[w|e'] h2]; exact Hs.
Qed.

(** C3, as the code has it. No method changes an object of the
    caller's store, but for one write: [smallNumberFormat], given a
    number and an option record whose [decimal] is absent, NaN or
    negative, sets the [decimal] of that record to 8, and so does
    [numberFormat] when it hands the caller's [small] record to it.
    Anything else in the resulting store is new. *)
Theorem formatter_frame v h :
  (forall d f, (retainDecimal v d f h).2 = h)
  /\ (forall sym, (percentFormat v sym h).2 = h)
  /\ (forall opt, extends h (largeNumberFormat toLocaleString v opt h).2)
  /\ (forall express, extends h (datetimeFormat localTZA v express h).2)
  /\ (forall opt, extends (after_small v opt h) (smallNumberFormat v opt h).2)
  /\ (forall fo,
        extends (after_numberFormat v fo h) (numberFormat toLocaleString v fo h).2).
Proof.
  repeat split; intros.
  - apply retainDecimal_heap.
  - apply percentFormat_heap.
  - apply largeNumberFormat_frame.
  - apply datetimeFormat_frame.
  - apply smallNumberFormat_frame.
  - apply numberFormat_frame.
Qed.

End Frame.

(** C3, as stated, fails: [smallNumberFormat(5, option)] with
    [option = {}] leaves [option.decimal === 8] behind. *)
Lemma smallNumberFormat_writes_option :
  smallNumberFormat (VNumber (literal "5")) (Some 0%nat) [empty_options]
  = (Ok (VString "5"), [set_decimal (Some 8) empty_options])
  /\ set_decimal (Some 8) empty_options <> empty_options.
Proof. split; [vm_compute; reflexivity | discriminate]. Qed.

(** C7. A symbol or a BigInt given to [numberFormat] is not returned:
    [Math.abs] throws a TypeError on it before any test of its type. *)
Theorem numberFormat_symbol_throws
    (toLocaleString : number -> string) description z fo h :
  (numberFormat toLocaleString (VSymbol description) fo h).1 = Throw TypeError
  /\ (numberFormat toLocaleString (VBigInt z) fo h).1 = Throw TypeError.
Proof. split; destruct fo; reflexivity. Qed.


(** *** [retainDecimal] on literal cases *)

(** C5. [retainDecimal(2.55, 1, false)] is ["2.6"],
    [retainDecimal(1.2, 0, true)] is ["1"] and
    [retainDecimal(0, 3, false)] is ["0.000"]; the store is left as
    it is. *)
Theorem retainDecimal_test_vectors (h : heap) :
  retainDecimal (VNumber (literal "2.55")) (Some 1) (Some false) h
    = (Ok (VString "2.6"), h)
  /\ retainDecimal (VNumber (literal "1.2")) (Some 0) (Some true) h
    = (Ok (VString "1"), h)
  /\ retainDecimal (VNumber (literal "0")) (Some 3) (Some false) h
    = (Ok (VString "0.000"), h).
Proof. repeat split; vm_compute; reflexivity. Qed.

(** C9. NaN and the infinities pass the [typeof] test, and the digit
    algorithm runs on their names: with two decimals the result is the
    string ["N.aN"], or ["NaN"] when zeros are to be removed; whatever the
    arguments, the number itself is never what is returned. *)
Theorem retainDecimal_nan_infinity (h : heap) :
  retainDecimal (VNumber NaN) (Some 2) (Some false) h = (Ok (VString "N.aN"), h)
  /\ retainDecimal (VNumber NaN) (Some 2) (Some true) h = (Ok (VString "NaN"), h)
  /\ (forall neg,
        retainDecimal (VNumber (Infinity neg)) (Some 2) (Some false) h
          = (Ok (VString "N.aN"), h)
        /\ retainDecimal (VNumber (Infinity neg)) (Some 2) (Some true) h
          = (Ok (VString "NaN"), h))
  /\ (forall x d f w,
        (retainDecimal (VNumber x) d f h).1 = Ok w -> typeof w = TString).
Proof.
  split; [vm_compute; reflexivity|].
  split; [vm_compute; reflexivity|].
  split.
  - intros [|]; split; vm_compute; reflexivity.
  - intros x d f w Hw.
    destruct (retainDecimal_number x d f h) as [[s Hs]|Hs];
      rewrite Hs in Hw; simpl in Hw; by simplify_eq.
Qed.

(** *** The units of [largeNumberFormat] *)

Lemma div_ten_thousand :
  div (of_Z 100000000) (of_Z 10000) = of_Z 10000.
Proof. vm_compute. reflexivity. Qed.

Lemma units_yi a :
  geb a (of_Z 100000000) = true ->
  unit_and_divisor a = ("亿", of_Z 100000000).
Proof.
  intros H. apply geb_not_ltb in H. unfold unit_and_divisor. by rewrite H, H.
Qed.

Lemma units_wan a :
  geb a (of_Z 10000) = true -> ltb a (of_Z 100000000) = true ->
  unit_and_divisor a = ("万", of_Z 10000).
Proof.
  intros H1 H2. apply geb_not_ltb in H1. unfold unit_and_divisor.
  by rewrite H2, div_ten_thousand, H1.
Qed.

Lemma units_none a :
  ltb a (of_Z 10000) = true -> unit_and_divisor a = ("", of_Z 1).
Proof.
  intros H. unfold unit_and_divisor.
  rewrite (ltb_trans a (of_Z 10000) (of_Z 100000000) H) by (vm_compute; done).
  by rewrite div_ten_thousand, H.
Qed.

Section Large.

Variable toLocaleString : number -> string.

Lemma largeNumberFormat_shape x l r h text :
  h !! l = Some r ->
  (retainDecimal (VNumber (div x (unit_and_divisor (abs x)).2))
     (decimal r) (isRemoveExtraZero r) h).1 = Ok (VString text) ->
  largeNumberFormat toLocaleString (VNumber x) (Some l) h
  = (Ok (value_and_unit r (with_thousands toLocaleString r text) (unit_and_divisor (abs x)).1), h).
Proof.
  intros Hl Ht. unfold largeNumberFormat, value_and_unit, with_thousands.
  destruct (unit_and_divisor (abs x)) as [unit divisor]. simpl in *.
  unfold attachThousandSymbol. run. cbv beta iota zeta. rewrite Hl. simpl.
  rewrite retainDecimal_pure in Ht |- *. simpl in Ht. rewrite Ht.
  destruct (truthy (isAttachThousandSymbol r)),
    (truthy (isSplitValueAndUnit r)); reflexivity.
Qed.

(** C6. The unit and the divisor follow the magnitude: at least 1e8,
    ["亿"] and 1e8; from 1e4 up to 1e8, ["万"] and 1e4; below 1e4, no unit
    and 1. The quotient goes through [retainDecimal] with the record's
    settings, and the text that comes back (with the separators of the
    locale, if asked for) is paired with the unit when
    [isSplitValueAndUnit] is set, and followed by it otherwise. So
    [largeNumberFormat(123456789, {decimal: 2, isSplitValueAndUnit: false})]
    is ["1.23亿"] and [largeNumberFormat(50000, {})] is ["5万"]. *)
Theorem largeNumberFormat_units x l r h :
  h !! l = Some r ->
  (geb (abs x) (of_Z 100000000) = true ->
   unit_and_divisor (abs x) = ("亿", of_Z 100000000))
  /\ (geb (abs x) (of_Z 10000) = true -> ltb (abs x) (of_Z 100000000) = true ->
      unit_and_divisor (abs x) = ("万", of_Z 10000))
  /\ (ltb (abs x) (of_Z 10000) = true -> unit_and_divisor (abs x) = ("", of_Z 1))
  /\ (forall text,
        (retainDecimal (VNumber (div x (unit_and_divisor (abs x)).2))
           (decimal r) (isRemoveExtraZero r) h).1 = Ok (VString text) ->
        largeNumberFormat toLocaleString (VNumber x) (Some l) h
        = (Ok (value_and_unit r (with_thousands toLocaleString r text)
                 (unit_and_divisor (abs x)).1), h))
  /\ (r = {| decimal := Some 2; isRemoveExtraZero := None;
             isFillZeroInFront := None; isSplitValueAndUnit := Some false;
             isAttachThousandSymbol := None |} ->
      largeNumberFormat toLocaleString (VNumber (literal "123456789")) (Some l) h
      = (Ok (VString "1.23亿"), h))
  /\ (r = empty_options ->
      largeNumberFormat toLocaleString (VNumber (literal "50000")) (Some l) h
      = (Ok (VString "5万"), h)).
Proof.
  intros Hl. repeat split.
  - apply units_yi.
  - apply units_wan.
  - apply units_none.
  - intros text. by apply largeNumberFormat_shape.
  - intros ->. rewrite (largeNumberFormat_shape _ _ _ _ "1.23" Hl).
    + vm_compute. reflexivity.
    + rewrite retainDecimal_pure. vm_compute. reflexivity.
  - intros ->. rewrite (largeNumberFormat_shape _ _ _ _ "5" Hl).
    + vm_compute. reflexivity.
    + rewrite retainDecimal_pure. vm_compute. reflexivity.
Qed.

End Large.

(** An instance of C6: 50000 with the empty option record. *)
Lemma largeNumberFormat_units_witness :
  unit_and_divisor (abs (literal "50000")) = ("万", of_Z 10000)
  /\ largeNumberFormat to_string (VNumber (literal "50000")) (Some 0%nat)
       [empty_options]
     = (Ok (VString "5万"), [empty_options]).
Proof.
  pose proof (largeNumberFormat_units to_string (literal "50000") 0%nat
                empty_options [empty_options] eq_refl) as (_ & H2 & _ & _ & _ & H6).
  split.
  - apply H2; vm_compute; reflexivity.
  - apply H6. reflexivity.
Defined.

(** An instance of C4: 5 goes the small way, 50000 the large way. *)
Lemma numberFormat_dispatch_witness :
  agree []
    (numberFormat to_string (VNumber (literal "5")) (FOObject None None) [])
    (smallNumberFormat (VNumber (literal "5")) None [])
  /\ agree []
    (numberFormat to_string (VNumber (literal "50000")) (FOObject None None) [])
    (largeNumberFormat to_string (VNumber (literal "50000")) None []).
Proof.
  split.
  - apply (proj1 (numberFormat_dispatch to_string (literal "5") None None [])).
    vm_compute. reflexivity.
  - apply (proj2 (numberFormat_dispatch to_string (literal "50000") None None [])).
    vm_compute. reflexivity.
Defined.


(** *** [datetimeFormat] as a chain of replacements *)

Lemma replace_eq key by_ s :
  JSString.replace key by_ s
  = if String.prefix key s then by_ ++ JSString.drop (String.length key) s
    else match s with
         | EmptyString => EmptyString
         | String c s' => String c (JSString.replace key by_ s')
         end.
Proof. destruct s; reflexivity. Qed.

Lemma first_index_eq key s :
  JSString.first_index key s
  = if String.prefix key s then Some 0%nat
    else match s with
         | EmptyString => None
         | String _ s' => S <$> JSString.first_index key s'
         end.
Proof. destruct s; reflexivity. Qed.

(** [replace] rewrites the first occurrence of the key and nothing else. *)
Lemma replace_first_occurrence key by_ s :
  JSString.replace key by_ s
  = match JSString.first_index key s with
    | Some i =>
        JSString.take i s ++ by_ ++ JSString.drop (i + String.length key) s
    | None => s
    end.
Proof.
  induction s as [|c s IH]; rewrite replace_eq, first_index_eq;
    destruct (String.prefix key _); try reflexivity.
  rewrite IH. destruct (JSString.first_index key s); reflexivity.
Qed.

(** [JSString.first_index] is the first place at which [key] is a prefix. *)
Lemma first_index_first key s i :
  JSString.first_index key s = Some i ->
  String.prefix key (JSString.drop i s) = true
  /\ forall j, (j < i)%nat -> String.prefix key (JSString.drop j s) = false.
Proof.
  revert i. induction s as [|c s IH]; intros i; rewrite first_index_eq;
    destruct (String.prefix key _) eqn:E.
  - intros [= <-]. split; [done|lia].
  - done.
  - intros [= <-]. split; [done|lia].
  - destruct (JSString.first_index key s) as [i'|]; [|done]. intros [= <-].
    destruct (IH i' eq_refl) as [H1 H2]. split; [done|].
    intros [|j] Hj; [done|]. apply H2. lia.
Qed.

Section Datetime.

Variable localTZA : Z -> Z.

Lemma two_digits_step datetime key t h :
  get (JSString.slice_from key 1) datetime = VNumber t ->
  two_digits datetime key h
  = (Ok (datetime ++ [(key, VString (two_digit_text t))])%list,
     (h ++ [two_digit_options])%list).
Proof.
  intros Ht. unfold two_digits, smallNumberFormat, two_digit_text. rewrite Ht.
  run. cbv beta iota zeta. rewrite !lookup_fresh. simpl.
  rewrite lookup_fresh. simpl.
  destruct (ltb (abs t) (of_Z 10)); reflexivity.
Qed.

Lemma datetimeFormat_substitutes x express h :
  datetimeFormat localTZA (VNumber x) (Some express) h
  = (Ok (VString (substitute_all (token_texts localTZA x) express)),
     (h ++ replicate 5 two_digit_options)%list).
Proof.
  unfold datetimeFormat, fields. cbn [foldM default]. unfold bind. cbv beta zeta.
  do 5 (erewrite two_digits_step by reflexivity; cbv beta iota).
  unfold ret at 1. cbv beta iota. rewrite <- !app_assoc.
  unfold tokens, substitute. cbn [foldM]. run. cbv beta iota zeta. reflexivity.
Qed.

End Datetime.

(** The first occurrence is the only one a step looks for: before it
    the key is nowhere a prefix, and without one it is nowhere at all. *)
Lemma first_index_none key s :
  JSString.first_index key s = None ->
  forall j, String.prefix key (JSString.drop j s) = false.
Proof.
  induction s as [|c s IH]; rewrite first_index_eq;
    destruct (String.prefix key _) eqn:E; try done.
  - intros _ [|j]; exact E.
  - destruct (JSString.first_index key s); [done|]. intros _ [|j]; [exact E|].
    by apply IH.
Qed.

(** C8, as the code has it. For a numeric timestamp and a pattern,
    [datetimeFormat] replaces the tokens in the order yyyy, MM, dd, hh,
    mm, ss, yy, M, d, h, m, s, each step on the result of the one before,
    and a step rewrites the first occurrence of its token and nothing
    else. A second occurrence of the token is thus passed over by that
    step, but not by the later ones: in UTC at the epoch, ["h h"] becomes
    ["0 h"], while the second [hh] of ["hh hh"] loses its first letter to
    the step of [h] and the result is ["00 0h"]. *)
Theorem datetimeFormat_first_occurrences localTZA x express h :
  datetimeFormat localTZA (VNumber x) (Some express) h
  = (Ok (VString (substitute_all (token_texts localTZA x) express)),
     (h ++ replicate 5 two_digit_options)%list)
  /\ map fst (token_texts localTZA x) = tokens
  /\ (forall key by_ s,
        JSString.replace key by_ s
        = match JSString.first_index key s with
          | Some i =>
              JSString.take i s ++ by_
              ++ JSString.drop (i + String.length key) s
          | None => s
          end)
  /\ (forall key s i,
        JSString.first_index key s = Some i ->
        String.prefix key (JSString.drop i s) = true
        /\ forall j, (j < i)%nat ->
             String.prefix key (JSString.drop j s) = false)
  /\ (forall key s,
        JSString.first_index key s = None ->
        forall j, String.prefix key (JSString.drop j s) = false)
  /\ substitute_all (token_texts utc (literal "0")) "h h" = "0 h"
  /\ substitute_all (token_texts utc (literal "0")) "hh hh" = "00 0h".
Proof.
  split; [apply datetimeFormat_substitutes|].
  split; [reflexivity|].
  split; [apply replace_first_occurrence|].
  split; [apply first_index_first|].
  split; [apply first_index_none|].
  split; vm_compute; reflexivity.
Qed.

(** C8, as stated, fails: the second occurrence of a token is not
    always left verbatim. In UTC, [datetimeFormat(0, "hh hh")] is
    ["00 0h"], not ["00 hh"]. *)
Lemma datetimeFormat_second_occurrence :
  (datetimeFormat utc (VNumber (literal "0")) (Some "hh hh") []).1
  = Ok (VString "00 0h").
Proof. vm_compute. reflexivity. Qed.

(** An instance of C8: the pattern ["hh hh"] at the epoch, in UTC. *)
Lemma datetimeFormat_first_occurrences_witness :
  datetimeFormat utc (VNumber (literal "0")) (Some "hh hh") []
  = (Ok (VString (substitute_all (token_texts utc (literal "0")) "hh hh")),
     replicate 5 two_digit_options)
  /\ String.prefix "hh" (JSString.drop 0 "hh hh") = true.
Proof.
  pose proof (datetimeFormat_first_occurrences utc (literal "0") "hh hh" [])
    as (H1 & _ & _ & H4 & _).
  split; [exact H1|].
  exact (proj1 (H4 "hh" "hh hh" 0%nat eq_refl)).
Defined.

(** *** [retainDecimal] without decimals *)

(** C2, as the code has it. With [decimal = 0], [retainDecimal]
    returns the text of [Math.round(value)]. For a finite value that
    is the text of the nearest integer [n], the upper one when two are
    equally near (so towards zero for a negative half); when [n] is
    below [10^21] in magnitude the text is made of digits after an
    optional minus sign, with no point. *)
Theorem retainDecimal_zero_rounds x f h :
  retainDecimal (VNumber x) (Some 0) f h
  = (Ok (VString (to_string (round x))), h)
  /\ (canonical x = true -> is_finite x = true ->
      exists n,
        nearest_ties_up x n
        /\ to_string (round x) = to_string (of_Z n)
        /\ (Z.abs n < 10 ^ 21 ->
            integer_text (to_string (of_Z n)) = true)).
Proof. split; [reflexivity|apply JSNumberFacts.round_nearest]. Qed.

(** C2, as stated, fails: a negative half is not rounded away from
    zero. [retainDecimal(-2.5, 0, true)] is ["-2"], where rounding away
    from zero gives -3. *)
Lemma retainDecimal_zero_negative_half :
  retainDecimal (VNumber (literal "-2.5")) (Some 0) (Some true) []
  = (Ok (VString "-2"), [])
  /\ to_string (of_Z (round_half_away (literal "-2.5"))) = "-3".
Proof. split; vm_compute; reflexivity. Qed.

(** An instance of C2: -2.5 lies between -2 - 1/2 and -2 + 1/2. *)
Lemma retainDecimal_zero_rounds_witness :
  exists n,
    nearest_ties_up (literal "-2.5") n
    /\ to_string (round (literal "-2.5")) = to_string (of_Z n)
    /\ (Z.abs n < 10 ^ 21 -> integer_text (to_string (of_Z n)) = true).
Proof.
  apply (proj2 (retainDecimal_zero_rounds (literal "-2.5") None [])
           eq_refl eq_refl).
Defined.


(** *** [retainDecimal] on a number in exponent notation *)

Section Exponent.

Import JSNumberFacts JSStringFacts.


(** The padding of lines 162 and 171, where it fits. *)
Lemma new_Array_join0_fits n (h : heap) :
  1 <= n -> n - 1 <= max_string_length ->
  new_Array_join0 n h = (Ok (JSString.zeros (Z.to_nat (n - 1))), h).
Proof.
  intros Hn Hfit. unfold new_Array_join0, max_string_length in *.
  replace ((n <? 0) || (4294967295 <? n)) with false
    by (symmetry; apply orb_false_iff; split; apply Z.ltb_ge; lia).
  by replace (536870888 <? n - 1) with false by (symmetry; apply Z.ltb_ge; lia).
Qed.

Lemma built_fits s (h : heap) :
  JSString.len s <= max_string_length -> built s h = (Ok s, h).
Proof.
  intros Hfit. unfold built.
  by replace (max_string_length <? JSString.len s) with false
    by (symmetry; apply Z.ltb_ge; lia).
Qed.

(** More zeros than a string holds are a RangeError. *)
Lemma new_Array_join0_long n (h : heap) :
  max_string_length < n - 1 -> new_Array_join0 n h = (Throw RangeError, h).
Proof.
  intros Hn. unfold new_Array_join0.
  destruct ((n <? 0) || (4294967295 <? n)); [done|].
  by replace (max_string_length <? n - 1) with true
    by (symmetry; apply Z.ltb_lt; lia).
Qed.

(** [retainDecimal] with a [decimal] from 1 on, where the strings it
    builds fit the engine, step by step: the point moved to the right,
    the rounding, the point put back, and the zeros removed if asked
    for. *)
Lemma retainDecimal_steps x d f h :
  1 <= d -> d + JSString.len (to_string x) + 2 <= max_string_length ->
  retainDecimal (VNumber x) (Some d) (Some f) h
  = (Ok (VString
           (let text :=
              with_point
                (to_string (round (of_string (shifted_text (to_string x) d)))) d in
            if f then to_string (of_string text) else text)), h).
Proof.
  intros Hd Hfit. unfold retainDecimal, shifted_text, with_point.
  change (default 2 (Some d)) with d. change (default true (Some f)) with f.
  replace (d <? 0) with false by (symmetry; apply Z.ltb_ge; lia).
  replace (d =? 0) with false by (symmetry; apply Z.eqb_neq; lia).
  cbv zeta.
  destruct (split_dot_lengths (to_string x)) as [Hip Hparts].
  set (ip := nth 0 (JSString.split_dot (to_string x)) EmptyString) in *.
  set (dp := nth 1 (JSString.split_dot (to_string x)) EmptyString) in *.
  pose proof (len_nonneg dp) as Hdp. pose proof (len_nonneg ip) as Hip0.
  assert (forall dp' : string,
            JSString.len dp' <= d + JSString.len dp ->
            JSString.len (ip ++ JSString.substr dp' 0 d ++ "."
                          ++ JSString.substr_from dp' d)
            <= max_string_length) as Hshift.
  { intros dp' Hdp'. rewrite !len_app.
    pose proof (len_substr_parts dp' d ltac:(lia)).
    change (JSString.len ".") with 1. lia. }
  assert (forall t : string,
            JSString.len t <= d ->
            (let* pad := new_Array_join0 (d - JSString.len t + 1) in
             built ("0." ++ pad ++ t)) h
            = (Ok ("0." ++ JSString.zeros (Z.to_nat (d - JSString.len t)) ++ t),
               h)) as Hzeros.
  { intros t Ht. pose proof (len_nonneg t). unfold bind.
    rewrite new_Array_join0_fits by lia.
    replace (d - JSString.len t + 1 - 1) with (d - JSString.len t) by lia.
    apply built_fits. rewrite !len_app, len_zeros.
    change (JSString.len "0.") with 2. lia. }
  unfold bind at 1.
  destruct (Z.ltb_spec (JSString.len dp) d) as [Hlt|Hge]; cbv beta iota.
  - unfold bind at 1. rewrite new_Array_join0_fits by lia. cbv beta iota.
    rewrite built_fits by (rewrite len_app, len_zeros; lia). cbv beta iota.
    unfold bind at 1. rewrite built_fits
      by (apply Hshift; rewrite len_app, len_zeros; lia).
    cbv beta iota.
    set (t := to_string _). pose proof (len_nonneg t).
    unfold bind at 1.
    destruct (Z.ltb_spec d (JSString.len t)); cbv beta iota; [done|].
    by rewrite Hzeros by lia.
  - unfold ret at 1. cbv beta iota.
    unfold bind at 1. rewrite built_fits by (apply Hshift; lia).
    cbv beta iota.
    set (t := to_string _). pose proof (len_nonneg t).
    unfold bind at 1.
    destruct (Z.ltb_spec d (JSString.len t)); cbv beta iota; [done|].
    by rewrite Hzeros by lia.
Qed.

(** A [decimal] beyond the length of a string is a RangeError: the text
    of a number has fewer digits after the point, and the zeros to be
    added with them do not make a string. *)
Lemma retainDecimal_long x d f h :
  max_string_length < d ->
  JSString.len (to_string x) <= max_string_length ->
  retainDecimal (VNumber x) (Some d) f h = (Throw RangeError, h).
Proof.
  intros Hd Hlen. unfold retainDecimal.
  change (default 2 (Some d)) with d.
  assert (0 < max_string_length) by done.
  replace (d <? 0) with false by (symmetry; apply Z.ltb_ge; lia).
  replace (d =? 0) with false by (symmetry; apply Z.eqb_neq; lia).
  cbv zeta.
  destruct (split_dot_lengths (to_string x)) as [Hip Hparts].
  set (ip := nth 0 (JSString.split_dot (to_string x)) EmptyString) in *.
  set (dp := nth 1 (JSString.split_dot (to_string x)) EmptyString) in *.
  pose proof (len_nonneg dp) as Hdp. pose proof (len_nonneg ip) as Hip0.
  replace (JSString.len dp <? d) with true by (symmetry; apply Z.ltb_lt; lia).
  unfold bind at 1. unfold bind at 1.
  destruct (Z.le_gt_cases (d - JSString.len dp) max_string_length) as [Hle|Hgt].
  - rewrite new_Array_join0_fits by lia. cbv beta iota.
    unfold built at 1.
    replace (max_string_length <? JSString.len (dp ++ _)) with true; [done|].
    symmetry. apply Z.ltb_lt. rewrite len_app, len_zeros. lia.
  - by rewrite new_Array_join0_long by lia.
Qed.


End Exponent.

End DataFormatFacts.

(** ** [retainDecimal] on numbers in exponent notation *)

Module ExponentNotation.

Import JSNumber DataFormat JSStringFacts JSNumberFacts DataFormatFacts.




Lemma length_take_le n (s : string) :
  (n <= String.length s)%nat -> String.length (JSString.take n s) = n.
Proof.
  revert n. induction s as [|c s IH]; intros [|n] H; simpl in *; try done; [lia|].
  rewrite IH; [done|lia].
Qed.



(** Where the notation changes: [1e21] and [9.99e-7] are written with an
    exponent, [999999999999999900000] and [0.000001] are not. *)
Lemma exponent_notation_bounds :
  to_string (literal "1e21") = "1e+21"
  /\ exponent_notation (literal "1e21") = true
  /\ exponent_notation (literal "999999999999999900000") = false
  /\ to_string (literal "9.99e-7") = "9.99e-7"
  /\ exponent_notation (literal "9.99e-7") = true
  /\ exponent_notation (literal "0.000001") = false.
Proof. repeat split; vm_compute; reflexivity. Qed.




End ExponentNotation.

(** * [clone]: functions after the JSON round trip *)

Module CloneFacts.

Import JSNumber Clone.

#[local] Open Scope nat_scope.

(** The example of the documentation: in
    [clone({a: 1, f: f, arr: [{g: g}]})] the number is kept, [f] and [g]
    are the source's functions, and the object, the array and the object
    in it are new ([f], dropped by [JSON.stringify], comes back as the
    last key). *)
Lemma clone_object_functions f g :
  clone
    (VObject 0 [("a", VNumber (literal "1")); ("f", VFunction f);
                ("arr", VArray 1 [VObject 2 [("g", VFunction g)]])]) 3
  = Some
      (VObject 3 [("a", VNumber (literal "1"));
                  ("arr", VArray 4 [VObject 5 [("g", VFunction g)]]);
                  ("f", VFunction f)]).
Proof. vm_compute. reflexivity. Qed.

(** A function that is an element of the array given to [clone] is
    restored: the [for-in] loop of line 10 runs over the indices. *)
Lemma clone_array_function f l next :
  clone (VArray l [VFunction f]) next = Some (VArray next [VFunction f]).
Proof. reflexivity. Qed.

(** *** Functions that are elements of an array *)

(** [JSON.stringify] writes every function of an array as [null]. *)
Lemma stringify_functions fs :
  map (fun e => default JNull (serialize e)) (map VFunction fs)
  = map (fun _ => JNull) fs.
Proof. induction fs as [|f fs IH]; simpl; [done|]. by rewrite IH. Qed.

(** [JSON.parse] reads them back as [null], and makes no object. *)
Lemma parse_nulls (fs : list nat) acc next :
  fold_left
    (fun acc e => let '(v, n) := parse e (snd acc) in ((fst acc ++ [v])%list, n))
    (map (fun _ => JNull) fs) (acc, next)
  = ((acc ++ map (fun _ => VNull) fs)%list, next).
Proof.
  revert acc. induction fs as [|f fs IH]; intros acc; simpl.
  - by rewrite app_nil_r.
  - rewrite IH. by rewrite <- app_assoc.
Qed.

Lemma nulls_no_container (gs : list nat) i :
  is_container (default VUndefined (map (fun _ => VNull) gs !! i)) = false.
Proof.
  revert i. induction gs as [|g gs IH]; intros [|i]; simpl; done.
Qed.

(** The callback of line 19, given a function as [item], leaves the
    array of [null]s as it is: line 7 returns before any assignment. *)
Lemma forEach_functions fs l (gs : list nat) index :
  forEach
    (fun item index arr =>
       at_key arr (KIndex index) (processPropertyIsFunction item))
    (map VFunction fs) index (VArray l (map (fun _ => VNull) gs))
  = Some (VArray l (map (fun _ => VNull) gs)).
Proof.
  revert index. induction fs as [|f fs IH]; intros index; simpl; [done|].
  unfold at_key at 1. cbn [get processPropertyIsFunction].
  rewrite nulls_no_container. apply IH.
Qed.

(** C1. Functions that are elements of an array held by a property are
    not restored. [JSON.stringify] writes each as [null]; for the array,
    line 19 gives every element to [processPropertyIsFunction] as its
    [source], and line 7 returns at once for an element that is a
    function. So [clone({arr: [f1, ..., fn]})] is
    [{arr: [null, ..., null]}], for all functions [f1] ... [fn]. *)
Theorem clone_function_in_array fs l1 l2 next :
  clone (VObject l1 [("arr", VArray l2 (map VFunction fs))]) next
  = Some (VObject next [("arr", VArray (S next) (map (fun _ => VNull) fs))]).
Proof.
  unfold clone, stringify.
  assert (serializable (VObject l1 [("arr", VArray l2 (map VFunction fs))])
          = true) as ->.
  { cbn. rewrite andb_true_r. by induction fs. }
  cbn [serialize fold_right fst snd].
  rewrite stringify_functions.
  cbn [parse fold_left fst snd]. rewrite parse_nulls.
  cbn [app processPropertyIsFunction].
  change (hasOwnProperty [("arr", VArray l2 (map VFunction fs))] "arr")
    with (Some true).
  unfold at_key at 1.
  change (get (VObject next [("arr", VArray (S next) (map (fun _ => VNull) fs))])
            (KName "arr"))
    with (Some (VArray (S next) (map (fun _ : nat => VNull) fs))).
  cbv beta iota. rewrite forEach_functions. reflexivity.
Qed.

(** [clone({arr: [f]})] is [{arr: [null]}]. *)
Lemma clone_one_function_in_array f :
  clone (VObject 0 [("arr", VArray 1 [VFunction f])]) 2
  = Some (VObject 2 [("arr", VArray 3 [VNull])]).
Proof. reflexivity. Qed.

(** The same for an array in an array: [clone([[f]])] is [[[null]]]. *)
Lemma clone_function_in_nested_array f l1 l2 next :
  clone (VArray l1 [VArray l2 [VFunction f]]) next
  = Some (VArray next [VArray (S next) [VNull]]).
Proof. reflexivity. Qed.

End CloneFacts.

(** ** More on the formatter: values that are no numbers, and bounds *)

Module FormatterFacts.

Import JSNumber DataFormat JSStringFacts JSNumberFacts DataFormatFacts.

#[local] Arguments of_Z : simpl never.
#[local] Arguments of_string : simpl never.
#[local] Arguments to_string : simpl never.
#[local] Arguments round : simpl never.
#[local] Arguments div : simpl never.
#[local] Arguments mul : simpl never.
#[local] Arguments add : simpl never.
#[local] Arguments retainDecimal : simpl never.

Section Values.

Variable toLocaleString : number -> string.
Variable localTZA : Z -> Z.


(** X2. With [null] for its options [numberFormat] throws a TypeError,
    for every value: [typeof null] is ['object'], so the options are
    kept, and reading [formatOption.small] or [formatOption.large] fails. *)
Theorem numberFormat_null_throws v h :
  (numberFormat toLocaleString v FONull h).1 = Throw TypeError.
Proof. by destruct v. Qed.

End Values.


(** *** [retainDecimal]: the length of the strings *)

(** The numbers of the format have a text of less than a thousand
    characters. *)
Lemma canonical_length x :
  canonical x = true -> JSString.len (to_string x) <= 1000.
Proof.
  intros Hc. apply to_string_length. destruct x as [| |neg m e]; try done.
  unfold canonical in Hc.
  apply andb_true_iff in Hc as [Hc _]. apply andb_true_iff in Hc as [Hc He2].
  apply andb_true_iff in Hc as [Hc He1]. apply andb_true_iff in Hc as [Hm1 Hm2].
  apply Z.leb_le in Hm1, He1, He2. apply Z.ltb_lt in Hm2. lia.
Qed.

Lemma mul_length x y : JSString.len (to_string (mul x y)) <= 1000.
Proof.
  apply to_string_length.
  destruct x as [| |nx mx ex], y as [| |ny my ey]; unfold mul; try done.
  - by destruct (my =? 0).
  - by destruct (mx =? 0).
  - apply round_ratio_range. apply Z.pow_pos_nonneg; lia.
Qed.

(** Where the strings fit, a string is returned. *)
Lemma retainDecimal_returns x d f h :
  JSString.len (to_string x) <= 1000 ->
  d + JSString.len (to_string x) + 2 <= max_string_length ->
  exists s, retainDecimal (VNumber x) (Some d) f h = (Ok (VString s), h).
Proof.
  intros Hlen Hfit.
  assert (retainDecimal (VNumber x) (Some d) f h
          = retainDecimal (VNumber x) (Some d) (Some (default true f)) h) as ->
    by (by destruct f).
  destruct (Z.ltb_spec d 0) as [Hneg|Hpos].
  - assert (retainDecimal (VNumber x) (Some d) (Some (default true f)) h
            = retainDecimal (VNumber x) (Some 2) (Some (default true f)) h) as ->.
    { unfold retainDecimal. change (default 2 (Some d)) with d.
      by replace (d <? 0) with true by (symmetry; apply Z.ltb_lt; lia). }
    rewrite retainDecimal_steps; [by eexists|lia|].
    unfold max_string_length. lia.
  - destruct (Z.eq_dec d 0) as [->|Hd0]; [by eexists|].
    rewrite retainDecimal_steps by lia. by eexists.
Qed.

(** X3. For a number, [retainDecimal] returns a string and leaves the
    store as it is when the strings it builds fit the engine: when
    [decimal], the length of the number's text and 2 are together
    within the longest string. When [decimal] itself exceeds the longest
    string, the zeros of line 162 do not make a string (or, from
    2^32 - 1 on, not even an array), and the call throws a RangeError. *)
Theorem retainDecimal_padding x d f h :
  canonical x = true ->
  (d + JSString.len (to_string x) + 2 <= max_string_length ->
   exists s, retainDecimal (VNumber x) (Some d) f h = (Ok (VString s), h))
  /\ (max_string_length < d ->
      retainDecimal (VNumber x) (Some d) f h = (Throw RangeError, h)).
Proof.
  intros Hc. pose proof (canonical_length x Hc) as Hlen. split.
  - by apply retainDecimal_returns.
  - intros Hd. apply retainDecimal_long; [done|].
    unfold max_string_length. lia.
Qed.

(** An instance of X3: [retainDecimal(1, 2)] returns a string, and
    [retainDecimal(1, 4294967294)] throws. *)
Lemma retainDecimal_padding_witness :
  (exists s,
     retainDecimal (VNumber (literal "1")) (Some 2) None []
     = (Ok (VString s), []))
  /\ retainDecimal (VNumber (literal "1")) (Some 4294967294) None []
     = (Throw RangeError, []).
Proof.
  split.
  - apply (proj1 (retainDecimal_padding (literal "1") 2 None [] eq_refl)).
    by vm_compute.
  - apply (proj2 (retainDecimal_padding (literal "1") 4294967294 None []
                    eq_refl)).
    by vm_compute.
Defined.

End FormatterFacts.

(** ** More on the formatter: how the methods combine *)

Module FormatterShapes.

Import JSNumber DataFormat JSStringFacts JSNumberFacts DataFormatFacts.
Import FormatterFacts.

#[local] Arguments of_Z : simpl never.
#[local] Arguments of_string : simpl never.
#[local] Arguments to_string : simpl never.
#[local] Arguments round : simpl never.
#[local] Arguments div : simpl never.
#[local] Arguments mul : simpl never.
#[local] Arguments add : simpl never.
#[local] Arguments retainDecimal : simpl never.

(** The [decimal] that [smallNumberFormat] works with, lines 69-73. *)
Lemma lookup_set_decimal (h : heap) l r d :
  h !! l = Some r ->
  alter (set_decimal d) l h !! l = Some (set_decimal d r).
Proof. intros Hl. by rewrite list_lookup_alter_eq, Hl. Qed.

(** [smallNumberFormat] on a number and a record: what
    [retainDecimal] gives, with the ['0'] in front when asked for. *)
Lemma smallNumberFormat_outcome x l r h :
  h !! l = Some r ->
  (smallNumberFormat (VNumber x) (Some l) h).1
  = match (retainDecimal (VNumber x) (Some (small_decimal r))
             (isRemoveExtraZero r) h).1 with
    | Ok (VString text) =>
        Ok (VString ((if truthy (isFillZeroInFront r) && ltb (abs x) (of_Z 10)
                      then "0" else "") ++ text))
    | other => other
    end.
Proof.
  intros Hl.
  assert (forall h' : heap, h' !! l = Some (set_decimal (Some (small_decimal r)) r) ->
          (let (r0, h'0) :=
             retainDecimal (VNumber x)
               (decimal (default empty_options (h' !! l)))
               (isRemoveExtraZero (default empty_options (h' !! l))) h' in
           match r0 with
           | Ok a0 =>
               (if truthy (isFillZeroInFront (default empty_options (h' !! l)))
                   && ltb (abs x) (of_Z 10)
                then let* s := to_string_value a0 in ret (VString ("0" ++ s))
                else ret a0) h'0
           | Throw e => (Throw e, h'0)
           end).1
          = match (retainDecimal (VNumber x) (Some (small_decimal r))
                     (isRemoveExtraZero r) h).1 with
            | Ok (VString text) =>
                Ok (VString ((if truthy (isFillZeroInFront r)
                                 && ltb (abs x) (of_Z 10)
                              then "0" else "") ++ text))
            | other => other
            end) as Hbody.
  { intros h' Hl'. rewrite Hl'.
    cbn [default from_option id set_decimal decimal isRemoveExtraZero
         isFillZeroInFront].
    rewrite (retainDecimal_pure _ _ _ h'), (retainDecimal_pure _ _ _ h).
    cbn [fst].
    destruct (retainDecimal_number x (Some (small_decimal r))
                (isRemoveExtraZero r) []) as [[text Ht]|Ht]; rewrite Ht; cbn [fst].
    - run. by destruct (truthy _ && _).
    - reflexivity. }
  unfold smallNumberFormat. run. cbv beta iota zeta.
  rewrite Hl. cbn [default from_option id].
  unfold small_decimal in *.
  destruct (decimal r) as [d|] eqn:Ed; [destruct (d <? 0) eqn:Eneg|];
    cbv beta iota; run; apply Hbody.
  - by apply lookup_set_decimal.
  - rewrite Hl. f_equal. destruct r; simpl in *. by subst.
  - by apply lookup_set_decimal.
Qed.

(** X4. [smallNumberFormat] on a number is [retainDecimal] with the
    record's [decimal], or 8 when that is absent, NaN or negative (not
    the 2 of [retainDecimal] itself), and the text gets a ['0'] in front
    when [isFillZeroInFront] is set and the magnitude is below 10, also
    for a negative number. Without a record the text is that of
    [retainDecimal(value, 8, true)]. *)
Theorem smallNumberFormat_text x l r h text :
  h !! l = Some r ->
  (retainDecimal (VNumber x) (Some (small_decimal r)) (isRemoveExtraZero r) h).1
  = Ok (VString text) ->
  (smallNumberFormat (VNumber x) (Some l) h).1
  = Ok (VString ((if truthy (isFillZeroInFront r) && ltb (abs x) (of_Z 10)
                  then "0" else "") ++ text))
  /\ (smallNumberFormat (VNumber x) None h).1
     = (retainDecimal (VNumber x) (Some 8) (Some true) h).1.
Proof.
  intros Hl Ht. split.
  - by rewrite (smallNumberFormat_outcome x l r h Hl), Ht.
  - unfold smallNumberFormat. run. cbv beta iota zeta.
    rewrite !lookup_fresh. cbn [default decimal id from_option].
    change (8 <? 0) with false. cbv beta iota. rewrite lookup_fresh.
    cbn [default decimal isRemoveExtraZero isFillZeroInFront truthy andb
         id from_option].
    rewrite (retainDecimal_pure _ _ _ (h ++ _)%list).
    rewrite (retainDecimal_pure _ _ _ h). cbn [fst].
    by destruct (retainDecimal _ _ _ []).1.
Qed.

(** An instance of X4: [smallNumberFormat(-5, { decimal: 0,
    isFillZeroInFront: true })] is ["0-5"]. *)
Lemma smallNumberFormat_text_witness :
  (smallNumberFormat (VNumber (literal "-5")) (Some 0%nat) [two_digit_options]).1
  = Ok (VString "0-5").
Proof.
  apply (smallNumberFormat_text (literal "-5") 0%nat two_digit_options
           [two_digit_options] "-5" eq_refl).
  vm_compute. reflexivity.
Defined.

Section NumberOption.

Variable toLocaleString : number -> string.

(** X5. [numberFormat] with a number [d] for its options: a value of
    magnitude below 10 is formatted as [retainDecimal(value, d, true)],
    with 8 for a [d] that is NaN or negative; any other number is divided
    by the divisor of its unit and formatted as
    [retainDecimal(quotient, d, true)] (where a NaN or negative [d]
    counts as 2), followed by the unit. *)
Theorem numberFormat_number_option x d h :
  (ltb (abs x) (of_Z 10) = true ->
   (numberFormat toLocaleString (VNumber x) (FONumber d) h).1
   = (retainDecimal (VNumber x)
        (Some (match d with
               | Some d' => if d' <? 0 then 8 else d'
               | None => 8
               end)) (Some true) h).1)
  /\ (ltb (abs x) (of_Z 10) = false ->
      forall text,
        (retainDecimal (VNumber (div x (unit_and_divisor (abs x)).2))
           d (Some true) h).1 = Ok (VString text) ->
        (numberFormat toLocaleString (VNumber x) (FONumber d) h).1
        = Ok (VString (text ++ (unit_and_divisor (abs x)).1))).
Proof.
  split.
  - intros Hx. unfold numberFormat. run. cbv beta iota zeta. rewrite Hx.
    set (small := {| decimal := d; isRemoveExtraZero := Some true;
                     isFillZeroInFront := Some false;
                     isSplitValueAndUnit := None;
                     isAttachThousandSymbol := None |}).
    set (large := {| decimal := d; isRemoveExtraZero := Some true;
                     isFillZeroInFront := None;
                     isSplitValueAndUnit := None;
                     isAttachThousandSymbol := None |}).
    assert (((h ++ [small]) ++ [large])%list !! length h = Some small) as Hl.
    { rewrite lookup_app_l by (rewrite List.length_app; simpl; lia).
      apply lookup_fresh. }
    rewrite (smallNumberFormat_outcome x _ small _ Hl).
    change (isRemoveExtraZero small) with (Some true).
    change (truthy (isFillZeroInFront small)) with false. cbn [andb].
    change (small_decimal small)
      with (match d with
            | Some d' => if d' <? 0 then 8 else d'
            | None => 8
            end).
    rewrite (retainDecimal_pure _ _ _ (_ ++ _)%list).
    rewrite (retainDecimal_pure _ _ _ h). cbn [fst].
    destruct (retainDecimal_number x
                (Some (match d with
                       | Some d' => if d' <? 0 then 8 else d'
                       | None => 8
                       end)) (Some true) []) as [[text Ht]|Ht];
      by rewrite Ht.
  - intros Hx text Ht. unfold numberFormat. run. cbv beta iota zeta. rewrite Hx.
    set (small := {| decimal := d; isRemoveExtraZero := Some true;
                     isFillZeroInFront := Some false;
                     isSplitValueAndUnit := None;
                     isAttachThousandSymbol := None |}).
    set (large := {| decimal := d; isRemoveExtraZero := Some true;
                     isFillZeroInFront := None;
                     isSplitValueAndUnit := None;
                     isAttachThousandSymbol := None |}).
    assert (((h ++ [small]) ++ [large])%list !! S (length h) = Some large) as Hl.
    { replace (S (length h)) with (length (h ++ [small])%list)
        by (rewrite List.length_app; simpl; lia).
      apply lookup_fresh. }
    replace (length (h ++ [small])%list) with (S (length h))
      by (rewrite List.length_app; simpl; lia).
    rewrite (largeNumberFormat_shape toLocaleString x _ large _ text Hl).
    + reflexivity.
    + change (decimal large) with d.
      change (isRemoveExtraZero large) with (Some true).
      rewrite retainDecimal_pure. rewrite retainDecimal_pure in Ht. exact Ht.
Qed.

End NumberOption.

(** An instance of X5: [numberFormat(3.14159, 2)] is ["3.14"] and
    [numberFormat(123456, 1)] is ["12.3万"]. *)
Lemma numberFormat_number_option_witness :
  (numberFormat to_string (VNumber (literal "3.14159")) (FONumber (Some 2)) []).1
  = (retainDecimal (VNumber (literal "3.14159")) (Some 2) (Some true) []).1
  /\ (numberFormat to_string (VNumber (literal "123456")) (FONumber (Some 1)) []).1
     = Ok (VString "12.3万").
Proof.
  split.
  - apply (proj1 (numberFormat_number_option to_string (literal "3.14159")
                    (Some 2) [])).
    vm_compute. reflexivity.
  - apply (proj2 (numberFormat_number_option to_string (literal "123456")
                    (Some 1) []) eq_refl "12.3").
    vm_compute. reflexivity.
Defined.

(** *** [percentFormat] *)

Lemma abs_opp x : abs (opp x) = abs x.
Proof. by destruct x. Qed.

(** X6. [percentFormat] on a number returns the sign, the text of
    [retainDecimal(Math.abs(value) * 100, 2)] and ['%'], and leaves the
    store as it is. With [isAttachSymbol] the sign is ['+'] above zero,
    ['-'] below zero and also for NaN, and nothing for either zero;
    without it there is no sign, so that a number and its opposite give
    the same text. *)
Theorem percentFormat_sign x sym h :
  canonical x = true ->
  exists text,
    retainDecimal (VNumber (mul (abs x) (of_Z 100))) (Some 2) None h
    = (Ok (VString text), h)
    /\ percentFormat (VNumber x) sym h
       = (Ok (VString
                ((if default true sym then
                    match x with
                    | NaN => "-"
                    | Infinity neg => if neg then "-" else "+"
                    | Finite neg m _ =>
                        if m =? 0 then "" else if neg then "-" else "+"
                    end
                  else "") ++ text ++ "%")), h)
    /\ percentFormat (VNumber (opp x)) (Some false) h
       = percentFormat (VNumber x) (Some false) h.
Proof.
  intros Hc.
  pose proof (mul_length (abs x) (of_Z 100)) as Hlen.
  destruct (retainDecimal_returns (mul (abs x) (of_Z 100)) 2 None h)
    as [text Ht]; [done|unfold max_string_length; lia|].
  exists text. split; [exact Ht|]. split.
  - unfold percentFormat. unfold bind at 1. rewrite Ht. run.
    do 3 f_equal.
    destruct (default true sym); [|done]. cbn [andb].
    change (of_Z 0) with (Finite false 0 (-1074)).
    destruct x as [| [|] | neg m e]; try done.
    unfold canonical in Hc. unfold eqb, ltb, scaled.
    repeat (apply andb_true_iff in Hc as [Hc ?]).
    apply Z.leb_le in Hc.
    assert (-1074 <= e) by (by apply Z.leb_le).
    assert (0 < 2 ^ (e + 1074)) by (apply Z.pow_pos_nonneg; lia).
    change (0 * 2 ^ (-1074 + 1074)) with 0.
    destruct (Z.eqb_spec m 0) as [->|Hm].
    + by destruct neg.
    + destruct neg.
      * replace (- m * 2 ^ (e + 1074) =? 0) with false
          by (symmetry; apply Z.eqb_neq; nia).
        replace (0 <? - m * 2 ^ (e + 1074)) with false
          by (symmetry; apply Z.ltb_ge; nia).
        done.
      * replace (m * 2 ^ (e + 1074) =? 0) with false
          by (symmetry; apply Z.eqb_neq; nia).
        replace (0 <? m * 2 ^ (e + 1074)) with true
          by (symmetry; apply Z.ltb_lt; nia).
        done.
  - unfold percentFormat. by rewrite abs_opp.
Qed.

(** An instance of X6: [percentFormat(-0.1234)] is ["-12.34%"]. *)
Lemma percentFormat_sign_witness :
  exists text,
    retainDecimal (VNumber (mul (abs (literal "-0.1234")) (of_Z 100)))
      (Some 2) None [] = (Ok (VString text), [])
    /\ percentFormat (VNumber (literal "-0.1234")) None []
       = (Ok (VString ("-" ++ text ++ "%")), [])
    /\ percentFormat (VNumber (opp (literal "-0.1234"))) (Some false) []
       = percentFormat (VNumber (literal "-0.1234")) (Some false) [].
Proof.
  apply (percentFormat_sign (literal "-0.1234") None [] eq_refl).
Defined.

End FormatterShapes.

(** ** Integers below [2^53]: their numbers and their numerals *)

Module SafeIntegers.

Import JSNumber JSStringFacts JSNumberFacts.

(** *** The decimal digits of an integer *)

Lemma digits_from_acc fuel z acc :
  digits_from fuel z acc = digits_from fuel z "" ++ acc.
Proof.
  revert z acc. induction fuel as [|fuel IH]; intros z acc; simpl; [done|].
  destruct (z <? 10); [done|].
  rewrite IH, (IH _ (String _ "")). by rewrite app_assoc.
Qed.

Lemma pow10_succ (k : nat) : 10 ^ Z.of_nat (S k) = 10 * 10 ^ Z.of_nat k.
Proof.
  replace (Z.of_nat (S k)) with (Z.succ (Z.of_nat k)) by lia.
  apply Z.pow_succ_r. lia.
Qed.

(** The digits do not depend on the fuel, once there is enough. *)
Lemma digits_from_fuel f1 f2 z acc :
  0 <= z < 10 ^ Z.of_nat (S f1) -> z < 10 ^ Z.of_nat (S f2) ->
  digits_from (S f1) z acc = digits_from (S f2) z acc.
Proof.
  revert f2 z acc. induction f1 as [|f1 IH]; intros f2 z acc H1 H2.
  - simpl in H1. cbn [digits_from].
    by replace (z <? 10) with true by (symmetry; apply Z.ltb_lt; lia).
  - cbn [digits_from]. destruct (Z.ltb_spec z 10) as [Hlt|Hge]; [done|].
    destruct f2 as [|f2]; [simpl in H2; lia|].
    fold (digits_from (S f1)). fold (digits_from (S f2)).
    rewrite pow10_succ in H1, H2.
    apply IH.
    + split; [apply Z.div_pos; lia|]. apply Z.div_lt_upper_bound; lia.
    + apply Z.div_lt_upper_bound; lia.
Qed.

Lemma pow2_le_pow10 (k : nat) : 2 ^ Z.of_nat k <= 10 ^ Z.of_nat k.
Proof. apply Z.pow_le_mono_l. lia. Qed.

Lemma digits_of_fuel z f :
  0 <= z < 10 ^ Z.of_nat (S f) -> digits_of z = digits_from (S f) z "".
Proof.
  intros Hz. unfold digits_of. apply digits_from_fuel; [|lia].
  split; [lia|].
  destruct (Z.eq_dec z 0) as [->|Hne]; [simpl; lia|].
  pose proof (Z.log2_spec z ltac:(lia)) as [_ Hhi].
  pose proof (Z.log2_nonneg z).
  eapply Z.lt_le_trans; [apply Hhi|].
  replace (Z.succ (Z.log2 z)) with (Z.of_nat (S (Z.to_nat (Z.log2 z)))) by lia.
  apply pow2_le_pow10.
Qed.

(** The last digit and the digits before it. *)
Lemma digits_of_step z :
  0 <= z ->
  digits_of z
  = if z <? 10 then String (digit_char z) ""
    else digits_of (z / 10) ++ String (digit_char (z mod 10)) "".
Proof.
  intros Hz.
  assert (exists f, z < 10 ^ Z.of_nat (S f)) as [f Hf].
  { exists (Z.to_nat (Z.log2 z)).
    destruct (Z.eq_dec z 0) as [->|Hne]; [simpl; lia|].
    pose proof (Z.log2_spec z ltac:(lia)) as [_ Hhi].
    pose proof (Z.log2_nonneg z).
    eapply Z.lt_le_trans; [apply Hhi|].
    replace (Z.succ (Z.log2 z)) with (Z.of_nat (S (Z.to_nat (Z.log2 z)))) by lia.
    apply pow2_le_pow10. }
  rewrite (digits_of_fuel z f) by lia. cbn [digits_from].
  destruct (Z.ltb_spec z 10) as [Hlt|Hge].
  - by rewrite Z.mod_small by lia.
  - rewrite digits_from_acc.
    destruct f as [|f]; [simpl in Hf; lia|].
    rewrite pow10_succ in Hf.
    rewrite <- (digits_of_fuel (z / 10) f); [done|].
    split; [apply Z.div_pos; lia|]. apply Z.div_lt_upper_bound; lia.
Qed.

Lemma zeros_snoc n : JSString.zeros n ++ "0" = JSString.zeros (S n).
Proof. induction n as [|n IH]; simpl; [done|]. by rewrite IH. Qed.

(** A multiple of a power of ten ends in that many zeros. *)
Lemma digits_of_shift s (j : nat) :
  0 < s -> digits_of (s * 10 ^ Z.of_nat j) = digits_of s ++ JSString.zeros j.
Proof.
  intros Hs. induction j as [|j IH].
  - simpl. by rewrite Z.mul_1_r, app_nil_r.
  - rewrite pow10_succ.
    assert (0 < 10 ^ Z.of_nat j) by (apply Z.pow_pos_nonneg; lia).
    rewrite digits_of_step by nia.
    replace (s * (10 * 10 ^ Z.of_nat j) <? 10) with false
      by (symmetry; apply Z.ltb_ge; nia).
    replace (s * (10 * 10 ^ Z.of_nat j)) with (s * 10 ^ Z.of_nat j * 10) by lia.
    rewrite Z.div_mul, Z.mod_mul by lia.
    rewrite IH, app_assoc. f_equal. apply zeros_snoc.
Qed.

(** *** The value of a numeral *)

Lemma digits_value_app acc a b :
  digits_value acc (a ++ b) = digits_value (digits_value acc a) b.
Proof. revert acc. induction a as [|c a IH]; intros acc; simpl; [done|]. apply IH. Qed.

Lemma digits_value_zeros acc n :
  digits_value acc (JSString.zeros n) = acc * 10 ^ Z.of_nat n.
Proof.
  revert acc. induction n as [|n IH]; intros acc.
  - simpl. lia.
  - cbn [JSString.zeros digits_value]. rewrite IH, pow10_succ.
    change (code "0" - 48) with 0. lia.
Qed.

(** Reading the digits of an integer gives the integer back. *)
Lemma digits_value_digits_of z : 0 <= z -> digits_value 0 (digits_of z) = z.
Proof.
  intros Hz. generalize Hz. pattern z. apply Z_lt_induction; [|done].
  clear z Hz. intros z IH Hz.
  rewrite digits_of_step by done.
  destruct (Z.ltb_spec z 10) as [Hlt|Hge].
  - simpl. rewrite code_digit_char by lia. lia.
  - rewrite digits_value_app, IH.
    + simpl. rewrite code_digit_char by (apply Z.mod_pos_bound; lia).
      pose proof (Z.div_mod z 10 ltac:(lia)). lia.
    + split; [apply Z.div_pos; lia|]. apply Z.div_lt_upper_bound; lia.
    + apply Z.div_pos; lia.
Qed.

(** *** The text of an integer *)

(** From [2^53] on, the exponent of an integer is positive. *)
Lemma round_ratio_large neg q :
  2 ^ 53 <= q ->
  match round_ratio neg q 1 with
  | Finite _ _ e => 1 <= e
  | _ => True
  end.
Proof.
  intros Hq. unfold round_ratio.
  assert (0 < q) as Hpos by (pose proof (Z.pow_pos_nonneg 2 53); lia).
  replace (q <=? 0) with false by (symmetry; apply Z.leb_gt; lia).
  cbv zeta. change (Z.log2 1) with 0. rewrite Z.sub_0_r.
  assert (53 <= Z.log2 q) as Hl by (by apply Z.log2_le_pow2).
  pose proof (Z.log2_spec q Hpos) as [Hlo _].
  set (l := Z.log2 q) in *.
  replace (Z.max 0 (- l)) with 0 by lia.
  replace (Z.max 0 l) with l by lia.
  rewrite Z.pow_0_r, Z.mul_1_r, !Z.mul_1_l.
  replace (q <? 2 ^ l) with false by (symmetry; apply Z.ltb_ge; lia).
  replace (Z.max (-1074) (l - 52)) with (l - 52) by lia.
  repeat match goal with
         | |- context [if ?b then _ else _] => destruct b
         end; try done; lia.
Qed.

(** Of the integers, only [n] converts to the number of [n]. *)
Lemma converts_integer n s sc :
  0 < n < 2 ^ 53 -> 0 <= sc -> 0 <= s ->
  converts_to (n * 2 ^ (52 - Z.log2 n)) (Z.log2 n - 52) s sc = true ->
  s * 10 ^ sc = n.
Proof.
  intros Hn Hsc Hs. unfold converts_to.
  replace (Z.max 0 sc) with sc by lia. replace (Z.max 0 (- sc)) with 0 by lia.
  rewrite Z.pow_0_r.
  assert (0 < 10 ^ sc) by (apply Z.pow_pos_nonneg; lia).
  set (q := s * 10 ^ sc).
  assert (0 <= q) by (unfold q; nia).
  pose proof (Z.log2_nonneg n) as Hl0.
  assert (Z.log2 n < 53) as Hl53 by (apply Z.log2_lt_pow2; lia).
  destruct (Z.eq_dec q 0) as [->|Hq0].
  - change (round_ratio false 0 1) with (Finite false 0 (-1074)).
    intros [Hm _]%andb_true_iff. apply Z.eqb_eq in Hm.
    assert (0 < 2 ^ (52 - Z.log2 n)) by (apply Z.pow_pos_nonneg; lia). nia.
  - destruct (Z.lt_ge_cases q (2 ^ 53)) as [Hlt|Hge].
    + rewrite round_ratio_integer by lia.
      intros [Hm He]%andb_true_iff. apply Z.eqb_eq in Hm, He.
      assert (Z.log2 q = Z.log2 n) as Hl by lia. rewrite Hl in Hm.
      assert (0 < 2 ^ (52 - Z.log2 n)) by (apply Z.pow_pos_nonneg; lia). nia.
    + pose proof (round_ratio_large false q Hge) as Hbig.
      destruct (round_ratio false q 1) as [| |b m' e']; try done.
      intros [_ He]%andb_true_iff. apply Z.eqb_eq in He. lia.
Qed.

(** The text of a positive integer below [2^53] is its decimal numeral. *)
Lemma to_string_integer_digits neg n :
  0 < n < 2 ^ 53 ->
  to_string (round_ratio neg n 1) = (if neg then "-" else "") ++ digits_of n.
Proof.
  intros Hn. rewrite round_ratio_integer by done.
  pose proof (Z.log2_spec n ltac:(lia)) as [Hlo Hhi].
  pose proof (Z.log2_nonneg n) as Hl0.
  assert (Z.log2 n < 53) as Hl53 by (apply Z.log2_lt_pow2; lia).
  pose proof (converts_integer n) as Hconv.
  set (l := Z.log2 n) in *.
  set (m := n * 2 ^ (52 - l)) in *. set (e := l - 52) in *.
  assert (0 < 2 ^ (52 - l)) as Hden by (apply Z.pow_pos_nonneg; lia).
  assert (0 < m) as Hm by (unfold m; nia).
  unfold to_string. replace (m =? 0) with false by (symmetry; apply Z.eqb_neq; lia).
  unfold shortest.
  replace (Z.max 0 e) with 0 by (unfold e; lia).
  replace (Z.max 0 (- e)) with (52 - l) by (unfold e; lia).
  rewrite Z.pow_0_r, Z.mul_1_r.
  set (den := 2 ^ (52 - l)) in *.
  assert (m / den = n) as Hq by (unfold m; apply Z.div_mul; lia).
  assert (decimal_exponent m den = ndigits n) as Hn0.
  { unfold decimal_exponent.
    replace (den <=? m) with true by (symmetry; apply Z.leb_le; unfold m; nia).
    by rewrite Hq. }
  rewrite Hn0. set (n0 := ndigits n).
  pose proof (ndigits_pos n) as Hn0pos.
  assert (n0 <= 16) as Hn016.
  { apply ndigits_le; [lia|]. split; [lia|].
    eapply Z.lt_le_trans; [apply Hn|]. by vm_compute. }
  pose proof (digits_of_bound n ltac:(lia)) as Hbound. fold n0 in Hbound.
  assert (exists s0, digits_at m den m e n0 n0 = Some s0) as [s0 Hs0].
  { unfold digits_at. cbv zeta. rewrite Z.sub_diag. simpl Z.max.
    rewrite Z.pow_0_r, !Z.mul_1_r, Hq.
    assert (converts_to m e n 0 = true) as ->.
    { unfold converts_to. simpl Z.max. rewrite Z.pow_0_r, Z.mul_1_r.
      rewrite round_ratio_integer by done. fold l. fold m. fold e.
      by rewrite !Z.eqb_refl. }
    destruct (converts_to m e (n + 1) 0); eauto. }
  destruct (shortest_from_found 17 m den m e n0 1 n0 s0 ltac:(lia) Hs0)
    as (s & k & -> & Hk & Hs).
  pose proof (digits_at_converts _ _ _ _ _ _ _ Hs) as Hcs.
  apply digits_at_range in Hs. cbv zeta in Hs.
  replace (Z.max 0 (- (n0 - k))) with 0 in Hs by lia.
  replace (Z.max 0 (n0 - k)) with (n0 - k) in Hs by lia.
  rewrite Z.pow_0_r, Z.mul_1_r, <- Z.div_div, Hq in Hs
    by (try apply Z.pow_pos_nonneg; lia).
  assert (0 <= n / 10 ^ (n0 - k)) as Hlo'
    by (apply Z.div_pos; [lia|apply Z.pow_pos_nonneg; lia]).
  assert (s * 10 ^ (n0 - k) = n) as Hval by (apply Hconv; [done|lia|lia|done]).
  assert (0 < 10 ^ (n0 - k)) as Hp by (apply Z.pow_pos_nonneg; lia).
  assert (0 < s) as Hspos by nia.
  assert (digits_of n = digits_of s ++ JSString.zeros (Z.to_nat (n0 - k))) as Hds.
  { rewrite <- Hval at 1. rewrite <- (Z2Nat.id (n0 - k)) at 1 by lia.
    by apply digits_of_shift. }
  assert (n0 = JSString.len (digits_of s) + (n0 - k)) as Hlen.
  { unfold n0 at 1, ndigits. rewrite Hds, len_app. f_equal.
    unfold JSString.len. rewrite length_zeros. lia. }
  destruct (Z.eqb_spec s (10 ^ k)) as [Hten|Hten].
  - exfalso. rewrite Hten, <- Z.pow_add_r in Hval by lia.
    replace (k + (n0 - k)) with n0 in Hval by lia. lia.
  - unfold render.
    replace ((JSString.len (digits_of s) <=? n0) && (n0 <=? 21)) with true
      by (symmetry; apply andb_true_iff; split; apply Z.leb_le; lia).
    f_equal. rewrite Hds. do 2 f_equal. lia.
Qed.

(** [String(n)] for an integer [n] below [2^53] in magnitude. *)
Lemma to_string_of_Z n :
  Z.abs n < 2 ^ 53 ->
  to_string (of_Z n) = (if n <? 0 then "-" else "") ++ digits_of (Z.abs n).
Proof.
  intros Hn. destruct (Z.eq_dec n 0) as [->|Hn0]; [reflexivity|].
  unfold of_Z. apply to_string_integer_digits. lia.
Qed.

(** *** The number of an integer *)

(** An integer below [2^53] is a number, exactly. *)
Lemma of_Z_exact n :
  Z.abs n < 2 ^ 53 ->
  exists m e,
    of_Z n = Finite (n <? 0) m e
    /\ scaled (n <? 0) m e = n * 2 ^ 1074
    /\ canonical (Finite (n <? 0) m e) = true
    /\ (n = 0 -> m = 0)
    /\ (n <> 0 -> e <= 0 /\ m = Z.abs n * 2 ^ (- e)).
Proof.
  intros Hn. destruct (Z.eq_dec n 0) as [->|Hn0].
  - exists 0, (-1074). repeat split; done.
  - unfold of_Z. rewrite round_ratio_integer by lia.
    set (p := Z.abs n) in *.
    pose proof (Z.log2_spec p ltac:(lia)) as [Hlo Hhi].
    pose proof (Z.log2_nonneg p) as Hl0.
    assert (Z.log2 p < 53) as Hl53 by (apply Z.log2_lt_pow2; lia).
    set (l := Z.log2 p) in *.
    assert (0 < 2 ^ (52 - l)) as Hden by (apply Z.pow_pos_nonneg; lia).
    assert (2 ^ (52 - l) * 2 ^ (l - 52 + 1074) = 2 ^ 1074) as Hpow.
    { rewrite <- Z.pow_add_r by lia. f_equal. lia. }
    assert (2 ^ l * 2 ^ (52 - l) = 2 ^ 52) as Hpow2.
    { rewrite <- Z.pow_add_r by lia. f_equal. lia. }
    assert (2 ^ Z.succ l * 2 ^ (52 - l) = 2 ^ 53) as Hpow3.
    { rewrite <- Z.pow_add_r by lia. f_equal. lia. }
    exists (p * 2 ^ (52 - l)), (l - 52). repeat split; try lia.
    + unfold scaled. destruct (Z.ltb_spec n 0).
      * rewrite Z.mul_opp_l, <- Z.mul_assoc, Hpow. lia.
      * rewrite <- Z.mul_assoc, Hpow. lia.
    + unfold canonical.
      repeat (apply andb_true_iff; split); try (apply Z.leb_le; nia).
      * apply Z.ltb_lt. nia.
      * apply orb_true_iff. left. apply Z.leb_le. nia.
    + f_equal. f_equal. lia.
Qed.

Lemma ltb_of_Z a b :
  Z.abs a < 2 ^ 53 -> Z.abs b < 2 ^ 53 -> ltb (of_Z a) (of_Z b) = (a <? b).
Proof.
  intros Ha Hb.
  destruct (of_Z_exact a Ha) as (ma & ea & -> & Hsa & _).
  destruct (of_Z_exact b Hb) as (mb & eb & -> & Hsb & _).
  unfold ltb. rewrite Hsa, Hsb.
  assert (0 < 2 ^ 1074) by (by apply Z.pow_pos_nonneg).
  destruct (Z.ltb_spec a b); [apply Z.ltb_lt|apply Z.ltb_ge]; nia.
Qed.

Lemma abs_of_Z n : abs (of_Z n) = of_Z (Z.abs n).
Proof.
  unfold of_Z. replace (Z.abs (Z.abs n)) with (Z.abs n) by lia.
  replace (Z.abs n <? 0) with false by (symmetry; apply Z.ltb_ge; lia).
  unfold round_ratio. cbv zeta.
  repeat match goal with
         | |- context [if ?b then _ else _] => destruct b
         end; done.
Qed.

(** [Math.round] leaves an integer as it is. *)
Lemma round_of_Z n : Z.abs n < 2 ^ 53 -> round (of_Z n) = of_Z n.
Proof.
  intros Hn. destruct (Z.eq_dec n 0) as [->|Hn0]; [reflexivity|].
  destruct (of_Z_exact n Hn) as (m & e & Heq & _ & _ & _ & Hm).
  destruct (Hm Hn0) as [He ->]. rewrite Heq. unfold round.
  destruct (Z.leb_spec 0 e) as [|Hneg]; [done|].
  assert (0 < 2 ^ (- e)) as Hp by (apply Z.pow_pos_nonneg; lia).
  assert (2 ^ (1 - e) = 2 * 2 ^ (- e)) as ->.
  { replace (1 - e) with (Z.succ (- e)) by lia. apply Z.pow_succ_r. lia. }
  set (D := 2 ^ (- e)) in *.
  assert (((if n <? 0 then - (2 * (Z.abs n * D)) else 2 * (Z.abs n * D)) + D)
          / (2 * D) = n) as ->.
  { destruct (Z.ltb_spec n 0).
    - replace (- (2 * (Z.abs n * D)) + D) with ((2 * n + 1) * D) by lia.
      rewrite Z.div_mul_cancel_r by lia.
      symmetry. apply Z.div_unique with 1; lia.
    - replace (2 * (Z.abs n * D) + D) with ((2 * n + 1) * D) by lia.
      rewrite Z.div_mul_cancel_r by lia.
      symmetry. apply Z.div_unique with 1; lia. }
  replace (n =? 0) with false by (symmetry; apply Z.eqb_neq; lia).
  by rewrite <- Heq.
Qed.

(** A ratio that is an integer is rounded as that integer. *)
Lemma round_ratio_exact neg p c :
  0 <= p < 2 ^ 53 -> 0 < c -> round_ratio neg (p * c) c = round_ratio neg p 1.
Proof.
  intros Hp Hc. destruct (Z.eq_dec p 0) as [->|Hp0]; [reflexivity|].
  rewrite (round_ratio_integer neg p) by lia.
  unfold round_ratio. cbv zeta.
  replace (p * c <=? 0) with false by (symmetry; apply Z.leb_gt; nia).
  pose proof (Z.log2_spec p ltac:(lia)) as [Hlo Hhi].
  pose proof (Z.log2_nonneg p) as Hl0.
  assert (Z.log2 p < 53) as Hl53 by (apply Z.log2_lt_pow2; lia).
  pose proof (Z.log2_mul_below p c ltac:(lia) ltac:(lia)) as Hbelow.
  pose proof (Z.log2_mul_above p c ltac:(lia) ltac:(lia)) as Habove.
  set (l := Z.log2 p) in *.
  set (l' := Z.log2 (p * c) - Z.log2 c).
  assert (l' = l \/ l' = l + 1) as Hl' by (unfold l'; lia).
  replace (Z.max 0 (- l')) with 0 by lia.
  replace (Z.max 0 l') with l' by lia.
  rewrite Z.pow_0_r, Z.mul_1_r.
  assert ((if p * c <? c * 2 ^ l' then l' - 1 else l') = l) as ->.
  { destruct Hl' as [->| ->].
    - replace (p * c <? c * 2 ^ l) with false; [done|].
      symmetry. apply Z.ltb_ge. nia.
    - replace (p * c <? c * 2 ^ (l + 1)) with true; [lia|].
      symmetry. apply Z.ltb_lt. replace (l + 1) with (Z.succ l) by lia. nia. }
  replace (Z.max (-1074) (l - 52)) with (l - 52) by lia.
  replace (Z.max 0 (- (l - 52))) with (52 - l) by lia.
  replace (Z.max 0 (l - 52)) with 0 by lia.
  rewrite Z.pow_0_r, Z.mul_1_r.
  assert (0 < 2 ^ (52 - l)) as Hden by (apply Z.pow_pos_nonneg; lia).
  replace (p * c * 2 ^ (52 - l)) with (p * 2 ^ (52 - l) * c) by lia.
  rewrite Z.div_mul, Z.mod_mul by lia.
  replace (c <? 2 * 0) with false by (symmetry; apply Z.ltb_ge; lia).
  replace (c =? 2 * 0) with false by (symmetry; apply Z.eqb_neq; lia).
  cbn [orb andb].
  assert (2 ^ Z.succ l * 2 ^ (52 - l) = 2 ^ 53) as Hpow3.
  { rewrite <- Z.pow_add_r by lia. f_equal. lia. }
  replace (p * 2 ^ (52 - l) =? 2 ^ 53) with false
    by (symmetry; apply Z.eqb_neq; nia).
  replace (971 <? l - 52) with false by (symmetry; apply Z.ltb_ge; lia).
  done.
Qed.

End SafeIntegers.

(** ** [retainDecimal] on integers *)

Module IntegerFormat.

Import JSNumber DataFormat JSStringFacts JSNumberFacts DataFormatFacts.
Import SafeIntegers.

#[local] Arguments of_Z : simpl never.
#[local] Arguments of_string : simpl never.
#[local] Arguments to_string : simpl never.
#[local] Arguments round : simpl never.
#[local] Arguments retainDecimal : simpl never.

Lemma numeral_of_Z n : Z.abs n < 2 ^ 53 -> to_string (of_Z n) = numeral n.
Proof. apply to_string_of_Z. Qed.

Lemma all_digits_no_dot s : all_digits s = true -> JSString.no_dot s = true.
Proof.
  induction s as [|c s IH]; simpl; [done|].
  intros [Hc Hs]%andb_true_iff. rewrite (IH Hs), andb_true_r.
  destruct c as [[] [] [] [] [] [] [] []]; done.
Qed.

Lemma numeral_no_dot n : JSString.no_dot (numeral n) = true.
Proof.
  unfold numeral. rewrite no_dot_app.
  rewrite (all_digits_no_dot (digits_of _))
    by (apply all_digits_digits_of; lia).
  by destruct (n <? 0).
Qed.

Lemma digits_of_nonempty z : digits_of z <> "".
Proof.
  pose proof (ndigits_pos z) as H. unfold ndigits, JSString.len in H.
  destruct (digits_of z); [simpl in H; lia|done].
Qed.

(** [Number] on a numeral with a point: digits, a point, digits. *)
Lemma of_string_decimal (neg : bool) ds fs :
  all_digits ds = true -> ds <> "" -> all_digits fs = true ->
  of_string ((if neg then "-" else "") ++ ds ++ "." ++ fs)
  = round_ratio neg (digits_value 0 (ds ++ fs)) (10 ^ JSString.len fs).
Proof.
  intros Hds Hne Hfs.
  destruct ds as [|c ds]; [done|].
  pose proof Hds as Hcds. apply andb_true_iff in Hds as [Hc Hds].
  change (all_digits ds = true) in Hds.
  assert (plain (String c ds ++ "." ++ fs) = true) as Hplain.
  { rewrite plain_app, plain_app.
    by rewrite (plain_digits (String c ds)), (plain_digits fs). }
  assert (unsigned_decimal neg (String c ds ++ "." ++ fs)
          = round_ratio neg (digits_value 0 (String c ds ++ fs))
              (10 ^ JSString.len fs)) as Hu.
  { unfold unsigned_decimal.
    replace (String.eqb (String c ds ++ "." ++ fs) "Infinity") with false
      by (simpl; destruct c as [[] [] [] [] [] [] [] []]; done).
    change (String c ds ++ "." ++ fs) with (String c ds ++ String "." fs).
    rewrite span_digits_stop by done.
    rewrite <- (app_nil_r fs) at 1. rewrite span_digits_app by done.
    cbn [span_digits fst snd]. rewrite app_nil_r.
    cbn [exponent_part]. cbn [append].
    pose proof (len_nonneg fs).
    replace (Z.max 0 (0 - JSString.len fs)) with 0 by lia.
    replace (Z.max 0 (- (0 - JSString.len fs))) with (JSString.len fs) by lia.
    by rewrite Z.pow_0_r, Z.mul_1_r. }
  rewrite of_string_plain.
  - destruct neg.
    + cbn [append split_sign]. exact Hu.
    + cbn [append]. rewrite split_sign_digit by done. exact Hu.
  - destruct neg; [|exact Hplain].
    change ("-" ++ String c ds ++ "." ++ fs)
      with (String "-" (String c ds ++ "." ++ fs)).
    cbn [plain]. by rewrite Hplain.
  - by destruct neg.
Qed.

(** [Number] on a numeral without a point. *)
Lemma of_string_integer (neg : bool) ds :
  all_digits ds = true -> ds <> "" ->
  of_string ((if neg then "-" else "") ++ ds)
  = round_ratio neg (digits_value 0 ds) 1.
Proof.
  intros Hds Hne.
  destruct ds as [|c ds]; [done|].
  pose proof Hds as Hcds. apply andb_true_iff in Hds as [Hc Hds].
  change (all_digits ds = true) in Hds.
  assert (plain (String c ds) = true) as Hplain by (by apply plain_digits).
  assert (unsigned_decimal neg (String c ds)
          = round_ratio neg (digits_value 0 (String c ds)) 1) as Hu.
  { unfold unsigned_decimal.
    replace (String.eqb (String c ds) "Infinity") with false
      by (simpl; destruct c as [[] [] [] [] [] [] [] []]; done).
    rewrite <- (app_nil_r (String c ds)) at 1.
    rewrite span_digits_app by done.
    cbn [span_digits fst snd]. rewrite !app_nil_r.
    cbn [exponent_part]. change (JSString.len "") with 0.
    change (Z.max 0 (0 - 0)) with 0. change (Z.max 0 (- (0 - 0))) with 0.
    rewrite Z.pow_0_r, Z.mul_1_r.
    by destruct (String c ds). }
  rewrite of_string_plain.
  - destruct neg.
    + cbn [append split_sign]. exact Hu.
    + cbn [append]. rewrite split_sign_digit by done. exact Hu.
  - destruct neg; [|exact Hplain].
    change (plain ("-" ++ String c ds))
      with (plain_char "-" && plain (String c ds)).
    by rewrite Hplain.
  - by destruct neg.
Qed.

(** Reading the numeral of an integer gives the integer back. *)
Lemma of_string_numeral n : of_string (numeral n) = of_Z n.
Proof.
  unfold numeral.
  rewrite of_string_integer
    by (try apply all_digits_digits_of; try apply digits_of_nonempty; lia).
  by rewrite digits_value_digits_of by lia.
Qed.

Lemma take_app_length' (a b : string) :
  JSString.take (String.length a) (a ++ b) = a.
Proof. induction a as [|c a IH]; simpl; [by destruct b|]. by rewrite IH. Qed.

Lemma drop_app_length' (a b : string) :
  JSString.drop (String.length a) (a ++ b) = b.
Proof. induction a as [|c a IH]; simpl; [done|]. exact IH. Qed.

(** The last [d] characters split off, lines 168-169. *)
Lemma slice_tail (a b : string) d :
  JSString.len b = d -> 0 < d -> a <> "" ->
  JSString.slice (a ++ b) 0 (- d) = a
  /\ JSString.slice_from (a ++ b) (- d) = b.
Proof.
  intros Hb Hd Ha. unfold JSString.slice, JSString.slice_from, JSString.rel_index.
  pose proof (len_nonneg a). rewrite len_app, Hb.
  assert (0 < JSString.len a).
  { unfold JSString.len. destruct a; [done|]. simpl. lia. }
  replace (0 <? 0) with false by done.
  replace (- d <? 0) with true by (symmetry; apply Z.ltb_lt; lia).
  replace (Z.min 0 (JSString.len a + d)) with 0 by lia.
  replace (Z.max (JSString.len a + d + - d) 0) with (JSString.len a) by lia.
  rewrite Z.sub_0_r. unfold JSString.len. rewrite Nat2Z.id.
  change (Z.to_nat 0) with 0%nat. cbn [JSString.drop].
  replace (JSString.drop 0 (a ++ b)) with (a ++ b) by (by destruct (a ++ b)).
  by rewrite take_app_length', drop_app_length'.
Qed.

(** The text handed to [Number] for a text without a point: the text,
    [decimal] zeros and a point. *)
Lemma shifted_text_no_dot text d :
  JSString.no_dot text = true -> 0 < d ->
  shifted_text text d = text ++ JSString.zeros (Z.to_nat d) ++ ".".
Proof.
  intros Hnd Hd. unfold shifted_text. rewrite split_dot_no_dot by done.
  cbn [nth]. change (JSString.len "") with 0.
  replace (0 <? d) with true by (symmetry; apply Z.ltb_lt; lia).
  cbn [append]. replace (d - 0 + 1 - 1) with d by lia.
  rewrite substr_0, substr_from_nonneg by lia.
  rewrite take_all, drop_all by (rewrite length_zeros; lia).
  reflexivity.
Qed.

Lemma of_Z_mul_pow10 n d :
  0 <= d ->
  of_Z (n * 10 ^ d) = round_ratio (n <? 0) (Z.abs n * 10 ^ d) 1.
Proof.
  intros Hd. unfold of_Z.
  assert (0 < 10 ^ d) by (apply Z.pow_pos_nonneg; lia).
  rewrite Z.abs_mul, (Z.abs_eq (10 ^ d)) by lia. f_equal.
  destruct (Z.ltb_spec n 0); [apply Z.ltb_lt|apply Z.ltb_ge]; nia.
Qed.

(** X7. An integer [n] with [|n| * 10^d] below [2^53], formatted with
    [d] decimals, where [d], the length of the numeral of [n] and 2 are
    together within the longest string: the numeral of [n] when zeros
    are to be removed (or [d] is 0), and the numeral, a point and [d]
    zeros otherwise. *)
Theorem retainDecimal_integer n d h :
  0 <= d -> Z.abs n * 10 ^ d < 2 ^ 53 ->
  d + JSString.len (numeral n) + 2 <= max_string_length ->
  retainDecimal (VNumber (of_Z n)) (Some d) (Some true) h
  = (Ok (VString (numeral n)), h)
  /\ retainDecimal (VNumber (of_Z n)) (Some d) (Some false) h
     = (Ok (VString (if d =? 0 then numeral n
                     else numeral n ++ "." ++ JSString.zeros (Z.to_nat d))), h).
Proof.
  intros Hd Hn Hfit.
  assert (0 < 10 ^ d) as Hp by (apply Z.pow_pos_nonneg; lia).
  assert (Z.abs n < 2 ^ 53) as Hn' by nia.
  rewrite <- (numeral_of_Z n) in Hfit by done.
  destruct (Z.eq_dec d 0) as [->|Hd0].
  { unfold retainDecimal. cbn [default from_option id].
    change (0 <? 0) with false. change (0 =? 0) with true. cbv iota.
    by rewrite round_of_Z, numeral_of_Z. }
  replace (d =? 0) with false by (symmetry; apply Z.eqb_neq; lia).
  rewrite !retainDecimal_steps by lia. cbv zeta.
  rewrite numeral_of_Z, shifted_text_no_dot by (try apply numeral_no_dot; lia).
  set (D := Z.to_nat d).
  assert (Z.of_nat D = d) as HD by (unfold D; lia).
  pose proof (all_digits_digits_of (Z.abs n) ltac:(lia)) as Hdig.
  pose proof (digits_of_nonempty (Z.abs n)) as Hne.
  (* the number read at line 165 is [n * 10^d] *)
  assert (of_string (numeral n ++ JSString.zeros D ++ ".") = of_Z (n * 10 ^ d))
    as ->.
  { pose proof (of_string_decimal (n <? 0)
                  (digits_of (Z.abs n) ++ JSString.zeros D) "") as Hparse.
    rewrite !app_nil_r in Hparse.
    replace (numeral n ++ JSString.zeros D ++ ".")
      with ((if n <? 0 then "-" else "")
            ++ (digits_of (Z.abs n) ++ JSString.zeros D) ++ ".")
      by (unfold numeral; by rewrite !app_assoc).
    rewrite Hparse.
    - change (JSString.len "") with 0. rewrite Z.pow_0_r.
      rewrite digits_value_app, digits_value_zeros, digits_value_digits_of by lia.
      by rewrite HD, of_Z_mul_pow10 by lia.
    - by rewrite all_digits_app, Hdig, all_digits_zeros.
    - destruct (digits_of (Z.abs n)); done.
    - done. }
  rewrite round_of_Z, numeral_of_Z
    by (rewrite Z.abs_mul, (Z.abs_eq (10 ^ d)); lia).
  destruct (Z.eq_dec n 0) as [->|Hn0].
  - (* zero *)
    change (numeral (0 * 10 ^ d)) with "0". change (numeral 0) with "0".
    unfold with_point. change (JSString.len "0") with 1.
    replace (d <? 1) with false by (symmetry; apply Z.ltb_ge; lia).
    assert ("0." ++ JSString.zeros (Z.to_nat (d - 1)) ++ "0"
            = "0" ++ "." ++ JSString.zeros D) as Htext.
    { rewrite zeros_snoc. cbn [append]. do 3 f_equal. unfold D. lia. }
    rewrite Htext. split; [|done].
    change ("0" ++ "." ++ JSString.zeros D)
      with ("" ++ "0" ++ "." ++ JSString.zeros D).
    rewrite (of_string_decimal false "0" (JSString.zeros D)) by
      (try apply all_digits_zeros; done).
    rewrite digits_value_app. cbn [digits_value].
    change (10 * 0 + (code "0" - 48)) with 0.
    rewrite digits_value_zeros, Z.mul_0_l. reflexivity.
  - (* the numeral of [n * 10^d] is that of [n] and [d] zeros *)
    assert (numeral (n * 10 ^ d) = numeral n ++ JSString.zeros D) as ->.
    { unfold numeral. rewrite Z.abs_mul, (Z.abs_eq (10 ^ d)) by lia.
      rewrite <- HD at 2. rewrite digits_of_shift by lia.
      rewrite app_assoc. do 2 f_equal.
      destruct (Z.ltb_spec n 0), (Z.ltb_spec (n * 10 ^ d) 0); try done; nia. }
    assert (numeral n <> "") as Hnum.
    { unfold numeral. destruct (n <? 0); [done|]. exact Hne. }
    assert (JSString.len (JSString.zeros D) = d) as Hlz.
    { unfold JSString.len. rewrite length_zeros. lia. }
    unfold with_point. rewrite len_app, Hlz.
    assert (0 < JSString.len (numeral n)).
    { unfold JSString.len. destruct (numeral n); [done|]. simpl. lia. }
    replace (d <? JSString.len (numeral n) + d) with true
      by (symmetry; apply Z.ltb_lt; lia).
    destruct (slice_tail (numeral n) (JSString.zeros D) d Hlz ltac:(lia) Hnum)
      as [-> ->].
    split; [|done].
    unfold numeral at 1. rewrite app_assoc.
    rewrite (of_string_decimal (n <? 0) (digits_of (Z.abs n)) (JSString.zeros D))
      by (try apply all_digits_zeros; done).
    rewrite Hlz, digits_value_app, digits_value_zeros, digits_value_digits_of,
      HD by lia.
    rewrite round_ratio_exact by lia.
    fold (of_Z n). by rewrite numeral_of_Z by lia.
Qed.

(** An instance of X7: 12 with two decimals is ["12"] or ["12.00"]. *)
Lemma retainDecimal_integer_witness :
  retainDecimal (VNumber (of_Z 12)) (Some 2) (Some true) []
  = (Ok (VString "12"), [])
  /\ retainDecimal (VNumber (of_Z 12)) (Some 2) (Some false) []
     = (Ok (VString "12.00"), []).
Proof.
  apply (retainDecimal_integer 12 2 []); [lia|by vm_compute|by vm_compute].
Defined.

End IntegerFormat.

(** ** [retainDecimal] on negative numbers above -1 *)

Module NegativeFractions.

Import JSNumber DataFormat JSStringFacts JSNumberFacts DataFormatFacts.
Import SafeIntegers IntegerFormat.

#[local] Arguments of_Z : simpl never.
#[local] Arguments of_string : simpl never.
#[local] Arguments to_string : simpl never.
#[local] Arguments round : simpl never.
#[local] Arguments retainDecimal : simpl never.

(** A minus sign after the point: no number. *)
Lemma of_string_minus_inside j ds :
  all_digits ds = true ->
  of_string ("0." ++ JSString.zeros j ++ "-" ++ ds) = NaN.
Proof.
  intros Hds.
  assert (plain ("0." ++ JSString.zeros j ++ "-" ++ ds) = true) as Hplain.
  { pose proof (all_digits_zeros j) as Hz.
    rewrite !plain_app, (plain_digits (JSString.zeros j) Hz),
      (plain_digits ds Hds). reflexivity. }
  rewrite of_string_plain; [|done|done].
  change ("0." ++ JSString.zeros j ++ "-" ++ ds)
    with (String "0" (String "." (JSString.zeros j ++ String "-" ds))).
  rewrite split_sign_digit by done.
  unfold unsigned_decimal.
  cbn [String.eqb Ascii.eqb Bool.eqb andb span_digits is_digit].
  change (is_digit "0") with true. change (is_digit ".") with false.
  cbv iota beta.
  rewrite span_digits_stop by (try apply all_digits_zeros; done).
  cbn [append exponent_part Ascii.eqb Bool.eqb orb andb].
  reflexivity.
Qed.

(** The text handed to [Number] (line 165) for a text with [d] digits
    or fewer after its point. *)
Lemma shifted_text_fraction (I F : string) d :
  JSString.no_dot I = true -> all_digits F = true -> JSString.len F <= d ->
  shifted_text (I ++ "." ++ F) d
  = I ++ (F ++ JSString.zeros (Z.to_nat (d - JSString.len F))) ++ ".".
Proof.
  intros HI HF Hd. unfold shifted_text.
  change (I ++ "." ++ F) with (I ++ String "." F).
  rewrite split_dot_app, split_dot_no_dot
    by first [done | by apply all_digits_no_dot].
  cbn [nth]. pose proof (len_nonneg F).
  assert (forall P : string,
            JSString.len P = d ->
            I ++ JSString.substr P 0 d ++ "." ++ JSString.substr_from P d
            = I ++ P ++ ".") as Hwhole.
  { intros P HP. rewrite substr_0, substr_from_nonneg by lia.
    unfold JSString.len in HP.
    by rewrite take_all, drop_all by lia. }
  destruct (Z.ltb_spec (JSString.len F) d) as [Hlt|Hge].
  - replace (d - JSString.len F + 1 - 1) with (d - JSString.len F) by lia.
    apply Hwhole. rewrite len_app. unfold JSString.len at 2.
    rewrite length_zeros. lia.
  - replace (d - JSString.len F) with 0 by lia.
    change (JSString.zeros (Z.to_nat 0)) with "". rewrite app_nil_r.
    apply Hwhole. lia.
Qed.

(** X8. A negative number above -1 whose text is ["-0."] and at most
    [d] digits, formatted with [d] decimals, where the digits after the
    point, padded to [d], are an integer [k] below [2^53] (and the
    strings built fit the engine). Line 166 rounds to [k]; its text
    is ["-"] and the numeral of [k]. When [k] has [d] digits (the number
    is -0.1 or below) the result without the removal of zeros is ["-."]
    and the digits, with no zero before the point. When [k] has fewer
    (the number is above -0.1) the sign is put after the padding zeros:
    the result is ["0."], zeros, ["-"] and the numeral, and with the
    removal of zeros, which reads that text as a number, it is ["NaN"]. *)
Theorem retainDecimal_negative_fraction x F d h :
  to_string x = "-0." ++ F -> all_digits F = true ->
  JSString.len F <= d ->
  d + JSString.len (to_string x) + 2 <= max_string_length ->
  let k := digits_value 0 F * 10 ^ (d - JSString.len F) in
  0 < k < 2 ^ 53 ->
  (ndigits k = d ->
   retainDecimal (VNumber x) (Some d) (Some false) h
   = (Ok (VString ("-." ++ digits_of k)), h))
  /\ (ndigits k < d ->
      retainDecimal (VNumber x) (Some d) (Some false) h
      = (Ok (VString ("0." ++ JSString.zeros (Z.to_nat (d - 1 - ndigits k))
                      ++ "-" ++ digits_of k)), h)
      /\ retainDecimal (VNumber x) (Some d) (Some true) h
         = (Ok (VString "NaN"), h)).
Proof.
  intros Htext HF Hd Hfit k Hk.
  pose proof (len_nonneg F) as HlF.
  assert (1 <= d) as Hd1.
  { destruct (Z.eq_dec d 0) as [->|]; [|lia].
    assert (JSString.len F = 0) as H0 by lia.
    unfold JSString.len in H0. destruct F; [|simpl in H0; lia].
    unfold k in Hk. simpl in Hk. lia. }
  assert (forall f,
    retainDecimal (VNumber x) (Some d) (Some f) h
    = (Ok (VString (let text := with_point ("-" ++ digits_of k) d in
                    if f then to_string (of_string text) else text)), h)) as Hret.
  { intros f. rewrite retainDecimal_steps by done. cbv zeta.
    rewrite Htext.
    change ("-0." ++ F) with ("-0" ++ "." ++ F).
    rewrite shifted_text_fraction by (done || lia).
    set (Z0 := JSString.zeros _).
    change ("-0" ++ (F ++ Z0) ++ ".")
      with ("-" ++ ("0" ++ F ++ Z0) ++ "." ++ "").
    rewrite (of_string_decimal true ("0" ++ F ++ Z0) "");
      [| |done|done].
    - change (JSString.len "") with 0. rewrite Z.pow_0_r, app_nil_r.
      change ("0" ++ F ++ Z0) with (String "0" (F ++ Z0)).
      cbn [digits_value]. change (10 * 0 + (code "0" - 48)) with 0.
      unfold Z0. rewrite digits_value_app, digits_value_zeros.
      rewrite Z2Nat.id by lia. fold k.
      assert (round_ratio true k 1 = of_Z (- k)) as ->.
      { unfold of_Z. replace (- k <? 0) with true by (symmetry; apply Z.ltb_lt; lia).
        f_equal. lia. }
      rewrite round_of_Z, numeral_of_Z by lia.
      unfold numeral. replace (- k <? 0) with true by (symmetry; apply Z.ltb_lt; lia).
      by replace (Z.abs (- k)) with k by lia.
    - change ("0" ++ F ++ Z0) with (String "0" (F ++ Z0)). cbn [all_digits].
      change (is_digit "0") with true. cbn [andb].
      unfold Z0. by rewrite all_digits_app, HF, all_digits_zeros. }
  pose proof (all_digits_digits_of k ltac:(lia)) as Hdig.
  pose proof (digits_of_nonempty k) as Hne.
  assert (JSString.len ("-" ++ digits_of k) = 1 + ndigits k) as Hlen.
  { rewrite len_app. reflexivity. }
  split.
  - intros Hnd. rewrite (Hret false). cbv zeta. unfold with_point.
    rewrite Hlen.
    replace (d <? 1 + ndigits k) with true by (symmetry; apply Z.ltb_lt; lia).
    destruct (slice_tail "-" (digits_of k) d Hnd ltac:(lia) ltac:(done))
      as [-> ->].
    reflexivity.
  - intros Hnd.
    assert (with_point ("-" ++ digits_of k) d
            = "0." ++ JSString.zeros (Z.to_nat (d - 1 - ndigits k))
              ++ "-" ++ digits_of k) as Hwp.
    { unfold with_point. rewrite Hlen.
      replace (d <? 1 + ndigits k) with false by (symmetry; apply Z.ltb_ge; lia).
      by replace (d - (1 + ndigits k)) with (d - 1 - ndigits k) by lia. }
    split.
    + by rewrite (Hret false), Hwp.
    + rewrite (Hret true), Hwp. cbv zeta.
      by rewrite of_string_minus_inside.
Qed.

(** An instance of X8: [retainDecimal(-0.05, 2)] is ["NaN"]. *)
Lemma retainDecimal_negative_fraction_witness :
  retainDecimal (VNumber (literal "-0.05")) (Some 2) (Some false) []
  = (Ok (VString "0.-5"), [])
  /\ retainDecimal (VNumber (literal "-0.05")) (Some 2) (Some true) []
     = (Ok (VString "NaN"), []).
Proof.
  apply (proj2 (retainDecimal_negative_fraction (literal "-0.05") "05" 2 []
                  eq_refl eq_refl ltac:(done) ltac:(by vm_compute)
                  ltac:(done))).
  reflexivity.
Defined.

End NegativeFractions.

(** ** [datetimeFormat]: patterns and fields *)

Module DatetimeFacts.

Import JSNumber DataFormat JSStringFacts JSNumberFacts DataFormatFacts.
Import SafeIntegers IntegerFormat.

#[local] Arguments of_Z : simpl never.
#[local] Arguments of_string : simpl never.
#[local] Arguments to_string : simpl never.
#[local] Arguments round : simpl never.
#[local] Arguments add : simpl never.

(** *** Replacing in a text without the letters of the tokens *)

Lemma letter_free_app a b :
  letter_free (a ++ b) = letter_free a && letter_free b.
Proof. induction a as [|c a IH]; simpl; [done|]. by rewrite IH, andb_assoc. Qed.

Lemma prefix_letter_free c key s :
  token_letter c = true -> letter_free s = true ->
  String.prefix (String c key) s = false.
Proof.
  intros Hc Hs. destruct s as [|b s]; [done|]. simpl.
  apply andb_true_iff in Hs as [Hb _].
  destruct (ascii_dec c b) as [->|]; [|done].
  by rewrite Hc in Hb.
Qed.

(** A token is not found in such a text. *)
Lemma replace_letter_free c key by_ s :
  token_letter c = true -> letter_free s = true ->
  JSString.replace (String c key) by_ s = s.
Proof.
  intros Hc. induction s as [|b s IH]; intros Hs.
  - rewrite replace_eq. by rewrite prefix_letter_free.
  - rewrite replace_eq, prefix_letter_free by done.
    apply andb_true_iff in Hs as [_ Hs]. by rewrite IH.
Qed.

(** The search passes over such a text. *)
Lemma replace_skip c key by_ pre s :
  token_letter c = true -> letter_free pre = true ->
  JSString.replace (String c key) by_ (pre ++ s)
  = pre ++ JSString.replace (String c key) by_ s.
Proof.
  intros Hc. induction pre as [|b pre IH]; intros Hpre; [done|].
  apply andb_true_iff in Hpre as [Hb Hpre].
  change (String b pre ++ s) with (String b (pre ++ s)).
  rewrite replace_eq.
  replace (String.prefix (String c key) (String b (pre ++ s))) with false.
  - by rewrite IH.
  - simpl. destruct (ascii_dec c b) as [->|]; [|done].
    by rewrite Hc in Hb.
Qed.

(** The token at the start of the text is the one replaced. *)
Lemma replace_here key by_ rest :
  JSString.replace key by_ (key ++ rest) = by_ ++ rest.
Proof.
  rewrite replace_eq.
  assert (String.prefix key (key ++ rest) = true) as ->.
  { induction key as [|c key IH]; simpl; [by destruct rest|].
    by destruct (ascii_dec c c). }
  by rewrite drop_app_length'.
Qed.

(** The default pattern, with texts free of the letters for the six
    tokens it holds: each token gives way to its text. *)
Lemma substitute_default a1 a2 a3 a4 a5 a6 a7 a8 a9 a10 a11 a12 :
  letter_free a1 = true -> letter_free a2 = true -> letter_free a3 = true ->
  letter_free a4 = true -> letter_free a5 = true -> letter_free a6 = true ->
  substitute_all
    [("yyyy", a1); ("MM", a2); ("dd", a3); ("hh", a4); ("mm", a5); ("ss", a6);
     ("yy", a7); ("M", a8); ("d", a9); ("h", a10); ("m", a11); ("s", a12)]
    "yyyyMMdd hh:mm:ss"
  = a1 ++ a2 ++ a3 ++ " " ++ a4 ++ ":" ++ a5 ++ ":" ++ a6.
Proof.
  intros H1 H2 H3 H4 H5 H6.
  assert (letter_free " " = true) as Hsp by done.
  assert (letter_free ":" = true) as Hco by done.
  unfold substitute_all. cbn [fold_left fst snd].
  change "yyyyMMdd hh:mm:ss" with ("yyyy" ++ "MMdd hh:mm:ss").
  rewrite replace_here.
  rewrite !replace_skip by done.
  change "MMdd hh:mm:ss" with ("MM" ++ "dd hh:mm:ss").
  rewrite replace_here.
  rewrite !replace_skip by done.
  change "dd hh:mm:ss" with ("dd" ++ " " ++ "hh:mm:ss").
  rewrite replace_here.
  rewrite !replace_skip by done.
  change "hh:mm:ss" with ("hh" ++ ":" ++ "mm:ss").
  rewrite replace_here.
  rewrite !replace_skip by done.
  change "mm:ss" with ("mm" ++ ":" ++ "ss").
  rewrite replace_here.
  rewrite !replace_skip by done.
  change "ss" with ("ss" ++ "") at 2.
  rewrite replace_here, app_nil_r.
  rewrite (replace_letter_free "y" "y" a7 a6), (replace_letter_free "M" "" a8 a6),
    (replace_letter_free "d" "" a9 a6), (replace_letter_free "h" "" a10 a6),
    (replace_letter_free "m" "" a11 a6), (replace_letter_free "s" "" a12 a6)
    by done.
  reflexivity.
Qed.

(** *** The fields of a date *)

Ltac dlia := Z.to_euclidean_division_equations; lia.

Lemma letter_free_digits s : all_digits s = true -> letter_free s = true.
Proof.
  induction s as [|c s IH]; simpl; [done|].
  intros [Hc Hs]%andb_true_iff. rewrite (IH Hs), andb_true_r.
  destruct c as [[] [] [] [] [] [] [] []]; done.
Qed.

Lemma letter_free_numeral n : letter_free (numeral n) = true.
Proof.
  unfold numeral. rewrite letter_free_app, (letter_free_digits (digits_of _))
    by (apply all_digits_digits_of; lia).
  by destruct (n <? 0).
Qed.

Lemma letter_free_pad2 n : letter_free (pad2 n) = true.
Proof.
  unfold pad2. rewrite letter_free_app, letter_free_numeral.
  by destruct (Z.abs n <? 10).
Qed.

(** The two-digit form of an integer field. *)
Lemma two_digit_text_of_Z n :
  Z.abs n < 2 ^ 53 -> two_digit_text (of_Z n) = pad2 n.
Proof.
  intros Hn. unfold two_digit_text, pad2.
  rewrite abs_of_Z, ltb_of_Z, round_of_Z, numeral_of_Z by (done || lia).
  reflexivity.
Qed.

(** A time value is within 8.64e15 ms of the epoch. *)
Lemma time_clip_bound x t :
  canonical x = true -> JSDate.time_clip x = Some t ->
  Z.abs t <= 8640000000000000.
Proof.
  destruct x as [| |neg m e]; try done. intros Hc.
  unfold canonical in Hc. repeat (apply andb_true_iff in Hc as [Hc _]).
  apply Z.leb_le in Hc.
  unfold JSDate.time_clip, to_integer.
  assert (0 < 2 ^ Z.max 0 (- e)) as Hb by (apply Z.pow_pos_nonneg; lia).
  assert (0 <= 2 ^ Z.max 0 e) as Ha by (apply Z.pow_nonneg; lia).
  destruct (Z.ltb_spec (8640000000000000 * 2 ^ Z.max 0 (- e))
              (m * 2 ^ Z.max 0 e)) as [|Hle]; [done|].
  intros [= <-].
  assert (0 <= m * 2 ^ Z.max 0 e / 2 ^ Z.max 0 (- e) <= 8640000000000000).
  { split; [apply Z.div_pos; nia|].
    apply Z.div_le_upper_bound; lia. }
  destruct neg; lia.
Qed.

Lemma year_from_range fuel y day :
  y <= JSDate.year_from fuel y day <= y + Z.of_nat fuel.
Proof.
  revert y. induction fuel as [|fuel IH]; intros y; simpl; [lia|].
  destruct (_ <=? _); [|lia]. specialize (IH (y + 1)). lia.
Qed.

Lemma month_of_range d leap :
  0 <= leap <= 1 ->
  let r := JSDate.month_of d (-1) 0 (JSDate.month_starts leap) in
  -1 <= r.1 <= 11 /\ 0 <= r.2 <= 335.
Proof.
  intros Hl. unfold JSDate.month_starts. cbn [JSDate.month_of].
  repeat match goal with
         | |- context [if ?b then _ else _] => destruct b
         end; cbn [fst snd]; lia.
Qed.

(** The fields of a local time within a day of the range of time
    values are small integers. *)
Lemma field_bounds lt :
  Z.abs lt <= 8640000000000000 + JSDate.msPerDay ->
  Z.abs (JSDate.YearFromTime lt) <= 300000
  /\ -1 <= JSDate.MonthFromTime lt <= 11
  /\ Z.abs (JSDate.DateFromTime lt) <= 300000000
  /\ 0 <= JSDate.HourFromTime lt < 24
  /\ 0 <= JSDate.MinFromTime lt < 60
  /\ 0 <= JSDate.SecFromTime lt < 60.
Proof.
  intros Hlt. unfold JSDate.msPerDay in Hlt.
  assert (Z.abs (JSDate.Day lt) <= 100000001) as Hday
    by (unfold JSDate.Day, JSDate.msPerDay; dlia).
  assert (Z.abs (JSDate.YearFromTime lt) <= 300000) as Hyear.
  { unfold JSDate.YearFromTime.
    pose proof (year_from_range 4
                  (1970 + JSDate.Day lt * 400 / 146097 - 2) (JSDate.Day lt)).
    set (y := JSDate.year_from _ _ _) in *.
    assert (Z.abs (1970 + JSDate.Day lt * 400 / 146097 - 2) <= 290000) by dlia.
    lia. }
  assert (0 <= JSDate.InLeapYear lt <= 1) as Hleap.
  { unfold JSDate.InLeapYear. destruct (_ =? _); lia. }
  pose proof (month_of_range (JSDate.DayWithinYear lt) (JSDate.InLeapYear lt) Hleap)
    as [Hmonth Hstart]. cbv zeta in Hmonth, Hstart.
  assert (Z.abs (JSDate.DayWithinYear lt) <= 250000000) as Hdwy.
  { unfold JSDate.DayWithinYear, JSDate.DayFromYear.
    set (y := JSDate.YearFromTime lt) in *. dlia. }
  repeat split; try done;
    unfold JSDate.MonthFromTime, JSDate.DateFromTime, JSDate.HourFromTime,
      JSDate.MinFromTime, JSDate.SecFromTime; try lia; try dlia.
Qed.

Section Pattern.

Variable localTZA : Z -> Z.

Lemma substitute_all_letter_free texts s :
  Forall (fun kt => exists c key, kt.1 = String c key /\ token_letter c = true)
    texts ->
  letter_free s = true -> substitute_all texts s = s.
Proof.
  unfold substitute_all. induction 1 as [|[k t] texts (c & key & Hk & Hc) _ IH];
    intros Hs; [done|].
  simpl in *. subst k. rewrite replace_letter_free by done. by apply IH.
Qed.

Lemma token_texts_keys x :
  Forall (fun kt => exists c key, kt.1 = String c key /\ token_letter c = true)
    (token_texts localTZA x).
Proof. unfold token_texts. repeat constructor; simpl; by eexists _, _. Qed.

(** X9. A pattern with none of the letters y, M, d, h, m and s comes
    back as it is, whatever the timestamp, invalid ones included; five
    option records are made on the way. *)
Theorem datetimeFormat_no_token x express h :
  letter_free express = true ->
  datetimeFormat localTZA (VNumber x) (Some express) h
  = (Ok (VString express), (h ++ replicate 5 two_digit_options)%list).
Proof.
  intros He. rewrite datetimeFormat_substitutes.
  by rewrite substitute_all_letter_free by (done || apply token_texts_keys).
Qed.

End Pattern.

Section DefaultPattern.

Variable localTZA : Z -> Z.

(** Local time is within a day of UTC. *)
Hypothesis localTZA_bound : forall t, Z.abs (localTZA t) <= JSDate.msPerDay.

Lemma add_one n : -1 <= n <= 11 -> add (of_Z n) (of_Z 1) = of_Z (n + 1).
Proof.
  intros Hn. remember (Z.to_nat (n + 1)) as k eqn:Hk.
  assert (n = Z.of_nat k - 1) as -> by lia.
  assert (k <= 12)%nat as Hle by lia. clear Hn Hk.
  do 13 (destruct k as [|k]; [by vm_compute|]). lia.
Qed.

(** The texts of the tokens for a valid date. *)
Lemma token_texts_valid x t :
  canonical x = true -> JSDate.time_clip x = Some t ->
  let lt := JSDate.LocalTime localTZA t in
  token_texts localTZA x
  = [ ("yyyy", numeral (JSDate.YearFromTime lt));
      ("MM", pad2 (JSDate.MonthFromTime lt + 1));
      ("dd", pad2 (JSDate.DateFromTime lt));
      ("hh", pad2 (JSDate.HourFromTime lt));
      ("mm", pad2 (JSDate.MinFromTime lt));
      ("ss", pad2 (JSDate.SecFromTime lt));
      ("yy", JSString.substr_from (numeral (JSDate.YearFromTime lt)) 2);
      ("M", numeral (JSDate.MonthFromTime lt + 1));
      ("d", numeral (JSDate.DateFromTime lt));
      ("h", numeral (JSDate.HourFromTime lt));
      ("m", numeral (JSDate.MinFromTime lt));
      ("s", numeral (JSDate.SecFromTime lt)) ].
Proof.
  intros Hc Ht lt.
  pose proof (time_clip_bound x t Hc Ht) as Hbound.
  pose proof (localTZA_bound t) as Htza.
  destruct (field_bounds lt) as (Hy & Hmo & Hd & Hh & Hmi & Hs).
  { unfold lt, JSDate.LocalTime. lia. }
  assert (300000000 < 2 ^ 53) as Hbig by done.
  unfold token_texts. rewrite Ht. cbv zeta.
  unfold JSDate.getFullYear, JSDate.getMonth, JSDate.getDate, JSDate.getHours,
    JSDate.getMinutes, JSDate.getSeconds, JSDate.getter.
  fold lt. rewrite add_one by done.
  rewrite !two_digit_text_of_Z, !numeral_of_Z by lia.
  reflexivity.
Qed.

(** The text for the default pattern. *)
Lemma default_pattern_text x h :
  canonical x = true ->
  datetimeFormat localTZA (VNumber x) None h
  = (Ok (VString
           match JSDate.time_clip x with
           | Some t =>
               let lt := JSDate.LocalTime localTZA t in
               numeral (JSDate.YearFromTime lt)
               ++ pad2 (JSDate.MonthFromTime lt + 1)
               ++ pad2 (JSDate.DateFromTime lt) ++ " "
               ++ pad2 (JSDate.HourFromTime lt) ++ ":"
               ++ pad2 (JSDate.MinFromTime lt) ++ ":"
               ++ pad2 (JSDate.SecFromTime lt)
           | None => "NaNNaNNaN NaN:NaN:NaN"
           end),
     (h ++ replicate 5 two_digit_options)%list).
Proof.
  intros Hc.
  change (datetimeFormat localTZA (VNumber x) None h)
    with (datetimeFormat localTZA (VNumber x) (Some "yyyyMMdd hh:mm:ss") h).
  rewrite datetimeFormat_substitutes.
  destruct (JSDate.time_clip x) as [t|] eqn:Ht.
  - rewrite (token_texts_valid x t Hc Ht). cbv zeta.
    rewrite substitute_default;
      by rewrite ?letter_free_numeral, ?letter_free_pad2.
  - unfold token_texts. rewrite Ht. reflexivity.
Qed.

(** X10. With the default pattern ['yyyyMMdd hh:mm:ss'] and a valid
    timestamp, [datetimeFormat] returns the year, the month and the day
    of the month, a space, and the hour, the minute and the second with
    colons between them, in local time: the year as its numeral, the
    others with a ['0'] in front of a single digit. For a timestamp
    that is no time value (NaN, an infinity, or beyond 8.64e15 ms) it
    returns ["NaNNaNNaN NaN:NaN:NaN"]. *)
Theorem datetimeFormat_default x h :
  canonical x = true ->
  datetimeFormat localTZA (VNumber x) None h
  = (Ok (VString
           match JSDate.time_clip x with
           | Some t =>
               let lt := JSDate.LocalTime localTZA t in
               numeral (JSDate.YearFromTime lt)
               ++ pad2 (JSDate.MonthFromTime lt + 1)
               ++ pad2 (JSDate.DateFromTime lt) ++ " "
               ++ pad2 (JSDate.HourFromTime lt) ++ ":"
               ++ pad2 (JSDate.MinFromTime lt) ++ ":"
               ++ pad2 (JSDate.SecFromTime lt)
           | None => "NaNNaNNaN NaN:NaN:NaN"
           end),
     (h ++ replicate 5 two_digit_options)%list).
Proof. apply default_pattern_text. Qed.

End DefaultPattern.

(** An instance of X10: the epoch in UTC is ["19700101 00:00:00"]. *)
Lemma datetimeFormat_default_witness :
  datetimeFormat utc (VNumber (literal "0")) None []
  = (Ok (VString "19700101 00:00:00"), replicate 5 two_digit_options).
Proof.
  apply (datetimeFormat_default utc ltac:(by intros t; vm_compute)
           (literal "0") [] eq_refl).
Defined.

(** An instance of X9: the pattern ["2020-01-01"]. *)
Lemma datetimeFormat_no_token_witness :
  datetimeFormat utc (VNumber (literal "0")) (Some "2020-01-01") []
  = (Ok (VString "2020-01-01"), replicate 5 two_digit_options).
Proof. apply (datetimeFormat_no_token utc (literal "0") "2020-01-01" []). reflexivity. Defined.

End DatetimeFacts.

(** ** [datetimeFormat]: the width of the fields *)

Module CalendarFacts.

Import JSNumber DataFormat JSStringFacts JSNumberFacts DataFormatFacts.
Import SafeIntegers IntegerFormat DatetimeFacts.

(** *** The calendar *)

Lemma year_estimate_low day :
  JSDate.DayFromYear (1970 + day * 400 / 146097 - 2) <= day.
Proof. unfold JSDate.DayFromYear. dlia. Qed.

Lemma year_estimate_high day :
  day < JSDate.DayFromYear (1970 + day * 400 / 146097 - 2 + 5).
Proof. unfold JSDate.DayFromYear. dlia. Qed.

Lemma year_from_bracket fuel y day :
  JSDate.DayFromYear y <= day ->
  day < JSDate.DayFromYear (y + Z.of_nat fuel + 1) ->
  JSDate.DayFromYear (JSDate.year_from fuel y day) <= day
  < JSDate.DayFromYear (JSDate.year_from fuel y day + 1).
Proof.
  revert y. induction fuel as [|fuel IH]; intros y Hlo Hhi.
  - simpl in *. by rewrite Z.add_0_r in Hhi.
  - cbn [JSDate.year_from].
    destruct (Z.leb_spec (JSDate.DayFromYear (y + 1)) day) as [Hle|Hgt]; [|lia].
    apply IH; [done|].
    by replace (y + 1 + Z.of_nat fuel + 1) with (y + Z.of_nat (S fuel) + 1) by lia.
Qed.

(** The year found is the year of the day. *)
Lemma YearFromTime_bracket t :
  JSDate.DayFromYear (JSDate.YearFromTime t) <= JSDate.Day t
  < JSDate.DayFromYear (JSDate.YearFromTime t + 1).
Proof.
  unfold JSDate.YearFromTime. apply year_from_bracket.
  - apply year_estimate_low.
  - pose proof (year_estimate_high (JSDate.Day t)) as H.
    by replace (1970 + JSDate.Day t * 400 / 146097 - 2 + Z.of_nat 4 + 1)
      with (1970 + JSDate.Day t * 400 / 146097 - 2 + 5) by lia.
Qed.

Lemma DaysInYear_step y :
  JSDate.DayFromYear (y + 1) = JSDate.DayFromYear y + JSDate.DaysInYear y.
Proof.
  unfold JSDate.DayFromYear, JSDate.DaysInYear.
  destruct (Z.eqb_spec (y mod 4) 0), (Z.eqb_spec (y mod 100) 0),
    (Z.eqb_spec (y mod 400) 0); cbn [andb orb negb]; dlia.
Qed.

Lemma DayWithinYear_range t :
  0 <= JSDate.DayWithinYear t <= 364 + JSDate.InLeapYear t
  /\ 0 <= JSDate.InLeapYear t <= 1.
Proof.
  pose proof (YearFromTime_bracket t) as H.
  rewrite DaysInYear_step in H.
  unfold JSDate.DayWithinYear, JSDate.InLeapYear.
  unfold JSDate.DaysInYear in *.
  destruct (_ && _); simpl; lia.
Qed.

(** The month is one of twelve, and the day of the month one of at
    most 31. *)
Lemma month_and_date t :
  0 <= JSDate.MonthFromTime t <= 11 /\ 1 <= JSDate.DateFromTime t <= 31.
Proof.
  pose proof (DayWithinYear_range t) as [Hd Hl].
  unfold JSDate.MonthFromTime, JSDate.DateFromTime, JSDate.month_starts.
  set (d := JSDate.DayWithinYear t) in *.
  set (leap := JSDate.InLeapYear t) in *.
  cbn [JSDate.month_of].
  repeat match goal with
         | |- context [?a <=? ?b] => destruct (Z.leb_spec a b)
         end; cbn [fst snd]; lia.
Qed.

(** *** Two digits *)

Lemma length_pad2 n : 0 <= n <= 99 -> String.length (pad2 n) = 2%nat.
Proof.
  intros Hn. unfold pad2, numeral.
  replace (n <? 0) with false by (symmetry; apply Z.ltb_ge; lia).
  rewrite Z.abs_eq by lia. rewrite digits_of_step by lia.
  destruct (Z.ltb_spec n 10) as [Hlt|Hge]; [done|].
  rewrite digits_of_step by dlia.
  replace (n / 10 <? 10) with true by (symmetry; apply Z.ltb_lt; dlia).
  reflexivity.
Qed.

Lemma all_digits_pad2 n : 0 <= n -> all_digits (pad2 n) = true.
Proof.
  intros Hn. unfold pad2, numeral.
  replace (n <? 0) with false by (symmetry; apply Z.ltb_ge; lia).
  rewrite !all_digits_app, all_digits_digits_of by lia.
  by destruct (Z.abs n <? 10).
Qed.

Section Width.

Variable localTZA : Z -> Z.

Hypothesis localTZA_bound : forall t, Z.abs (localTZA t) <= JSDate.msPerDay.

(** X11. For a valid timestamp the text of the default pattern is the
    numeral of the year followed by 13 characters: month, day, hour,
    minute and second are two digits each, the month from 01 to 12, the
    day from 01 to 31, the hour from 00 to 23, minute and second from
    00 to 59. *)
Theorem datetimeFormat_width x t h :
  canonical x = true -> JSDate.time_clip x = Some t ->
  exists M D H Mi S,
    datetimeFormat localTZA (VNumber x) None h
    = (Ok (VString
             (numeral (JSDate.YearFromTime (JSDate.LocalTime localTZA t))
              ++ pad2 M ++ pad2 D ++ " " ++ pad2 H ++ ":" ++ pad2 Mi
              ++ ":" ++ pad2 S)),
       (h ++ replicate 5 two_digit_options)%list)
    /\ 1 <= M <= 12 /\ 1 <= D <= 31 /\ 0 <= H <= 23
    /\ 0 <= Mi <= 59 /\ 0 <= S <= 59
    /\ Forall (fun n => String.length (pad2 n) = 2%nat
                        /\ all_digits (pad2 n) = true) [M; D; H; Mi; S].
Proof.
  intros Hc Ht.
  set (lt := JSDate.LocalTime localTZA t).
  exists (JSDate.MonthFromTime lt + 1), (JSDate.DateFromTime lt),
    (JSDate.HourFromTime lt), (JSDate.MinFromTime lt), (JSDate.SecFromTime lt).
  pose proof (month_and_date lt) as [Hm Hd].
  assert (0 <= JSDate.HourFromTime lt <= 23) as Hh
    by (unfold JSDate.HourFromTime; dlia).
  assert (0 <= JSDate.MinFromTime lt <= 59) as Hmi
    by (unfold JSDate.MinFromTime; dlia).
  assert (0 <= JSDate.SecFromTime lt <= 59) as Hs
    by (unfold JSDate.SecFromTime; dlia).
  split.
  { rewrite (default_pattern_text localTZA localTZA_bound x h Hc), Ht.
    reflexivity. }
  repeat split; try lia.
  repeat constructor; first [apply length_pad2 | apply all_digits_pad2]; lia.
Qed.

End Width.

(** An instance of X11: the epoch in UTC. *)
Lemma datetimeFormat_width_witness :
  exists M D H Mi S,
    datetimeFormat utc (VNumber (literal "0")) None []
    = (Ok (VString
             (numeral (JSDate.YearFromTime (JSDate.LocalTime utc 0))
              ++ pad2 M ++ pad2 D ++ " " ++ pad2 H ++ ":" ++ pad2 Mi
              ++ ":" ++ pad2 S)),
       ([] ++ replicate 5 two_digit_options)%list)
    /\ 1 <= M <= 12 /\ 1 <= D <= 31 /\ 0 <= H <= 23
    /\ 0 <= Mi <= 59 /\ 0 <= S <= 59
    /\ Forall (fun n => String.length (pad2 n) = 2%nat
                        /\ all_digits (pad2 n) = true) [M; D; H; Mi; S].
Proof.
  apply (datetimeFormat_width utc ltac:(by intros t; vm_compute)
           (literal "0") 0 [] eq_refl eq_refl).
Defined.

End CalendarFacts.

(** ** [clone]: the second pass on a mirror of the source *)

Module CloneStructure.

Import JSNumber Clone.

#[local] Open Scope nat_scope.

(** [processPropertyIsFunction] by its loops. *)
Lemma processPropertyIsFunction_eq source target :
  processPropertyIsFunction source target
  = match source with
    | VObject _ props => for_in_object props props target
    | VArray _ elems => for_in_array elems 0 target
    | _ => Some target
    end.
Proof.
  destruct source; reflexivity.
Qed.

(** Induction on a structure, with the property for every part. *)
Lemma value_induction (P : value -> Prop) :
  P VUndefined -> P VNull -> (forall b, P (VBoolean b)) ->
  (forall x, P (VNumber x)) -> (forall s, P (VString s)) ->
  (forall f, P (VFunction f)) ->
  (forall l props, Forall (fun kv => P kv.2) props -> P (VObject l props)) ->
  (forall l elems, Forall P elems -> P (VArray l elems)) ->
  (forall s, P (VSymbol s)) -> (forall n, P (VBigInt n)) ->
  forall v, P v.
Proof.
  intros Hu Hn Hb Hx Hs Hf Ho Ha Hsy Hbi.
  fix IH 1.
  intros [| |b|x|s|f|l props|l elems|sy|bi];
    [apply Hu|apply Hn|apply Hb|apply Hx|apply Hs|apply Hf| |
    |apply Hsy|apply Hbi].
  - apply Ho. induction props as [|[k v] props IHp]; constructor; [apply IH|done].
  - apply Ha. induction elems as [|v elems IHe]; constructor; [apply IH|done].
Qed.

Lemma visit_eq k x target :
  visit k x target
  = match x with
    | VFunction _ => set target k x
    | VObject _ _ | VArray _ _ | VNull => at_key target k (descend x)
    | _ => Some target
    end.
Proof. destruct x; reflexivity. Qed.

Lemma for_in_object_cons props k x rest target :
  for_in_object props ((k, x) :: rest) target
  = if has_key "hasOwnProperty" props then None
    else match visit (KName k) x target with
         | Some target' => for_in_object props rest target'
         | None => None
         end.
Proof. cbn [for_in_object]. unfold hasOwnProperty. by destruct (has_key _ _). Qed.

(** *** Names *)

Lemma reaches_prototype_ne k props :
  k <> "__proto__"%string -> reaches_prototype k props = false.
Proof.
  intros Hk. unfold reaches_prototype.
  by destruct (String.eqb_spec k "__proto__").
Qed.

Lemma special_names k :
  special k = false ->
  k <> "hasOwnProperty"%string /\ k <> "toJSON"%string
  /\ k <> "__proto__"%string.
Proof. intros H. repeat split; intros ->; by vm_compute in H. Qed.

Lemma ordinary_object l props :
  ordinary (VObject l props) = true ->
  has_key "hasOwnProperty" props = false
  /\ assoc_get "toJSON" props = VUndefined
  /\ Forall (fun kv => special kv.1 = false /\ ordinary kv.2 = true) props.
Proof.
  cbn [ordinary]. induction props as [|[k x] props IH]; [done|].
  cbn [forallb fst snd]. intros [[Hk Hx]%andb_true_iff Hr]%andb_true_iff.
  apply negb_true_iff in Hk. destruct (IH Hr) as (H1 & H2 & H3).
  destruct (special_names k Hk) as (N1 & N2 & N3).
  split; [|split].
  - cbn [has_key existsb fst].
    destruct (String.eqb_spec k "hasOwnProperty"); [done|]. exact H1.
  - cbn [assoc_get]. destruct (String.eqb_spec k "toJSON"); [done|]. exact H2.
  - constructor; [done|exact H3].
Qed.

Lemma ordinary_array l elems :
  ordinary (VArray l elems) = true -> Forall (fun x => ordinary x = true) elems.
Proof.
  cbn [ordinary]. induction elems as [|x elems IH]; [constructor|].
  cbn [forallb]. intros [Hx Hr]%andb_true_iff. constructor; [done|by apply IH].
Qed.

(** With ordinary names and without a BigInt, [JSON.stringify] goes
    through a structure by itself. *)
Lemma ordinary_serializable v :
  ordinary v = true -> bigint_free v = true -> serializable v = true.
Proof.
  induction v as [| |b|n|s|f|l props IH|l elems IH|sy|bi] using value_induction;
    try done.
  - intros Ho Hb. destruct (ordinary_object l props Ho) as (_ & Hj & Hp).
    cbn [serializable bigint_free] in *. rewrite Hj. cbn [is_function negb andb].
    clear Ho Hj. induction IH as [|[k x] props Hx _ IHp]; [done|].
    inversion Hp as [|? ? [_ Hox] Hpr]; subst.
    cbn [forallb snd] in *. apply andb_true_iff in Hb as [Hbx Hb].
    cbn [snd] in *. by rewrite Hx, IHp.
  - intros Ho Hb. apply ordinary_array in Ho.
    cbn [serializable bigint_free] in *.
    induction IH as [|x elems Hx _ IHe]; [done|].
    inversion Ho as [|? ? Hox Hor]; subst.
    cbn [forallb] in *. apply andb_true_iff in Hb as [Hbx Hb].
    by rewrite Hx, IHe.
Qed.

Lemma serializable_bigint_free v :
  serializable v = true -> bigint_free v = true.
Proof.
  induction v as [| |b|n|s|f|l props IH|l elems IH|sy|bi] using value_induction;
    try done; cbn [serializable bigint_free].
  - intros [_ Hs]%andb_true_iff.
    induction IH as [|[k x] props Hx _ IHp]; [done|].
    cbn [forallb snd] in *. apply andb_true_iff in Hs as [Hsx Hs].
    by rewrite Hx, IHp.
  - intros Hs. induction IH as [|x elems Hx _ IHe]; [done|].
    cbn [forallb] in *. apply andb_true_iff in Hs as [Hsx Hs].
    by rewrite Hx, IHe.
Qed.

(** *** Properties and addresses *)

Lemma addresses_leaf t : is_container t = false -> addresses t = [].
Proof. by destruct t. Qed.

Lemma assoc_get_set_ne k k' v props :
  k <> k' -> assoc_get k' (assoc_set k v props) = assoc_get k' props.
Proof.
  intros Hne. induction props as [|[a w] props IH]; simpl.
  - destruct (String.eqb_spec k k'); done.
  - destruct (String.eqb_spec a k) as [->|Ha]; simpl.
    + destruct (String.eqb_spec k k'); done.
    + by rewrite IH.
Qed.

Lemma assoc_set_get k props :
  is_container (assoc_get k props) = true ->
  assoc_set k (assoc_get k props) props = props.
Proof.
  induction props as [|[a w] props IH]; simpl; [done|].
  destruct (String.eqb_spec a k) as [->|Ha]; [done|].
  intros H. by rewrite IH.
Qed.

Lemma addresses_assoc_set k v props :
  addresses v = addresses (assoc_get k props) ->
  props_addresses (assoc_set k v props) = props_addresses props.
Proof.
  unfold props_addresses. induction props as [|[a w] props IH]; simpl.
  - intros ->. done.
  - destruct (String.eqb_spec a k) as [->|Ha]; simpl.
    + by intros ->.
    + intros H. by rewrite IH.
Qed.

Lemma addresses_insert i v (elems : list value) t :
  elems !! i = Some t -> addresses v = addresses t ->
  flat_map addresses (<[i:=v]> elems) = flat_map addresses elems.
Proof.
  revert i. induction elems as [|w elems IH]; intros [|i]; simpl; try done.
  - by intros [= ->] ->.
  - intros Hi Hv. by rewrite (IH i).
Qed.

Lemma mirrors_container x t :
  is_container x = true -> mirrors x t -> is_container t = true.
Proof. by destruct x, t. Qed.

Lemma mirrors_object l props l' tprops :
  mirrors (VObject l props) (VObject l' tprops)
  <-> Forall (fun kx => mirrors kx.2 (assoc_get kx.1 tprops)) props.
Proof.
  cbn [mirrors]. induction props as [|[k x] props IH].
  - split; [constructor|done].
  - split.
    + intros [H1 H2]. constructor; [done|]. by apply IH.
    + intros H. inversion H; subst. split; [done|]. by apply IH.
Qed.

Lemma mirrors_array l elems l' telems :
  mirrors (VArray l elems) (VArray l' telems)
  <-> length telems = length elems
      /\ forall i x, elems !! i = Some x ->
                     mirrors x (default VUndefined (telems !! i)).
Proof.
  cbn [mirrors].
  assert (forall i0,
    (fix all (elems : list value) (i : nat) : Prop :=
       match elems with
       | [] => True
       | x :: elems' =>
           mirrors x (default VUndefined (telems !! i)) /\ all elems' (S i)
       end) elems i0
    <-> forall i x, elems !! i = Some x ->
                    mirrors x (default VUndefined (telems !! (i0 + i)))) as H.
  { induction elems as [|y elems IH]; intros i0.
    - split; [by intros _ [|?] ?|done].
    - split.
      + intros [H1 H2] [|i] x Hx; simpl in Hx.
        * injection Hx as <-. by rewrite Nat.add_0_r.
        * apply IH with (i := i) (x := x) in H2; [|done].
          by replace (i0 + S i) with (S i0 + i) by lia.
      + intros H. split.
        * specialize (H 0 y eq_refl). by rewrite Nat.add_0_r in H.
        * apply IH. intros i x Hx. specialize (H (S i) x Hx).
          by replace (i0 + S i) with (S i0 + i) in H by lia. }
  by rewrite (H 0).
Qed.

(** *** One key *)

Lemma at_key_object g x k l cur :
  restores g x -> unique_keys x = true -> ordinary x = true ->
  k <> "__proto__"%string -> mirrors x (assoc_get k cur) ->
  exists cur',
    at_key (VObject l cur) (KName k) (g x) = Some (VObject l cur')
    /\ (forall k', k <> k' -> assoc_get k' cur' = assoc_get k' cur)
    /\ props_addresses cur' = props_addresses cur
    /\ (function_free x = true -> cur' = cur).
Proof.
  intros Hg Hu Ho Hk Hm. destruct (Hg _ Hu Ho Hm) as (t' & Ht' & Ha & Hff).
  unfold at_key. cbn [get]. rewrite reaches_prototype_ne by done. rewrite Ht'.
  destruct (is_container (assoc_get k cur)) eqn:Hc; cbn [set];
    rewrite ?reaches_prototype_ne by done.
  - exists (assoc_set k t' cur). repeat split.
    + intros k' Hne. by apply assoc_get_set_ne.
    + by apply addresses_assoc_set.
    + intros Hf. rewrite (Hff Hf). by apply assoc_set_get.
  - by exists cur.
Qed.

Lemma at_key_array g x i l (cur : list value) :
  restores g x -> unique_keys x = true -> ordinary x = true ->
  i < length cur ->
  mirrors x (default VUndefined (cur !! i)) ->
  exists cur',
    at_key (VArray l cur) (KIndex i) (g x) = Some (VArray l cur')
    /\ length cur' = length cur
    /\ (forall j, i <> j -> cur' !! j = cur !! j)
    /\ flat_map addresses cur' = flat_map addresses cur
    /\ (function_free x = true -> cur' = cur).
Proof.
  intros Hg Hu Ho Hi Hm. destruct (Hg _ Hu Ho Hm) as (t' & Ht' & Ha & Hff).
  destruct (lookup_lt_is_Some_2 cur i Hi) as [t Ht].
  rewrite Ht in *. cbn [default from_option id] in *.
  unfold at_key. cbn [get]. rewrite Ht. cbn [default from_option id].
  rewrite Ht'.
  destruct (is_container t) eqn:Hc; cbn [set].
  - replace (i <? length cur) with true by (symmetry; by apply Nat.ltb_lt).
    exists (<[i:=t']> cur). repeat split.
    + apply length_insert.
    + intros j Hne. by apply list_lookup_insert_ne.
    + by apply (addresses_insert i t' cur t).
    + intros Hf. rewrite (Hff Hf). by apply list_insert_id.
  - by exists cur.
Qed.

Lemma visit_object x k l cur :
  restores descend x -> unique_keys x = true -> ordinary x = true ->
  k <> "__proto__"%string -> mirrors x (assoc_get k cur) ->
  exists cur',
    visit (KName k) x (VObject l cur) = Some (VObject l cur')
    /\ (forall k', k <> k' -> assoc_get k' cur' = assoc_get k' cur)
    /\ props_addresses cur' = props_addresses cur
    /\ (function_free x = true -> cur' = cur).
Proof.
  intros Hd Hu Ho Hk Hm. rewrite visit_eq.
  destruct x as [| |b|n|s|f|lx props|lx elems|sy|bi];
    try (by exists cur); try (by apply at_key_object).
  cbn [set]. rewrite reaches_prototype_ne by done.
  exists (assoc_set k (VFunction f) cur). repeat split.
  - intros k' Hne. by apply assoc_get_set_ne.
  - apply addresses_assoc_set. symmetry. by apply addresses_leaf.
  - done.
Qed.

Lemma visit_array x i l (cur : list value) :
  restores descend x -> unique_keys x = true -> ordinary x = true ->
  i < length cur ->
  mirrors x (default VUndefined (cur !! i)) ->
  exists cur',
    visit (KIndex i) x (VArray l cur) = Some (VArray l cur')
    /\ length cur' = length cur
    /\ (forall j, i <> j -> cur' !! j = cur !! j)
    /\ flat_map addresses cur' = flat_map addresses cur
    /\ (function_free x = true -> cur' = cur).
Proof.
  intros Hd Hu Ho Hi Hm. rewrite visit_eq.
  destruct x as [| |b|n|s|f|lx props|lx elems|sy|bi];
    try (by exists cur); try (by apply at_key_array).
  cbn [set].
  replace (i <? length cur) with true by (symmetry; by apply Nat.ltb_lt).
  destruct (lookup_lt_is_Some_2 cur i Hi) as [t Ht].
  rewrite Ht in Hm. cbn [default from_option id mirrors] in Hm.
  exists (<[i:=VFunction f]> cur). repeat split.
  - apply length_insert.
  - intros j Hne. by apply list_lookup_insert_ne.
  - apply (addresses_insert i _ cur t Ht). symmetry. by apply addresses_leaf.
  - done.
Qed.

(** *** The loops *)

Lemma distinct_cons k keys :
  distinct (k :: keys) = true -> ~ In k keys /\ distinct keys = true.
Proof.
  cbn [distinct]. intros [Hk Hd]%andb_true_iff. split; [|done].
  intros Hin. apply negb_true_iff in Hk.
  assert (existsb (String.eqb k) keys = true); [|congruence].
  apply existsb_exists. exists k. split; [done|]. apply String.eqb_refl.
Qed.

Lemma for_in_object_mirror own props :
  has_key "hasOwnProperty" own = false ->
  Forall (fun kv => restores descend kv.2) props ->
  forall l cur,
    distinct (map fst props) = true ->
    forallb (fun kv => unique_keys (snd kv)) props = true ->
    Forall (fun kv => special kv.1 = false /\ ordinary kv.2 = true) props ->
    Forall (fun kx => mirrors kx.2 (assoc_get kx.1 cur)) props ->
    exists cur',
      for_in_object own props (VObject l cur) = Some (VObject l cur')
      /\ props_addresses cur' = props_addresses cur
      /\ (forallb (fun kv => function_free (snd kv)) props = true -> cur' = cur).
Proof.
  intros Hown.
  induction 1 as [|[k x] props Hx _ IH]; intros l cur Hd Hu Ho Hm.
  - by exists cur.
  - cbn [map fst] in Hd. apply distinct_cons in Hd as [Hk Hd].
    cbn [forallb snd] in Hu. apply andb_true_iff in Hu as [Hux Hu].
    inversion Ho as [|? ? [Hsk Hox] Hor]; subst.
    inversion Hm as [|? ? Hmx Hmr]; subst. cbn [fst snd] in *.
    destruct (special_names k Hsk) as (_ & _ & Hproto).
    destruct (visit_object x k l cur Hx Hux Hox Hproto Hmx)
      as (cur1 & Hv & Hother & Ha1 & Hff1).
    destruct (IH l cur1 Hd Hu Hor) as (cur' & Hloop & Ha & Hff).
    { rewrite Forall_forall in Hmr |- *. intros [k' x'] Hin.
      cbn [fst snd]. rewrite Hother.
      - by apply (Hmr (k', x')).
      - intros ->. apply Hk. apply in_map_iff. exists (k', x').
        split; [done|]. by apply list_elem_of_In. }
    exists cur'. rewrite for_in_object_cons, Hown, Hv. repeat split.
    + done.
    + congruence.
    + cbn [forallb snd]. intros [Hfx Hfr]%andb_true_iff.
      rewrite (Hff Hfr). by apply Hff1.
Qed.

Lemma for_in_array_mirror elems :
  Forall (restores descend) elems ->
  forall l (cur : list value) i,
    forallb unique_keys elems = true ->
    Forall (fun x => ordinary x = true) elems ->
    i + length elems <= length cur ->
    (forall j x, elems !! j = Some x ->
                 mirrors x (default VUndefined (cur !! (i + j)))) ->
    exists cur',
      for_in_array elems i (VArray l cur) = Some (VArray l cur')
      /\ length cur' = length cur
      /\ flat_map addresses cur' = flat_map addresses cur
      /\ (forallb function_free elems = true -> cur' = cur).
Proof.
  induction 1 as [|x elems Hx _ IH]; intros l cur i Hu Ho Hlen Hm.
  - by exists cur.
  - cbn [forallb] in Hu. apply andb_true_iff in Hu as [Hux Hu].
    inversion Ho as [|? ? Hox Hor]; subst.
    cbn [length] in Hlen.
    pose proof (Hm 0 x eq_refl) as Hmx. rewrite Nat.add_0_r in Hmx.
    destruct (visit_array x i l cur Hx Hux Hox ltac:(lia) Hmx)
      as (cur1 & Hv & Hl1 & Hother & Ha1 & Hff1).
    destruct (IH l cur1 (S i) Hu Hor) as (cur' & Hloop & Hl & Ha & Hff).
    { lia. }
    { intros j y Hy. rewrite Hother by lia.
      replace (S i + j) with (i + S j) by lia. by apply Hm. }
    exists cur'. cbn [for_in_array]. rewrite Hv. repeat split.
    + done.
    + congruence.
    + congruence.
    + cbn [forallb]. intros [Hfx Hfr]%andb_true_iff.
      rewrite (Hff Hfr). by apply Hff1.
Qed.

Lemma forEach_mirror items :
  Forall (restores processPropertyIsFunction) items ->
  forall l (cur : list value) i,
    forallb unique_keys items = true ->
    Forall (fun x => ordinary x = true) items ->
    i + length items <= length cur ->
    (forall j x, items !! j = Some x ->
                 mirrors x (default VUndefined (cur !! (i + j)))) ->
    exists cur',
      forEach
        (fun item index arr =>
           at_key arr (KIndex index) (processPropertyIsFunction item))
        items i (VArray l cur) = Some (VArray l cur')
      /\ length cur' = length cur
      /\ flat_map addresses cur' = flat_map addresses cur
      /\ (forallb function_free items = true -> cur' = cur).
Proof.
  induction 1 as [|x items Hx _ IH]; intros l cur i Hu Ho Hlen Hm.
  - by exists cur.
  - cbn [forallb] in Hu. apply andb_true_iff in Hu as [Hux Hu].
    inversion Ho as [|? ? Hox Hor]; subst.
    cbn [length] in Hlen.
    pose proof (Hm 0 x eq_refl) as Hmx. rewrite Nat.add_0_r in Hmx.
    destruct (at_key_array processPropertyIsFunction x i l cur Hx Hux Hox
                ltac:(lia) Hmx)
      as (cur1 & Hv & Hl1 & Hother & Ha1 & Hff1).
    destruct (IH l cur1 (S i) Hu Hor) as (cur' & Hloop & Hl & Ha & Hff).
    { lia. }
    { intros j y Hy. rewrite Hother by lia.
      replace (S i + j) with (i + S j) by lia. by apply Hm. }
    exists cur'. cbn [forEach]. rewrite Hv. repeat split.
    + done.
    + congruence.
    + congruence.
    + cbn [forallb]. intros [Hfx Hfr]%andb_true_iff.
      rewrite (Hff Hfr). by apply Hff1.
Qed.

(** *** The second pass on a mirror *)

Lemma restores_leaf x :
  is_container x = false ->
  restores processPropertyIsFunction x /\ restores descend x.
Proof.
  intros Hx. split; intros t _ _ _; exists t; by destruct x.
Qed.

Lemma second_pass v :
  restores processPropertyIsFunction v /\ restores descend v.
Proof.
  induction v as [| |b|n|s|f|l props IH|l elems IH|sy|bi] using value_induction;
    try (by apply restores_leaf).
  - (* an object *)
    assert (restores processPropertyIsFunction (VObject l props)) as Hobj.
    { intros t Hu Ho Hm. destruct t as [| | | | | |l' tprops| | |]; try done.
      cbn [unique_keys] in Hu. apply andb_true_iff in Hu as [Hd Hu].
      apply mirrors_object in Hm.
      destruct (ordinary_object l props Ho) as (Hown & _ & Hop).
      destruct (for_in_object_mirror props props Hown) with (l := l') (cur := tprops)
        as (cur' & Hloop & Ha & Hff); try done.
      { eapply Forall_impl; [exact IH|]. by intros kv [_ ?]. }
      exists (VObject l' cur'). rewrite processPropertyIsFunction_eq.
      repeat split; [done| |].
      - cbn [addresses]. f_equal. exact Ha.
      - cbn [function_free]. intros Hf. by rewrite (Hff Hf). }
    split; [exact Hobj|]. exact Hobj.
  - (* an array *)
    split.
    + intros t Hu Ho Hm. destruct t as [| | | | | | |l' telems| |]; try done.
      cbn [unique_keys] in Hu. apply mirrors_array in Hm as [Hlen Hm].
      apply ordinary_array in Ho.
      destruct (for_in_array_mirror elems) with (l := l') (cur := telems) (i := 0)
        as (cur' & Hloop & Hl & Ha & Hff); try done.
      { eapply Forall_impl; [exact IH|]. by intros x [_ ?]. }
      { lia. }
      exists (VArray l' cur'). rewrite processPropertyIsFunction_eq.
      repeat split; [done| |].
      * cbn [addresses]. f_equal. exact Ha.
      * cbn [function_free]. intros Hf. by rewrite (Hff Hf).
    + intros t Hu Ho Hm. destruct t as [| | | | | | |l' telems| |]; try done.
      cbn [unique_keys] in Hu. apply mirrors_array in Hm as [Hlen Hm].
      apply ordinary_array in Ho.
      destruct (forEach_mirror elems) with (l := l') (cur := telems) (i := 0)
        as (cur' & Hloop & Hl & Ha & Hff); try done.
      { eapply Forall_impl; [exact IH|]. by intros x [? _]. }
      { lia. }
      exists (VArray l' cur'). cbn [descend].
      repeat split; [done| |].
      * cbn [addresses]. f_equal. exact Ha.
      * cbn [function_free]. intros Hf. by rewrite (Hff Hf).
Qed.

(** *** The second pass keeps the objects of the target

    Whatever the names of the source: where the pass returns, it has
    put functions where the target had no object, and nothing else. *)

Lemma at_key_object_keeps g x k l cur r :
  keeps g x -> unique_keys x = true -> mirrors x (assoc_get k cur) ->
  at_key (VObject l cur) (KName k) (g x) = Some r ->
  exists cur',
    r = VObject l cur'
    /\ (forall k', k <> k' -> assoc_get k' cur' = assoc_get k' cur)
    /\ props_addresses cur' = props_addresses cur.
Proof.
  intros Hg Hu Hm. unfold at_key. cbn [get set].
  destruct (reaches_prototype k cur); [done|].
  destruct (g x (assoc_get k cur)) as [t'|] eqn:Ht'; [|done].
  pose proof (Hg _ _ Hu Hm Ht') as Ha.
  destruct (is_container (assoc_get k cur)) eqn:Hc; intros [= <-].
  - exists (assoc_set k t' cur). repeat split.
    + intros k' Hne. by apply assoc_get_set_ne.
    + by apply addresses_assoc_set.
  - by exists cur.
Qed.

Lemma at_key_array_keeps g x i l (cur : list value) r :
  keeps g x -> unique_keys x = true -> i < length cur ->
  mirrors x (default VUndefined (cur !! i)) ->
  at_key (VArray l cur) (KIndex i) (g x) = Some r ->
  exists cur',
    r = VArray l cur'
    /\ length cur' = length cur
    /\ (forall j, i <> j -> cur' !! j = cur !! j)
    /\ flat_map addresses cur' = flat_map addresses cur.
Proof.
  intros Hg Hu Hi Hm.
  destruct (lookup_lt_is_Some_2 cur i Hi) as [t Ht].
  rewrite Ht in Hm. cbn [default from_option id] in Hm.
  unfold at_key. cbn [get]. rewrite Ht. cbn [default from_option id].
  destruct (g x t) as [t'|] eqn:Ht'; [|done].
  pose proof (Hg _ _ Hu Hm Ht') as Ha.
  destruct (is_container t) eqn:Hc; cbn [set].
  - replace (i <? length cur) with true by (symmetry; by apply Nat.ltb_lt).
    intros [= <-]. exists (<[i:=t']> cur). repeat split.
    + apply length_insert.
    + intros j Hne. by apply list_lookup_insert_ne.
    + by apply (addresses_insert i t' cur t).
  - intros [= <-]. by exists cur.
Qed.

Lemma visit_object_keeps x k l cur r :
  keeps descend x -> unique_keys x = true -> mirrors x (assoc_get k cur) ->
  visit (KName k) x (VObject l cur) = Some r ->
  exists cur',
    r = VObject l cur'
    /\ (forall k', k <> k' -> assoc_get k' cur' = assoc_get k' cur)
    /\ props_addresses cur' = props_addresses cur.
Proof.
  intros Hd Hu Hm. rewrite visit_eq.
  destruct x as [| |b|n|s|f|lx props|lx elems|sy|bi];
    try (intros [= <-]; by exists cur); try (by apply at_key_object_keeps).
  cbn [set]. destruct (reaches_prototype k cur); [done|]. intros [= <-].
  exists (assoc_set k (VFunction f) cur). repeat split.
  - intros k' Hne. by apply assoc_get_set_ne.
  - apply addresses_assoc_set. symmetry. by apply addresses_leaf.
Qed.

Lemma visit_array_keeps x i l (cur : list value) r :
  keeps descend x -> unique_keys x = true -> i < length cur ->
  mirrors x (default VUndefined (cur !! i)) ->
  visit (KIndex i) x (VArray l cur) = Some r ->
  exists cur',
    r = VArray l cur'
    /\ length cur' = length cur
    /\ (forall j, i <> j -> cur' !! j = cur !! j)
    /\ flat_map addresses cur' = flat_map addresses cur.
Proof.
  intros Hd Hu Hi Hm. rewrite visit_eq.
  destruct x as [| |b|n|s|f|lx props|lx elems|sy|bi];
    try (intros [= <-]; by exists cur); try (by apply at_key_array_keeps).
  cbn [set].
  replace (i <? length cur) with true by (symmetry; by apply Nat.ltb_lt).
  destruct (lookup_lt_is_Some_2 cur i Hi) as [t Ht].
  rewrite Ht in Hm. cbn [default from_option id mirrors] in Hm.
  intros [= <-]. exists (<[i:=VFunction f]> cur). repeat split.
  - apply length_insert.
  - intros j Hne. by apply list_lookup_insert_ne.
  - apply (addresses_insert i _ cur t Ht). symmetry. by apply addresses_leaf.
Qed.

Lemma for_in_object_keeps own props :
  Forall (fun kv => keeps descend kv.2) props ->
  forall l cur r,
    distinct (map fst props) = true ->
    forallb (fun kv => unique_keys (snd kv)) props = true ->
    Forall (fun kx => mirrors kx.2 (assoc_get kx.1 cur)) props ->
    for_in_object own props (VObject l cur) = Some r ->
    exists cur', r = VObject l cur' /\ props_addresses cur' = props_addresses cur.
Proof.
  induction 1 as [|[k x] props Hx _ IH]; intros l cur r Hd Hu Hm Hloop.
  - injection Hloop as <-. by exists cur.
  - cbn [map fst] in Hd. apply distinct_cons in Hd as [Hk Hd].
    cbn [forallb snd] in Hu. apply andb_true_iff in Hu as [Hux Hu].
    inversion Hm as [|? ? Hmx Hmr]; subst. cbn [fst snd] in *.
    rewrite for_in_object_cons in Hloop.
    destruct (has_key "hasOwnProperty" own); [done|].
    destruct (visit (KName k) x (VObject l cur)) as [r1|] eqn:Hv; [|done].
    destruct (visit_object_keeps x k l cur r1 Hx Hux Hmx Hv)
      as (cur1 & -> & Hother & Ha1).
    destruct (IH l cur1 r Hd Hu) as (cur' & -> & Ha); [|done|].
    { rewrite Forall_forall in Hmr |- *. intros [k' x'] Hin.
      cbn [fst snd]. rewrite Hother.
      - by apply (Hmr (k', x')).
      - intros ->. apply Hk. apply in_map_iff. exists (k', x').
        split; [done|]. by apply list_elem_of_In. }
    exists cur'. split; [done|congruence].
Qed.

Lemma for_in_array_keeps elems :
  Forall (keeps descend) elems ->
  forall l (cur : list value) i r,
    forallb unique_keys elems = true ->
    i + length elems <= length cur ->
    (forall j x, elems !! j = Some x ->
                 mirrors x (default VUndefined (cur !! (i + j)))) ->
    for_in_array elems i (VArray l cur) = Some r ->
    exists cur',
      r = VArray l cur' /\ length cur' = length cur
      /\ flat_map addresses cur' = flat_map addresses cur.
Proof.
  induction 1 as [|x elems Hx _ IH]; intros l cur i r Hu Hlen Hm Hloop.
  - injection Hloop as <-. by exists cur.
  - cbn [forallb] in Hu. apply andb_true_iff in Hu as [Hux Hu].
    cbn [length] in Hlen.
    pose proof (Hm 0 x eq_refl) as Hmx. rewrite Nat.add_0_r in Hmx.
    cbn [for_in_array] in Hloop.
    destruct (visit (KIndex i) x (VArray l cur)) as [r1|] eqn:Hv; [|done].
    destruct (visit_array_keeps x i l cur r1 Hx Hux ltac:(lia) Hmx Hv)
      as (cur1 & -> & Hl1 & Hother & Ha1).
    destruct (IH l cur1 (S i) r Hu) as (cur' & -> & Hl & Ha); [lia| |done|].
    { intros j y Hy. rewrite Hother by lia.
      replace (S i + j) with (i + S j) by lia. by apply Hm. }
    exists cur'. split; [done|]. split; congruence.
Qed.

Lemma forEach_keeps items :
  Forall (keeps processPropertyIsFunction) items ->
  forall l (cur : list value) i r,
    forallb unique_keys items = true ->
    i + length items <= length cur ->
    (forall j x, items !! j = Some x ->
                 mirrors x (default VUndefined (cur !! (i + j)))) ->
    forEach
      (fun item index arr =>
         at_key arr (KIndex index) (processPropertyIsFunction item))
      items i (VArray l cur) = Some r ->
    exists cur',
      r = VArray l cur' /\ length cur' = length cur
      /\ flat_map addresses cur' = flat_map addresses cur.
Proof.
  induction 1 as [|x items Hx _ IH]; intros l cur i r Hu Hlen Hm Hloop.
  - injection Hloop as <-. by exists cur.
  - cbn [forallb] in Hu. apply andb_true_iff in Hu as [Hux Hu].
    cbn [length] in Hlen.
    pose proof (Hm 0 x eq_refl) as Hmx. rewrite Nat.add_0_r in Hmx.
    cbn [forEach] in Hloop.
    destruct (at_key (VArray l cur) (KIndex i) (processPropertyIsFunction x))
      as [r1|] eqn:Hv; [|done].
    destruct (at_key_array_keeps processPropertyIsFunction x i l cur r1 Hx Hux
                ltac:(lia) Hmx Hv)
      as (cur1 & -> & Hl1 & Hother & Ha1).
    destruct (IH l cur1 (S i) r Hu) as (cur' & -> & Hl & Ha); [lia| |done|].
    { intros j y Hy. rewrite Hother by lia.
      replace (S i + j) with (i + S j) by lia. by apply Hm. }
    exists cur'. split; [done|]. split; congruence.
Qed.

Lemma second_pass_keeps v :
  keeps processPropertyIsFunction v /\ keeps descend v.
Proof.
  induction v as [| |b|n|s|f|l props IH|l elems IH|sy|bi] using value_induction;
    try (split; intros t t' _ _ [= <-]; done).
  - (* an object *)
    assert (keeps processPropertyIsFunction (VObject l props)) as Hobj.
    { intros t t' Hu Hm Hp. destruct t as [| | | | | |l' tprops| | |]; try done.
      cbn [unique_keys] in Hu. apply andb_true_iff in Hu as [Hd Hu].
      apply mirrors_object in Hm.
      rewrite processPropertyIsFunction_eq in Hp.
      destruct (for_in_object_keeps props props) with (l := l') (cur := tprops)
                                                      (r := t')
        as (cur' & -> & Ha); try done.
      { eapply Forall_impl; [exact IH|]. by intros kv [_ ?]. }
      cbn [addresses]. f_equal. exact Ha. }
    split; [exact Hobj|]. exact Hobj.
  - (* an array *)
    split.
    + intros t t' Hu Hm Hp. destruct t as [| | | | | | |l' telems| |]; try done.
      cbn [unique_keys] in Hu. apply mirrors_array in Hm as [Hlen Hm].
      rewrite processPropertyIsFunction_eq in Hp.
      destruct (for_in_array_keeps elems) with (l := l') (cur := telems) (i := 0)
                                               (r := t')
        as (cur' & -> & Hl & Ha); try done.
      { eapply Forall_impl; [exact IH|]. by intros x [_ ?]. }
      { lia. }
      cbn [addresses]. f_equal. exact Ha.
    + intros t t' Hu Hm Hp. destruct t as [| | | | | | |l' telems| |]; try done.
      cbn [unique_keys] in Hu. apply mirrors_array in Hm as [Hlen Hm].
      cbn [descend] in Hp.
      destruct (forEach_keeps elems) with (l := l') (cur := telems) (i := 0)
                                          (r := t')
        as (cur' & -> & Hl & Ha); try done.
      { eapply Forall_impl; [exact IH|]. by intros x [? _]. }
      { lia. }
      cbn [addresses]. f_equal. exact Ha.
Qed.

(** *** What [JSON.parse] builds *)

Lemma parse_object props next :
  parse (JObject props) next
  = (VObject next (parse_props props (S next)).1,
     (parse_props props (S next)).2).
Proof.
  cbn [parse].
  assert (forall acc n,
    fold_left
      (fun acc kj =>
         let '(v, n) := parse (snd kj) (snd acc) in
         ((fst acc ++ [(fst kj, v)])%list, n))
      props (acc, n)
    = ((acc ++ (parse_props props n).1)%list, (parse_props props n).2)) as H.
  { induction props as [|[k j] props IH]; intros acc n.
    - simpl. by rewrite app_nil_r.
    - cbn [fold_left parse_props fst snd].
      destruct (parse j n) as [v n1]. rewrite IH.
      destruct (parse_props props n1) as [vs n2]. cbn [fst snd].
      by rewrite <- app_assoc. }
  by rewrite H.
Qed.

Lemma parse_array elems next :
  parse (JArray elems) next
  = (VArray next (parse_elems elems (S next)).1,
     (parse_elems elems (S next)).2).
Proof.
  cbn [parse].
  assert (forall acc n,
    fold_left
      (fun acc e =>
         let '(v, n) := parse e (snd acc) in ((fst acc ++ [v])%list, n))
      elems (acc, n)
    = ((acc ++ (parse_elems elems n).1)%list, (parse_elems elems n).2)) as H.
  { induction elems as [|j elems IH]; intros acc n.
    - simpl. by rewrite app_nil_r.
    - cbn [fold_left parse_elems fst snd].
      destruct (parse j n) as [v n1]. rewrite IH.
      destruct (parse_elems elems n1) as [vs n2]. cbn [fst snd].
      by rewrite <- app_assoc. }
  by rewrite H.
Qed.

Lemma stringify_object l props :
  serialize (VObject l props) = Some (JObject (stringify_props props)).
Proof. reflexivity. Qed.

Lemma stringify_props_cons k x props :
  stringify_props ((k, x) :: props)
  = match serialize x with
    | Some j => (k, j) :: stringify_props props
    | None => stringify_props props
    end.
Proof. reflexivity. Qed.

Lemma parse_props_cons k j props n :
  parse_props ((k, j) :: props) n
  = ((k, (parse j n).1) :: (parse_props props (parse j n).2).1,
     (parse_props props (parse j n).2).2).
Proof.
  change (parse_props ((k, j) :: props) n)
    with (let '(v, n1) := parse j n in
          let '(vs, n') := parse_props props n1 in ((k, v) :: vs, n')).
  destruct (parse j n) as [v n1]. cbn [fst snd].
  by destruct (parse_props props n1).
Qed.

Lemma parse_elems_cons j elems n :
  parse_elems (j :: elems) n
  = ((parse j n).1 :: (parse_elems elems (parse j n).2).1,
     (parse_elems elems (parse j n).2).2).
Proof.
  change (parse_elems (j :: elems) n)
    with (let '(v, n1) := parse j n in
          let '(vs, n') := parse_elems elems n1 in (v :: vs, n')).
  destruct (parse j n) as [v n1]. cbn [fst snd].
  by destruct (parse_elems elems n1).
Qed.

(** A property that is not in the source is not in what is parsed. *)
Lemma assoc_get_absent k props n :
  ~ In k (map fst props) ->
  assoc_get k (parse_props (stringify_props props) n).1 = VUndefined.
Proof.
  revert n. induction props as [|[a x] props IH]; intros n Hk; [done|].
  cbn [map fst In] in Hk. rewrite stringify_props_cons.
  destruct (serialize x) as [j|].
  - rewrite parse_props_cons. cbn [fst assoc_get].
    destruct (String.eqb_spec a k) as [->|Hne]; [tauto|].
    apply IH. tauto.
  - apply IH. tauto.
Qed.

Lemma stringify_none x :
  serialize x = None -> mirrors x VUndefined /\ mirrors x VNull.
Proof. by destruct x. Qed.

Lemma length_parse_elems (elems : list value) n :
  length (parse_elems (map (fun e => default JNull (serialize e)) elems) n).1
  = length elems.
Proof.
  revert n. induction elems as [|x elems IHe]; intros n; [done|].
  cbn [map]. rewrite parse_elems_cons. cbn [fst length]. by rewrite IHe.
Qed.

(** The parsed text of a source mirrors the source. *)
Lemma parse_mirrors v j next :
  unique_keys v = true -> serialize v = Some j -> mirrors v (parse j next).1.
Proof.
  revert j next.
  induction v as [| |b|n|s|f|l props IH|l elems IH|sy|bi] using value_induction;
    intros j next Hu Hj; try (by injection Hj as <-); try done.
  - (* an object *)
    rewrite stringify_object in Hj. injection Hj as <-.
    rewrite parse_object. cbn [fst]. apply mirrors_object.
    cbn [unique_keys] in Hu. apply andb_true_iff in Hu as [Hd Hu].
    generalize (S next). clear next.
    induction IH as [|[k x] props Hx _ IHp]; intros n; [constructor|].
    cbn [map fst] in Hd. apply distinct_cons in Hd as [Hk Hd].
    cbn [forallb snd] in Hu. apply andb_true_iff in Hu as [Hux Hu].
    cbn [snd] in Hx. rewrite stringify_props_cons.
    destruct (serialize x) as [jx|] eqn:Hjx.
    + rewrite parse_props_cons. cbn [fst]. constructor.
      * cbn [fst snd assoc_get]. rewrite String.eqb_refl. by apply Hx.
      * specialize (IHp Hd Hu (parse jx n).2).
        rewrite Forall_forall in IHp |- *. intros [k' x'] Hin.
        cbn [fst snd assoc_get].
        destruct (String.eqb_spec k k') as [->|Hne].
        -- exfalso. apply Hk. apply in_map_iff. exists (k', x').
           split; [done|]. by apply list_elem_of_In.
        -- by apply (IHp (k', x')).
    + constructor; [|by apply IHp].
      cbn [fst snd]. rewrite assoc_get_absent by done.
      by apply stringify_none.
  - (* an array *)
    cbn [serialize] in Hj. injection Hj as <-.
    rewrite parse_array. cbn [fst]. apply mirrors_array.
    cbn [unique_keys] in Hu.
    generalize (S next). clear next. intros n.
    split; [apply length_parse_elems|].
    revert n. induction IH as [|x elems Hx _ IHe]; intros n i y Hy; [done|].
    cbn [forallb] in Hu. apply andb_true_iff in Hu as [Hux Hu].
    cbn [map]. rewrite parse_elems_cons. cbn [fst].
    destruct i as [|i]; cbn [lookup list_lookup] in Hy |- *.
    + injection Hy as <-. cbn [default from_option id].
      destruct (serialize x) as [jx|] eqn:Hjx; cbn [default from_option id].
      * by apply Hx.
      * by apply stringify_none.
    + by apply IHe.
Qed.

(** *** New addresses *)

Lemma json_induction (P : json -> Prop) :
  P JNull -> (forall b, P (JBoolean b)) -> (forall x, P (JNumber x)) ->
  (forall s, P (JString s)) ->
  (forall props, Forall (fun kj => P kj.2) props -> P (JObject props)) ->
  (forall elems, Forall P elems -> P (JArray elems)) ->
  forall j, P j.
Proof.
  intros Hn Hb Hx Hs Ho Ha.
  fix IH 1.
  intros [|b|x|s|props|elems];
    [apply Hn|apply Hb|apply Hx|apply Hs| |].
  - apply Ho. induction props as [|[k v] props IHp]; constructor; [apply IH|done].
  - apply Ha. induction elems as [|v elems IHe]; constructor; [apply IH|done].
Qed.

Lemma seq_join a b c :
  a <= b -> b <= c -> (seq a (b - a) ++ seq b (c - b))%list = seq a (c - a).
Proof.
  intros Hab Hbc. replace (c - a) with ((b - a) + (c - b)) by lia.
  rewrite seq_app. do 2 f_equal. lia.
Qed.

(** [JSON.parse] gives its objects and arrays the addresses from
    [next] on, one after the other. *)
Lemma parse_addresses j next :
  next <= (parse j next).2
  /\ addresses (parse j next).1 = seq next ((parse j next).2 - next).
Proof.
  revert next.
  induction j as [|b|x|s|props IH|elems IH] using json_induction; intros next;
    try (cbn [parse fst snd addresses]; rewrite Nat.sub_diag; by split).
  - rewrite parse_object. cbn [fst snd addresses].
    assert (forall n,
      n <= (parse_props props n).2
      /\ props_addresses (parse_props props n).1
         = seq n ((parse_props props n).2 - n)) as H.
    { induction IH as [|[k j] props Hj _ IHp]; intros n.
      - cbn [parse_props fst snd props_addresses flat_map].
        rewrite Nat.sub_diag. by split.
      - rewrite parse_props_cons. cbn [fst snd].
        destruct (Hj n) as [H1 H2]. cbn [snd] in H1, H2.
        destruct (IHp (parse j n).2) as [H3 H4].
        split; [lia|].
        unfold props_addresses in *. cbn [flat_map snd]. rewrite H2, H4.
        by apply seq_join. }
    destruct (H (S next)) as [H1 H2]. split; [lia|].
    unfold props_addresses in H2. rewrite H2.
    change (next :: seq (S next) ((parse_props props (S next)).2 - S next))
      with (seq next (S ((parse_props props (S next)).2 - S next))).
    f_equal. lia.
  - rewrite parse_array. cbn [fst snd addresses].
    assert (forall n,
      n <= (parse_elems elems n).2
      /\ flat_map addresses (parse_elems elems n).1
         = seq n ((parse_elems elems n).2 - n)) as H.
    { induction IH as [|j elems Hj _ IHe]; intros n.
      - cbn [parse_elems fst snd flat_map]. rewrite Nat.sub_diag. by split.
      - rewrite parse_elems_cons. cbn [fst snd].
        destruct (Hj n) as [H1 H2].
        destruct (IHe (parse j n).2) as [H3 H4].
        split; [lia|].
        cbn [flat_map]. rewrite H2, H4.
        by apply seq_join. }
    destruct (H (S next)) as [H1 H2]. split; [lia|]. rewrite H2.
    change (next :: seq (S next) ((parse_elems elems (S next)).2 - S next))
      with (seq next (S ((parse_elems elems (S next)).2 - S next))).
    f_equal. lia.
Qed.

(** *** The clone *)

Lemma clone_eq v next :
  clone v next
  = if serializable v then
      match serialize v with
      | Some j => processPropertyIsFunction v (parse j next).1
      | None => None
      end
    else None.
Proof.
  unfold clone, stringify. destruct (serializable v); [|done].
  destruct (serialize v) as [j|]; [|done]. by destruct (parse j next).
Qed.

Lemma clone_mirror v j next :
  unique_keys v = true -> ordinary v = true -> bigint_free v = true ->
  serialize v = Some j ->
  exists t,
    clone v next = Some t
    /\ addresses t = addresses (parse j next).1
    /\ (function_free v = true -> t = (parse j next).1).
Proof.
  intros Hu Ho Hb Hj. rewrite clone_eq, ordinary_serializable, Hj by done.
  destruct (second_pass v) as [H _].
  apply (H _ Hu Ho). by apply parse_mirrors.
Qed.

(** X12. For a source whose objects have no property by the names
    [hasOwnProperty], [toJSON] and [__proto__], [clone] throws for
    [undefined], a function and a symbol, whose JSON text is
    [undefined], and for a structure that holds a BigInt, and for
    nothing else: for every other source the second pass finds under
    every key what it looks for, and a value is returned. *)
Theorem clone_returns v next :
  unique_keys v = true -> ordinary v = true ->
  (clone v next = None
   <-> v = VUndefined \/ (exists f, v = VFunction f)
       \/ (exists s, v = VSymbol s) \/ bigint_free v = false).
Proof.
  intros Hu Ho. split.
  - intros Hc. destruct (bigint_free v) eqn:Hb; [|by do 3 right].
    destruct (serialize v) as [j|] eqn:Hj.
    + destruct (clone_mirror v j next Hu Ho Hb Hj) as (t & Ht & _). congruence.
    + destruct v; try done;
        [by left|right; left; by eexists|right; right; left; by eexists].
  - intros [->|[[f ->]|[[s ->]|Hb]]]; try reflexivity.
    rewrite clone_eq. destruct (serializable v) eqn:Hs; [|done].
    by rewrite (serializable_bigint_free v Hs) in Hb.
Qed.

(** X13. Every object and array of the clone is new: they have the
    addresses from [next] on, each once, so the clone shares no object
    with a source made before. *)
Theorem clone_fresh v next t :
  unique_keys v = true -> clone v next = Some t ->
  addresses t = seq next (length (addresses t)).
Proof.
  intros Hu Ht. rewrite clone_eq in Ht.
  destruct (serializable v); [|done].
  destruct (serialize v) as [j|] eqn:Hj; [|done].
  destruct (second_pass_keeps v) as [Hk _].
  rewrite (Hk _ _ Hu (parse_mirrors v j next Hu Hj) Ht).
  destruct (parse_addresses j next) as [_ Hp].
  rewrite Hp. by rewrite length_seq.
Qed.

(** X14. For a source that holds no function, whose objects have no
    property by the names [hasOwnProperty], [toJSON] and [__proto__],
    and for which [JSON.stringify] returns a text (so it holds no
    BigInt), the second pass changes nothing: the clone is what
    [JSON.parse] makes of that text. *)
Theorem clone_without_functions v j next :
  unique_keys v = true -> ordinary v = true ->
  function_free v = true -> stringify v = Some j ->
  clone v next = Some (parse j next).1.
Proof.
  intros Hu Ho Hf Hj. unfold stringify in Hj.
  destruct (serializable v) eqn:Hs; [|done].
  pose proof (serializable_bigint_free v Hs) as Hb.
  destruct (clone_mirror v j next Hu Ho Hb Hj) as (t & -> & _ & Heq).
  by rewrite (Heq Hf).
Qed.

(** *** Instances *)

(** An instance of X12: [clone({f: f})] returns. *)
Lemma clone_returns_witness :
  clone (VObject 0 [("f", VFunction 1)]) 1 = None
  <-> VObject 0 [("f", VFunction 1)] = VUndefined
      \/ (exists f, VObject 0 [("f", VFunction 1)] = VFunction f)
      \/ (exists s, VObject 0 [("f", VFunction 1)] = VSymbol s)
      \/ bigint_free (VObject 0 [("f", VFunction 1)]) = false.
Proof.
  apply (clone_returns (VObject 0 [("f", VFunction 1)]) 1); reflexivity.
Defined.

(** An instance of X13: the clone of [{a: [1]}], made at address 2. *)
Lemma clone_fresh_witness :
  addresses (VObject 2 [("a", VArray 3 [VNumber (literal "1")])])
  = seq 2
      (length (addresses (VObject 2 [("a", VArray 3 [VNumber (literal "1")])]))).
Proof.
  apply (clone_fresh (VObject 0 [("a", VArray 1 [VNumber (literal "1")])]) 2);
    [reflexivity|by vm_compute].
Defined.

(** An instance of X14: [clone({a: null})]. *)
Lemma clone_without_functions_witness :
  clone (VObject 0 [("a", VNull)]) 1
  = Some (parse (JObject [("a", JNull)]) 1).1.
Proof.
  apply (clone_without_functions (VObject 0 [("a", VNull)])); reflexivity.
Defined.

End CloneStructure.

(** ** [clone]: what comes back *)

Module CloneValues.

Import JSNumber Clone CloneStructure.

#[local] Open Scope nat_scope.

#[local] Arguments of_Z : simpl never.
#[local] Arguments of_string : simpl never.
#[local] Arguments to_string : simpl never.

(** A safe integer is the number of an integer below [2^53]. *)
Lemma safe_integer_of_Z x :
  safe_integer x = true -> exists n, x = of_Z n /\ (Z.abs n < 2 ^ 53)%Z.
Proof.
  destruct x as [| |neg m e]; try done. unfold safe_integer. cbv zeta.
  intros [Hn Heq]%andb_true_iff. apply Z.ltb_lt in Hn.
  exists (to_integer neg m e). split; [|done].
  destruct (of_Z (to_integer neg m e)) as [| |neg' m' e']; try done.
  apply andb_true_iff in Heq as [Heq He]. apply andb_true_iff in Heq as [Hneg Hm].
  apply Z.eqb_eq in He, Hm. apply Bool.eqb_prop in Hneg. by subst.
Qed.

(** JSON carries a safe integer without loss. *)
Lemma safe_integer_round_trip x :
  safe_integer x = true -> is_finite x = true /\ of_string (to_string x) = x.
Proof.
  intros Hx. split; [by destruct x|].
  destruct (safe_integer_of_Z x Hx) as (n & -> & Hn).
  rewrite IntegerFormat.numeral_of_Z by done.
  apply IntegerFormat.of_string_numeral.
Qed.

Lemma json_safe_function_free v : json_safe v = true -> function_free v = true.
Proof.
  induction v as [| |b|n|s|f|l props IH|l elems IH|sy|bi] using value_induction;
    try done; cbn [json_safe function_free].
  - induction IH as [|[k x] props Hx _ IHp]; [done|].
    cbn [forallb snd] in *. intros [H1 H2]%andb_true_iff.
    by rewrite Hx, IHp.
  - induction IH as [|x elems Hx _ IHe]; [done|].
    cbn [forallb] in *. intros [H1 H2]%andb_true_iff.
    by rewrite Hx, IHe.
Qed.

Lemma json_safe_bigint_free v : json_safe v = true -> bigint_free v = true.
Proof.
  induction v as [| |b|n|s|f|l props IH|l elems IH|sy|bi] using value_induction;
    try done; cbn [json_safe bigint_free].
  - induction IH as [|[k x] props Hx _ IHp]; [done|].
    cbn [forallb snd] in *. intros [H1 H2]%andb_true_iff.
    by rewrite Hx, IHp.
  - induction IH as [|x elems Hx _ IHe]; [done|].
    cbn [forallb] in *. intros [H1 H2]%andb_true_iff.
    by rewrite Hx, IHe.
Qed.

(** The text of such data parses to the same data, at new addresses. *)
Lemma json_safe_round_trip v next :
  json_safe v = true ->
  exists j, serialize v = Some j /\ erase (parse j next).1 = erase v.
Proof.
  revert next.
  induction v as [| |b|n|s|f|l props IH|l elems IH|sy|bi] using value_induction;
    intros next Hs; try done; try (by eexists).
  - (* a number *)
    cbn [json_safe] in Hs. destruct (safe_integer_round_trip n Hs) as [Hf Hrt].
    exists (JNumber n). split; [cbn [serialize]; by rewrite Hf|].
    cbn [parse fst erase].
    by rewrite Hrt.
  - (* an object *)
    eexists. split; [apply stringify_object|].
    rewrite parse_object. cbn [fst erase json_safe] in *. f_equal.
    generalize (S next). clear next.
    induction IH as [|[k x] props Hx _ IHp]; intros n; [done|].
    cbn [forallb snd] in Hs. apply andb_true_iff in Hs as [Hsx Hs].
    cbn [snd] in Hx. destruct (Hx n Hsx) as (jx & Hjx & Hex).
    rewrite stringify_props_cons, Hjx, parse_props_cons. cbn [fst map snd].
    rewrite Hex. f_equal. by apply IHp.
  - (* an array *)
    exists (JArray (map (fun e => default JNull (serialize e)) elems)).
    split; [reflexivity|].
    rewrite parse_array. cbn [fst erase json_safe] in *. f_equal.
    generalize (S next). clear next.
    induction IH as [|x elems Hx _ IHe]; intros n; [done|].
    cbn [forallb] in Hs. apply andb_true_iff in Hs as [Hsx Hs].
    destruct (Hx n Hsx) as (jx & Hjx & Hex).
    cbn [map]. rewrite Hjx. cbn [default from_option id].
    rewrite parse_elems_cons. cbn [fst map]. rewrite Hex. f_equal.
    by apply IHe.
Qed.

(** X15. Data that JSON carries without loss (objects and arrays of
    strings, booleans, [null] and integers below [2^53]), under
    property names other than [hasOwnProperty], [toJSON] and
    [__proto__], is cloned as it is: the clone differs from the source in
    its addresses only. *)
Theorem clone_json_safe v next :
  unique_keys v = true -> ordinary v = true -> json_safe v = true ->
  exists t, clone v next = Some t /\ erase t = erase v.
Proof.
  intros Hu Ho Hs. destruct (json_safe_round_trip v next Hs) as (j & Hj & He).
  destruct (clone_mirror v j next Hu Ho (json_safe_bigint_free v Hs) Hj)
    as (t & Ht & _ & Heq).
  exists t. split; [done|].
  by rewrite (Heq (json_safe_function_free v Hs)).
Qed.

(** *** Functions *)

Lemma for_in_array_functions fs :
  forall i (cur : list value) l,
    length cur = i + length fs ->
    for_in_array (map VFunction fs) i (VArray l cur)
    = Some (VArray l (take i cur ++ map VFunction fs)%list).
Proof.
  induction fs as [|f fs IH]; intros i cur l Hlen.
  - cbn [map for_in_array length] in *. rewrite app_nil_r.
    by rewrite take_ge by lia.
  - cbn [map for_in_array length] in *. rewrite visit_eq. cbn [set].
    replace (i <? length cur) with true by (symmetry; apply Nat.ltb_lt; lia).
    rewrite IH by (rewrite length_insert; lia).
    do 2 f_equal.
    rewrite (take_S_r _ _ (VFunction f))
      by (apply list_lookup_insert_eq; lia).
    rewrite take_insert_ge by lia. by rewrite <- app_assoc.
Qed.

Lemma parse_elems_nulls (fs : list nat) n :
  parse_elems (map (fun _ => JNull) fs) n = (map (fun _ => VNull) fs, n).
Proof.
  induction fs as [|f fs IH]; [done|].
  cbn [map]. rewrite parse_elems_cons. cbn [parse fst snd]. by rewrite IH.
Qed.

(** X16. Functions that are the elements of the array given to [clone]
    are kept, each at its index, in a new array: the [for-in] loop of
    line 10 runs over the indices of the source itself. *)
Theorem clone_array_of_functions fs l next :
  clone (VArray l (map VFunction fs)) next
  = Some (VArray next (map VFunction fs)).
Proof.
  rewrite clone_eq.
  assert (serializable (VArray l (map VFunction fs)) = true) as ->
    by (cbn [serializable]; by induction fs).
  cbn [serialize].
  replace (map (fun e => default JNull (serialize e)) (map VFunction fs))
    with (map (fun _ : nat => JNull) fs)
    by (rewrite map_map; by apply map_ext).
  rewrite parse_array, parse_elems_nulls. cbn [fst].
  rewrite processPropertyIsFunction_eq.
  rewrite for_in_array_functions by (by rewrite !length_map).
  reflexivity.
Qed.

Lemma assoc_get_set_eq k v props : assoc_get k (assoc_set k v props) = v.
Proof.
  induction props as [|[a w] props IH]; simpl.
  - by rewrite String.eqb_refl.
  - destruct (String.eqb_spec a k) as [->|Ha]; simpl.
    + by rewrite String.eqb_refl.
    + destruct (String.eqb_spec a k); [done|]. exact IH.
Qed.

Lemma visit_object_key x k l cur cur' :
  visit (KName k) x (VObject l cur) = Some (VObject l cur') ->
  mirrors x (assoc_get k cur) ->
  passed x (assoc_get k cur) (assoc_get k cur').
Proof.
  rewrite visit_eq. intros Hv Hm.
  destruct x as [| |b|n|s|f|lx props|lx elems|sy|bi]; cbn [passed];
    try (by injection Hv as <-).
  - unfold at_key in Hv. cbn [get descend processPropertyIsFunction] in Hv.
    destruct (reaches_prototype k cur); [done|].
    cbn [mirrors] in Hm. rewrite Hm in Hv. by injection Hv as <-.
  - cbn [set] in Hv. destruct (reaches_prototype k cur); [done|].
    injection Hv as <-. apply assoc_get_set_eq.
  - unfold at_key in Hv. cbn [get set] in Hv.
    destruct (reaches_prototype k cur); [done|].
    destruct (descend _ _) as [t'|] eqn:Ht'; [|done].
    rewrite (mirrors_container (VObject lx props) _ eq_refl Hm) in Hv.
    injection Hv as <-. by rewrite assoc_get_set_eq.
  - unfold at_key in Hv. cbn [get set] in Hv.
    destruct (reaches_prototype k cur); [done|].
    destruct (descend _ _) as [t'|] eqn:Ht'; [|done].
    rewrite (mirrors_container (VArray lx elems) _ eq_refl Hm) in Hv.
    injection Hv as <-. by rewrite assoc_get_set_eq.
Qed.

Lemma for_in_object_keys own props :
  forall l cur cur',
    distinct (map fst props) = true ->
    forallb (fun kv => unique_keys (snd kv)) props = true ->
    Forall (fun kv => special kv.1 = false /\ ordinary kv.2 = true) props ->
    Forall (fun kx => mirrors kx.2 (assoc_get kx.1 cur)) props ->
    for_in_object own props (VObject l cur) = Some (VObject l cur') ->
    (forall k, ~ In k (map fst props) -> assoc_get k cur' = assoc_get k cur)
    /\ (forall k x, In (k, x) props ->
                    passed x (assoc_get k cur) (assoc_get k cur')).
Proof.
  induction props as [|[k x] props IH]; intros l cur cur' Hd Hu Ho Hm Hloop.
  - cbn [for_in_object] in Hloop. injection Hloop as <-. by split.
  - cbn [map fst] in Hd. apply distinct_cons in Hd as [Hk Hd].
    cbn [forallb snd] in Hu. apply andb_true_iff in Hu as [Hux Hu].
    inversion Ho as [|? ? [Hsk Hox] Hor]; subst.
    inversion Hm as [|? ? Hmx Hmr]; subst. cbn [fst snd] in *.
    destruct (special_names k Hsk) as (_ & _ & Hproto).
    destruct (second_pass x) as [_ Hx].
    destruct (visit_object x k l cur Hx Hux Hox Hproto Hmx)
      as (cur1 & Hv & Hother & _ & _).
    rewrite for_in_object_cons in Hloop.
    destruct (has_key "hasOwnProperty" own); [done|]. rewrite Hv in Hloop.
    assert (Forall (fun kx => mirrors kx.2 (assoc_get kx.1 cur1)) props) as Hm1.
    { rewrite Forall_forall in Hmr |- *. intros [k' x'] Hin.
      cbn [fst snd]. rewrite Hother.
      - by apply (Hmr (k', x')).
      - intros ->. apply Hk. apply in_map_iff. exists (k', x').
        split; [done|]. by apply list_elem_of_In. }
    destruct (IH l cur1 cur' Hd Hu Hor Hm1 Hloop) as [Hout Hin].
    split.
    + intros k' Hk'. cbn [map fst In] in Hk'.
      rewrite Hout by tauto. apply Hother. tauto.
    + intros k' x' [[= <- <-]|Hin'].
      * rewrite Hout by done. by apply (visit_object_key x k l).
      * specialize (Hin k' x' Hin'). rewrite Hother in Hin; [done|].
        intros ->. apply Hk. apply in_map_iff. by exists (k', x').
Qed.

Lemma assoc_get_In k props :
  assoc_get k props <> VUndefined -> In (k, assoc_get k props) props.
Proof.
  induction props as [|[a w] props IH]; simpl; [done|].
  destruct (String.eqb_spec a k) as [->|Ha]; [by left|].
  intros H. right. by apply IH.
Qed.

(** A function found along a path of properties is found along the
    same path after the second pass. *)
Lemma function_at_kept path :
  forall v t t' f,
    unique_keys v = true -> ordinary v = true -> mirrors v t ->
    processPropertyIsFunction v t = Some t' ->
    path <> [] -> function_at path v = Some f -> function_at path t' = Some f.
Proof.
  induction path as [|k path IH]; intros v t t' f Hu Ho Hm Hp Hne Hf; [done|].
  cbn [function_at] in Hf.
  destruct v as [| | | | | |l props| | |]; try done.
  destruct t as [| | | | | |l' tprops| | |]; try done.
  pose proof Hu as Hu'. cbn [unique_keys] in Hu'.
  apply andb_true_iff in Hu' as [Hd Huv].
  pose proof Hm as Hm'. apply mirrors_object in Hm'.
  destruct (ordinary_object l props Ho) as (Hown & _ & Hop).
  rewrite processPropertyIsFunction_eq in Hp.
  destruct (for_in_object_mirror props props Hown) with (l := l') (cur := tprops)
    as (cur' & Hloop & _); try done.
  { apply Forall_forall. intros kv _. apply second_pass. }
  rewrite Hloop in Hp. injection Hp as <-.
  destruct (for_in_object_keys props props l' tprops cur' Hd Huv Hop Hm' Hloop)
    as [_ Hkeys].
  remember (assoc_get k props) as x eqn:Ex.
  assert (In (k, x) props) as Hin.
  { rewrite Ex. apply assoc_get_In. rewrite <- Ex. intros Hx. rewrite Hx in Hf.
    by destruct path. }
  specialize (Hkeys k x Hin).
  assert (unique_keys x = true) as Hux.
  { rewrite forallb_forall in Huv. by apply (Huv (k, x)). }
  assert (ordinary x = true) as Hox.
  { rewrite Forall_forall in Hop. apply (Hop (k, x)). by apply list_elem_of_In. }
  assert (mirrors x (assoc_get k tprops)) as Hmx.
  { rewrite Forall_forall in Hm'. apply (Hm' (k, x)). by apply list_elem_of_In. }
  cbn [function_at].
  destruct path as [|k2 path].
  - cbn [function_at] in Hf |- *. destruct x; try done.
    cbn [passed] in Hkeys. by rewrite Hkeys.
  - destruct x as [| | | | | |lx xprops| | |];
      try (cbn [function_at] in Hf; done).
    cbn [passed] in Hkeys.
    by apply (IH (VObject lx xprops) (assoc_get k tprops) (assoc_get k cur') f).
Qed.

(** X17. In a source whose objects have no property by the names
    [hasOwnProperty], [toJSON] and [__proto__], a function that is
    reached through properties of objects, at any depth, is reached
    through the same properties in the clone, and is the same
    function. *)
Theorem clone_keeps_functions v next t path f :
  unique_keys v = true -> ordinary v = true -> clone v next = Some t ->
  function_at path v = Some f -> function_at path t = Some f.
Proof.
  intros Hu Ho Ht Hf. rewrite clone_eq in Ht.
  destruct (serializable v); [|done].
  destruct (serialize v) as [j|] eqn:Hj; [|done].
  destruct path as [|k path]; [by destruct v|].
  apply (function_at_kept (k :: path) v (parse j next).1 t f); try done.
  by apply parse_mirrors.
Qed.

(** *** Instances *)

(** An instance of X15: [clone({a: 1, b: ['x', null]})]. *)
Lemma clone_json_safe_witness :
  exists t,
    clone (VObject 0 [("a", VNumber (of_Z 1));
                      ("b", VArray 1 [VString "x"; VNull])]) 2 = Some t
    /\ erase t
       = erase (VObject 0 [("a", VNumber (of_Z 1));
                           ("b", VArray 1 [VString "x"; VNull])]).
Proof.
  apply (clone_json_safe
           (VObject 0 [("a", VNumber (of_Z 1));
                       ("b", VArray 1 [VString "x"; VNull])]) 2);
    vm_compute; reflexivity.
Defined.

(** An instance of X17: [clone({a: {g: g}})] has [g] at [a.g]. *)
Lemma clone_keeps_functions_witness :
  function_at ["a"; "g"] (VObject 2 [("a", VObject 3 [("g", VFunction 7)])])
  = Some 7.
Proof.
  apply (clone_keeps_functions
           (VObject 0 [("a", VObject 1 [("g", VFunction 7)])]) 2
           (VObject 2 [("a", VObject 3 [("g", VFunction 7)])]) ["a"; "g"] 7);
    reflexivity.
Defined.

End CloneValues.

(** ** [clone]: the functions the second pass reaches *)

Module CloneArrays.

Import JSNumber Clone CloneStructure CloneValues.

#[local] Open Scope nat_scope.

#[local] Arguments of_Z : simpl never.
#[local] Arguments of_string : simpl never.
#[local] Arguments to_string : simpl never.

(** Line 7: a source that is no object is left at once. *)
Lemma leaf_pass x t :
  is_container x = false ->
  processPropertyIsFunction x t = Some t /\ descend x t = Some t.
Proof. by destruct x. Qed.

(** Nothing is read from a primitive but [undefined]. *)
Lemma read_leaf path x f :
  read path x = Some (VFunction f) -> is_container x = false ->
  path = [] /\ x = VFunction f.
Proof.
  intros Hf Hx. revert Hf. destruct path as [|k path]; cbn [read].
  - by intros [= ->].
  - destruct x; try done; destruct k; cbn [get];
      destruct path as [|k' path]; try done; by destruct k'.
Qed.

(** *** One index *)

Lemma visit_array_passed x i l (cur cur' : list value) :
  i < length cur ->
  visit (KIndex i) x (VArray l cur) = Some (VArray l cur') ->
  mirrors x (default VUndefined (cur !! i)) ->
  passed x (default VUndefined (cur !! i)) (default VUndefined (cur' !! i)).
Proof.
  intros Hi. rewrite visit_eq. intros Hv Hm.
  destruct (lookup_lt_is_Some_2 cur i Hi) as [t Ht].
  assert ((i <? length cur) = true) as Hlt by (by apply Nat.ltb_lt).
  rewrite Ht in Hm |- *. cbn [default from_option id] in Hm |- *.
  destruct x as [| |b|n|s|f|lx props|lx elems|sy|bi]; cbn [passed];
    try (injection Hv as <-; by rewrite Ht).
  - unfold at_key in Hv. cbn [get] in Hv. rewrite Ht in Hv.
    cbn [default from_option id descend processPropertyIsFunction] in Hv.
    cbn [mirrors] in Hm. rewrite Hm in Hv. injection Hv as <-. by rewrite Ht.
  - cbn [set] in Hv. rewrite Hlt in Hv. injection Hv as <-.
    by rewrite list_lookup_insert_eq.
  - unfold at_key in Hv. cbn [get] in Hv. rewrite Ht in Hv.
    cbn [default from_option id] in Hv.
    destruct (descend _ _) as [t'|] eqn:Ht'; [|done].
    rewrite (mirrors_container (VObject lx props) _ eq_refl Hm) in Hv.
    cbn [set] in Hv. rewrite Hlt in Hv. injection Hv as <-.
    by rewrite list_lookup_insert_eq.
  - unfold at_key in Hv. cbn [get] in Hv. rewrite Ht in Hv.
    cbn [default from_option id] in Hv.
    destruct (descend _ _) as [t'|] eqn:Ht'; [|done].
    rewrite (mirrors_container (VArray lx elems) _ eq_refl Hm) in Hv.
    cbn [set] in Hv. rewrite Hlt in Hv. injection Hv as <-.
    by rewrite list_lookup_insert_eq.
Qed.

(** The callback of [forEach] (line 20) at the index [i]. *)
Lemma at_index_passed x i l (cur cur' : list value) :
  i < length cur ->
  at_key (VArray l cur) (KIndex i) (processPropertyIsFunction x)
  = Some (VArray l cur') ->
  mirrors x (default VUndefined (cur !! i)) ->
  processPropertyIsFunction x (default VUndefined (cur !! i))
  = Some (default VUndefined (cur' !! i)).
Proof.
  intros Hi Hv Hm.
  destruct (lookup_lt_is_Some_2 cur i Hi) as [t Ht].
  assert ((i <? length cur) = true) as Hlt by (by apply Nat.ltb_lt).
  unfold at_key in Hv. cbn [get] in Hv. rewrite Ht in Hv, Hm |- *.
  cbn [default from_option id] in Hv, Hm |- *.
  destruct (processPropertyIsFunction x t) as [t'|] eqn:Ht'; [|done].
  destruct (is_container t) eqn:Hc.
  - cbn [set] in Hv. rewrite Hlt in Hv. injection Hv as <-.
    by rewrite list_lookup_insert_eq.
  - injection Hv as <-. rewrite Ht. cbn [default from_option id].
    assert (is_container x = false) as Hx.
    { destruct (is_container x) eqn:Hx; [|done].
      by rewrite (mirrors_container x t Hx Hm) in Hc. }
    destruct (leaf_pass x t Hx) as [Hp _]. congruence.
Qed.

(** *** The loops over an array *)

Lemma for_in_array_keys elems :
  forall l (cur cur' : list value) i,
    forallb unique_keys elems = true ->
    Forall (fun x => ordinary x = true) elems ->
    i + length elems <= length cur ->
    (forall j x, elems !! j = Some x ->
                 mirrors x (default VUndefined (cur !! (i + j)))) ->
    for_in_array elems i (VArray l cur) = Some (VArray l cur') ->
    (forall j, j < i -> cur' !! j = cur !! j)
    /\ (forall j x, elems !! j = Some x ->
                    passed x (default VUndefined (cur !! (i + j)))
                      (default VUndefined (cur' !! (i + j)))).
Proof.
  induction elems as [|x elems IH]; intros l cur cur' i Hu Ho Hlen Hm Hloop.
  - cbn [for_in_array] in Hloop. injection Hloop as <-.
    split; [done|]. by intros [|?] ?.
  - cbn [forallb] in Hu. apply andb_true_iff in Hu as [Hux Hu].
    inversion Ho as [|? ? Hox Hor]; subst.
    cbn [length] in Hlen.
    pose proof (Hm 0 x eq_refl) as Hmx. rewrite Nat.add_0_r in Hmx.
    destruct (second_pass x) as [_ Hx].
    destruct (visit_array x i l cur Hx Hux Hox ltac:(lia) Hmx)
      as (cur1 & Hv & Hl1 & Hother & _ & _).
    cbn [for_in_array] in Hloop. rewrite Hv in Hloop.
    destruct (IH l cur1 cur' (S i) Hu Hor) as [Hlow Hkeys]; [lia| |done|].
    { intros j y Hy. rewrite Hother by lia.
      replace (S i + j) with (i + S j) by lia. by apply Hm. }
    split.
    + intros j Hj. rewrite Hlow by lia. apply Hother. lia.
    + intros [|j] y Hy.
      * injection Hy as <-. rewrite Nat.add_0_r. rewrite Hlow by lia.
        apply (visit_array_passed x i l cur cur1); [lia|done|done].
      * specialize (Hkeys j y Hy).
        replace (i + S j) with (S i + j) by lia.
        by rewrite Hother in Hkeys by lia.
Qed.

Lemma forEach_keys items :
  forall l (cur cur' : list value) i,
    forallb unique_keys items = true ->
    Forall (fun x => ordinary x = true) items ->
    i + length items <= length cur ->
    (forall j x, items !! j = Some x ->
                 mirrors x (default VUndefined (cur !! (i + j)))) ->
    forEach
      (fun item index arr =>
         at_key arr (KIndex index) (processPropertyIsFunction item))
      items i (VArray l cur) = Some (VArray l cur') ->
    (forall j, j < i -> cur' !! j = cur !! j)
    /\ (forall j x, items !! j = Some x ->
                    processPropertyIsFunction x
                      (default VUndefined (cur !! (i + j)))
                    = Some (default VUndefined (cur' !! (i + j)))).
Proof.
  induction items as [|x items IH]; intros l cur cur' i Hu Ho Hlen Hm Hloop.
  - cbn [forEach] in Hloop. injection Hloop as <-.
    split; [done|]. by intros [|?] ?.
  - cbn [forallb] in Hu. apply andb_true_iff in Hu as [Hux Hu].
    inversion Ho as [|? ? Hox Hor]; subst.
    cbn [length] in Hlen.
    pose proof (Hm 0 x eq_refl) as Hmx. rewrite Nat.add_0_r in Hmx.
    destruct (second_pass x) as [Hx _].
    destruct (at_key_array processPropertyIsFunction x i l cur Hx Hux Hox
                ltac:(lia) Hmx)
      as (cur1 & Hv & Hl1 & Hother & _ & _).
    cbn [forEach] in Hloop. rewrite Hv in Hloop.
    destruct (IH l cur1 cur' (S i) Hu Hor) as [Hlow Hkeys]; [lia| |done|].
    { intros j y Hy. rewrite Hother by lia.
      replace (S i + j) with (i + S j) by lia. by apply Hm. }
    split.
    + intros j Hj. rewrite Hlow by lia. apply Hother. lia.
    + intros [|j] y Hy.
      * injection Hy as <-. rewrite Nat.add_0_r. rewrite Hlow by lia.
        apply (at_index_passed x i l cur cur1); [lia|done|done].
      * specialize (Hkeys j y Hy).
        replace (i + S j) with (S i + j) by lia.
        by rewrite Hother in Hkeys by lia.
Qed.

(** *** Along a path *)

(** What is read along a path after the pass: the function of the
    source where the pass assigns it, and what the target had there
    before the pass where it does not. *)
Lemma pass_read path :
  forall each v t t' f,
    unique_keys v = true -> ordinary v = true -> mirrors v t ->
    (each = true -> exists l elems, v = VArray l elems) ->
    (if each then descend v t else processPropertyIsFunction v t) = Some t' ->
    path <> [] -> read path v = Some (VFunction f) ->
    read path t'
    = if assigned each path v then Some (VFunction f) else read path t.
Proof.
  induction path as [|k path IH]; intros each v t t' f Hu Ho Hm He Hp Hne Hf;
    [done|].
  destruct (is_container v) eqn:Hc;
    [|by destruct (read_leaf _ _ _ Hf Hc)].
  destruct v as [| | | | | |l props|l elems| |]; try done.
  - (* an object, which the for-in loop walks *)
    destruct each; [by destruct (He eq_refl) as (? & ? & ?)|].
    destruct t as [| | | | | |l' tprops| | |]; try done.
    pose proof Hu as Hu'. cbn [unique_keys] in Hu'.
    apply andb_true_iff in Hu' as [Hd Huv].
    pose proof Hm as Hm'. apply mirrors_object in Hm'.
    destruct (ordinary_object l props Ho) as (Hown & _ & Hop).
    rewrite processPropertyIsFunction_eq in Hp.
    destruct (for_in_object_mirror props props Hown) with (l := l') (cur := tprops)
      as (cur' & Hloop & _); try done.
    { apply Forall_forall. intros kv _. apply second_pass. }
    rewrite Hloop in Hp. injection Hp as <-.
    destruct (for_in_object_keys props props l' tprops cur' Hd Huv Hop Hm' Hloop)
      as [_ Hkeys].
    destruct k as [name|i]; [|done].
    cbn [read get] in Hf.
    destruct (reaches_prototype name props) eqn:Hrp; [done|].
    remember (assoc_get name props) as x eqn:Ex.
    assert (In (name, x) props) as Hin.
    { rewrite Ex. apply assoc_get_In. rewrite <- Ex. intros Hx.
      rewrite Hx in Hf. by destruct (read_leaf _ _ _ Hf eq_refl). }
    assert (special name = false /\ ordinary x = true) as [Hsn Hox].
    { rewrite Forall_forall in Hop. apply (Hop (name, x)).
      by apply list_elem_of_In. }
    destruct (special_names name Hsn) as (_ & _ & Hproto).
    cbn [read get assigned]. rewrite Hrp, <- Ex.
    rewrite !reaches_prototype_ne by done.
    specialize (Hkeys name x Hin).
    assert (unique_keys x = true) as Hux.
    { rewrite forallb_forall in Huv. by apply (Huv (name, x)). }
    assert (mirrors x (assoc_get name tprops)) as Hmx.
    { rewrite Forall_forall in Hm'. apply (Hm' (name, x)).
      by apply list_elem_of_In. }
    destruct (is_container x) eqn:Hcx.
    + destruct x as [| | | | | |lx xprops|lx xelems| |]; try done;
        cbn [passed descend] in Hkeys; cbn [negb].
      * apply (IH false (VObject lx xprops)); try done. by intros ->.
      * apply (IH true (VArray lx xelems)); try done.
        -- intros _. by exists lx, xelems.
        -- by intros ->.
    + destruct (read_leaf _ _ _ Hf Hcx) as [-> ->].
      cbn [passed] in Hkeys. cbn [read negb]. by rewrite Hkeys.
  - (* an array *)
    destruct t as [| | | | | | |l' telems| |]; try done.
    pose proof Hu as Hu'. cbn [unique_keys] in Hu'.
    pose proof Hm as Hm'. apply mirrors_array in Hm' as [Hlen Hm'].
    pose proof (ordinary_array l elems Ho) as Hoa.
    destruct k as [name|i]; [done|].
    cbn [read get assigned] in Hf |- *.
    destruct (elems !! i) as [x|] eqn:Hi;
      [|by destruct (read_leaf _ _ _ Hf eq_refl)].
    cbn [default from_option id] in Hf |- *.
    assert (unique_keys x = true) as Hux.
    { rewrite forallb_forall in Hu'. apply Hu'.
      apply list_elem_of_In. by apply (list_elem_of_lookup_2 _ i). }
    assert (ordinary x = true) as Hox.
    { rewrite Forall_forall in Hoa. apply (Hoa x).
      by apply (list_elem_of_lookup_2 _ i). }
    pose proof (Hm' i x Hi) as Hmx.
    destruct each.
    + (* walked by forEach *)
      cbn [descend] in Hp.
      destruct (forEach_mirror elems) with (l := l') (cur := telems) (i := 0)
        as (cur' & Hloop & _); try done.
      { apply Forall_forall. intros y _. apply second_pass. }
      { lia. }
      rewrite Hloop in Hp. injection Hp as <-. cbn [get].
      destruct (forEach_keys elems l' telems cur' 0 Hu' Hoa ltac:(lia) Hm' Hloop)
        as [_ Hkeys].
      specialize (Hkeys i x Hi). cbn [Nat.add] in Hkeys.
      destruct (is_container x) eqn:Hcx.
      * destruct x as [| | | | | |lx xprops|lx xelems| |]; try done; cbn [negb].
        -- apply (IH false (VObject lx xprops)); try done. by intros ->.
        -- apply (IH false (VArray lx xelems)); try done. by intros ->.
      * destruct (read_leaf _ _ _ Hf Hcx) as [-> ->]. cbn [read negb].
        cbn [processPropertyIsFunction] in Hkeys. by injection Hkeys as <-.
    + (* walked by the for-in loop *)
      rewrite processPropertyIsFunction_eq in Hp.
      destruct (for_in_array_mirror elems) with (l := l') (cur := telems)
                                                (i := 0)
        as (cur' & Hloop & _); try done.
      { apply Forall_forall. intros y _. apply second_pass. }
      { lia. }
      rewrite Hloop in Hp. injection Hp as <-. cbn [get].
      destruct (for_in_array_keys elems l' telems cur' 0 Hu' Hoa ltac:(lia) Hm'
                  Hloop) as [_ Hkeys].
      specialize (Hkeys i x Hi). cbn [Nat.add] in Hkeys.
      destruct (is_container x) eqn:Hcx.
      * destruct x as [| | | | | |lx xprops|lx xelems| |]; try done;
          cbn [passed descend] in Hkeys; cbn [negb].
        -- apply (IH false (VObject lx xprops)); try done. by intros ->.
        -- apply (IH true (VArray lx xelems)); try done.
           ++ intros _. by exists lx, xelems.
           ++ by intros ->.
      * destruct (read_leaf _ _ _ Hf Hcx) as [-> ->].
        cbn [passed] in Hkeys. cbn [read negb]. by rewrite Hkeys.
Qed.

(** *** What [JSON.parse] has where the source has a function *)

Lemma assoc_get_parsed k x jx props :
  forall n,
    distinct (map fst props) = true -> In (k, x) props ->
    serialize x = Some jx ->
    exists n',
      assoc_get k (parse_props (stringify_props props) n).1 = (parse jx n').1.
Proof.
  induction props as [|[a y] props IH]; intros n Hd Hin Hjx; [done|].
  cbn [map fst] in Hd. apply distinct_cons in Hd as [Ha Hd].
  rewrite stringify_props_cons.
  destruct Hin as [[= -> ->]|Hin].
  - rewrite Hjx, parse_props_cons. cbn [fst assoc_get].
    rewrite String.eqb_refl. by exists n.
  - assert (a <> k) as Hne.
    { intros ->. apply Ha. apply in_map_iff. by exists (k, x). }
    destruct (serialize y) as [jy|]; [|by apply IH].
    rewrite parse_props_cons. cbn [fst assoc_get].
    destruct (String.eqb_spec a k); [done|]. by apply IH.
Qed.

Lemma lookup_parsed (elems : list value) :
  forall i x n,
    elems !! i = Some x ->
    exists n',
      (parse_elems (map (fun e => default JNull (serialize e)) elems) n).1 !! i
      = Some (parse (default JNull (serialize x)) n').1.
Proof.
  induction elems as [|y elems IH]; intros i x n Hi; [done|].
  cbn [map]. rewrite parse_elems_cons. cbn [fst].
  destruct i as [|i]; cbn [lookup list_lookup] in Hi |- *.
  - injection Hi as <-. by exists n.
  - by apply IH.
Qed.

(** A function that the pass does not assign is an element of an
    array, where [JSON.stringify] has written [null]. *)
Lemma parse_read path :
  forall each v j n f,
    unique_keys v = true -> ordinary v = true -> serialize v = Some j ->
    (each = true -> exists l elems, v = VArray l elems) ->
    read path v = Some (VFunction f) ->
    assigned each path v = false ->
    read path (parse j n).1 = Some VNull.
Proof.
  induction path as [|k path IH]; intros each v j n f Hu Ho Hj He Hf Ha.
  - cbn [read] in Hf. injection Hf as ->. done.
  - destruct (is_container v) eqn:Hc;
      [|by destruct (read_leaf _ _ _ Hf Hc)].
    destruct v as [| | | | | |l props|l elems| |]; try done.
    + destruct each; [by destruct (He eq_refl) as (? & ? & ?)|].
      rewrite stringify_object in Hj. injection Hj as <-.
      rewrite parse_object. cbn [fst].
      cbn [unique_keys] in Hu. apply andb_true_iff in Hu as [Hd Huv].
      destruct (ordinary_object l props Ho) as (_ & _ & Hop).
      destruct k as [name|i]; [|done].
      cbn [read get assigned] in Hf, Ha.
      destruct (reaches_prototype name props) eqn:Hrp; [done|].
      remember (assoc_get name props) as x eqn:Ex.
      assert (In (name, x) props) as Hin.
      { rewrite Ex. apply assoc_get_In. rewrite <- Ex. intros Hx.
        rewrite Hx in Hf. by destruct (read_leaf _ _ _ Hf eq_refl). }
      assert (special name = false /\ ordinary x = true) as [Hsn Hox].
      { rewrite Forall_forall in Hop. apply (Hop (name, x)).
        by apply list_elem_of_In. }
      destruct (special_names name Hsn) as (_ & _ & Hproto).
      cbn [read get]. rewrite reaches_prototype_ne by done.
      assert (unique_keys x = true) as Hux.
      { rewrite forallb_forall in Huv. by apply (Huv (name, x)). }
      destruct x as [| | | | |g|lx xprops|lx xelems| |];
        try (by destruct (read_leaf _ _ _ Hf eq_refl)).
      * destruct (assoc_get_parsed name (VObject lx xprops) _ props (S n)
                    Hd Hin eq_refl) as [n' ->].
        by apply (IH false (VObject lx xprops) _ n' f).
      * cbn [negb] in Ha.
        destruct (assoc_get_parsed name (VArray lx xelems) _ props (S n)
                    Hd Hin eq_refl) as [n' ->].
        apply (IH true (VArray lx xelems) _ n' f); try done.
        intros _. by exists lx, xelems.
    + cbn [serialize] in Hj. injection Hj as <-.
      rewrite parse_array. cbn [fst].
      cbn [unique_keys] in Hu.
      pose proof (ordinary_array l elems Ho) as Hoa.
      destruct k as [name|i]; [done|].
      cbn [read get assigned] in Hf, Ha |- *.
      destruct (elems !! i) as [x|] eqn:Hi;
        [|by destruct (read_leaf _ _ _ Hf eq_refl)].
      cbn [default from_option id] in Hf, Ha.
      assert (unique_keys x = true) as Hux.
      { rewrite forallb_forall in Hu. apply Hu.
        apply list_elem_of_In. by apply (list_elem_of_lookup_2 _ i). }
      assert (ordinary x = true) as Hox.
      { rewrite Forall_forall in Hoa. apply (Hoa x).
        by apply (list_elem_of_lookup_2 _ i). }
      destruct (lookup_parsed elems i x (S n) Hi) as [n' ->].
      cbn [default from_option id].
      destruct x as [| | | | |g|lx xprops|lx xelems| |];
        try (by destruct (read_leaf _ _ _ Hf eq_refl)).
      * destruct (read_leaf _ _ _ Hf eq_refl) as [-> _]. done.
      * by apply (IH false (VObject lx xprops) _ n' f).
      * apply (IH (negb each) (VArray lx xelems) _ n' f); try done.
        intros _. by exists lx, xelems.
Qed.

(** X18. In a source whose objects have no property by the names
    [hasOwnProperty], [toJSON] and [__proto__]: where the source has a
    function, the clone has that function or [null]. It has the
    function if the second pass walks the function's parent with the
    [for-in] loop of line 10: every object, the source itself if it is
    an array, and an array that is an element of an array walked by
    [forEach]. It has [null] if the parent is walked by [forEach] (lines
    19-21): an array that is a property of an object or an element of an
    array walked by [for-in]. *)
Theorem clone_functions v next t path f :
  unique_keys v = true -> ordinary v = true -> clone v next = Some t ->
  read path v = Some (VFunction f) ->
  read path t = Some (if assigned false path v then VFunction f else VNull).
Proof.
  intros Hu Ho Ht Hf. rewrite clone_eq in Ht.
  destruct (serializable v); [|done].
  destruct (serialize v) as [j|] eqn:Hj; [|done].
  destruct path as [|k path].
  { cbn [read] in Hf. injection Hf as ->. done. }
  rewrite (pass_read (k :: path) false v (parse j next).1 t f); try done.
  - destruct (assigned false (k :: path) v) eqn:Ha; [done|].
    by apply (parse_read (k :: path) false v j next f).
  - by apply parse_mirrors.
Qed.

(** An instance of X18: in [clone({arr: [{g: g}, h]})] the function [g]
    is at [arr[0].g] and [arr[1]] is [null]. *)
Lemma clone_functions_witness :
  read [KName "arr"; KIndex 0; KName "g"]
    (VObject 3 [("arr", VArray 4 [VObject 5 [("g", VFunction 7)]; VNull])])
  = Some (VFunction 7)
  /\ read [KName "arr"; KIndex 1]
       (VObject 3 [("arr", VArray 4 [VObject 5 [("g", VFunction 7)]; VNull])])
     = Some VNull.
Proof.
  split.
  - apply (clone_functions
             (VObject 0 [("arr", VArray 1 [VObject 2 [("g", VFunction 7)];
                                           VFunction 8])]) 3
             (VObject 3 [("arr", VArray 4 [VObject 5 [("g", VFunction 7)];
                                           VNull])])
             [KName "arr"; KIndex 0; KName "g"] 7); reflexivity.
  - apply (clone_functions
             (VObject 0 [("arr", VArray 1 [VObject 2 [("g", VFunction 7)];
                                           VFunction 8])]) 3
             (VObject 3 [("arr", VArray 4 [VObject 5 [("g", VFunction 7)];
                                           VNull])])
             [KName "arr"; KIndex 1] 8); reflexivity.
Defined.

End CloneArrays.
